(** * Auto Mark Sharp Edges: the feature-detection core of evolver_remesher

    A shallow embedding of [core_auto_sharp.py] (stages AM1 to AM4 and the
    orchestrator [auto_detect_and_mark_edges]) together with the properties
    of the detection and resolution engine.

    Conventions of the embedding:
    - a [BMEdge] object is referred to by its position in [bm.edges]; Python
      sets of edges are lists built with [set_add], Python dicts are
      association lists in insertion order;
    - Python floats are rationals ([Q]); the only operations the code applies
      to them are [>] and passing them around;
    - [Vector.angle] comes from the host's [mathutils] and is a parameter of
      the development, as is the type of vectors; it raises [ValueError] when
      one of the two vectors has zero length;
    - the edges are objects of the host's type [bmesh.types.BMEdge], which
      has no attribute [use_edge_sharp], [crease] or [bevel_weight]: where
      the code reads or assigns one of them, the call ends with the
      [AttributeError] of the host;
    - a call that ends with an exception is [Raised], one that ends with a
      value is [Returned];
    - every [print] is recorded as a [Message] in an output log. *)

From Stdlib Require Import List String Bool Arith ZArith QArith Qabs Lia ListSet
  Permutation.
Import ListNotations.

Open Scope nat_scope.
Open Scope list_scope.

(** ** Detection types and their priority order *)

Definition TYPE_NONE : string := "NONE"%string.
Definition TYPE_BLENDER_SEAM : string := "BLENDER_SEAM"%string.
Definition TYPE_UV_SEAM_BOUNDARY : string := "UV_SEAM_BOUNDARY"%string.
Definition TYPE_BLENDER_SHARP : string := "BLENDER_SHARP"%string.
Definition TYPE_BLENDER_CREASE : string := "BLENDER_CREASE"%string.
Definition TYPE_ANGLE_SHARP : string := "ANGLE_SHARP"%string.
Definition TYPE_CURVATURE_SHARP : string := "CURVATURE_SHARP"%string.
Definition TYPE_BLENDER_BEVEL : string := "BLENDER_BEVEL"%string.

(** Lower index = higher priority.  The specification calls the
    [BLENDER_*] types [AUTHORED_*]. *)
Definition PRIORITY_ORDER : list string :=
  [ TYPE_UV_SEAM_BOUNDARY;
    TYPE_BLENDER_SEAM;
    TYPE_BLENDER_SHARP;
    TYPE_BLENDER_CREASE;
    TYPE_ANGLE_SHARP;
    TYPE_CURVATURE_SHARP;
    TYPE_BLENDER_BEVEL ].

(** ** Python values used by the code *)

(** [list.index]: position of the first occurrence, [None] for [ValueError]. *)
Fixpoint list_index (x : string) (l : list string) : option nat :=
  match l with
  | [] => None
  | y :: l' => if String.eqb x y then Some 0
               else option_map S (list_index x l')
  end.

(** [x in l] for a list of strings. *)
Definition str_in (x : string) (l : list string) : bool :=
  existsb (String.eqb x) l.

(** A priority index: a list position, or [float('inf')]. *)
Inductive PyIndex : Type :=
| Fin (n : nat)
| Inf.

Definition py_lt (a b : PyIndex) : bool :=
  match a, b with
  | Fin x, Fin y => x <? y
  | Fin _, Inf => true
  | Inf, _ => false
  end.

(** [a > b] on floats. *)
Definition Qgt_bool (a b : Q) : bool := negb (Qle_bool a b).

(** A candidate detection: (detection type, metric value). *)
Abbreviation Detection := (string * Q)%type (only parsing).

(** Lines written to the console. *)
Inductive Message : Type :=
| MsgAm1Error
| MsgAm2cStub (sensitivity : Q)
| MsgAm2dNoUV
| MsgAm2dStub
| MsgWarnUnknownType (detection_type : string)
| MsgAm3Stub
| MsgWarnInvalidEdge (edge : nat)
| MsgStart
| MsgAm1Failed
| MsgFoundAngle (n : nat)
| MsgFoundExisting (detection_type : string) (n : nat)
| MsgFoundCurvature (n : nat)
| MsgFoundUV (n : nat)
| MsgNoCandidates
| MsgTotalUnique (n : nat)
| MsgAm3Selected (n : nat)
| MsgNoneSelected.

(** How a call ends: with a value, or with the exception of a host call. *)
Inductive Outcome (A : Type) : Type :=
| Returned (a : A)
| Raised.

Arguments Returned {A}.
Arguments Raised {A}.

(** Sequencing: what follows a call runs only when the call returned. *)
Definition and_then {A B : Type} (o : Outcome A) (k : A -> Outcome B)
  : Outcome B :=
  match o with
  | Returned a => k a
  | Raised => Raised
  end.

Notation "x <- o ;; k" := (and_then o (fun x => k))
  (at level 61, o at next level, right associativity).

(** A [for] loop whose body may raise: the exception ends the loop. *)
Fixpoint for_each {A S : Type} (body : S -> A -> Outcome S) (items : list A)
  (st : S) : Outcome S :=
  match items with
  | [] => Returned st
  | x :: items' => st' <- body st x ;; for_each body items' st'
  end.

(** [f] applied to the value of a call that returned. *)
Definition outcome_map {A B : Type} (f : A -> B) (o : Outcome A) : Outcome B :=
  x <- o ;; Returned (f x).

(** ** Dictionaries in insertion order *)

Section Dict.
Context {K V : Type} (eqb : K -> K -> bool).

Fixpoint dict_get (d : list (K * V)) (k : K) : option V :=
  match d with
  | [] => None
  | (k', v) :: d' => if eqb k k' then Some v else dict_get d' k
  end.

(** [d[k] = v]: overwrite in place, or append a new key. *)
Fixpoint dict_set (d : list (K * V)) (k : K) (v : V) : list (K * V) :=
  match d with
  | [] => [(k, v)]
  | (k', v') :: d' =>
      if eqb k k' then (k', v) :: d' else (k', v') :: dict_set d' k v
  end.
End Dict.

(** Sets of edges. *)
Abbreviation edge_set := (list nat) (only parsing).
Definition edge_add (e : nat) (s : edge_set) : edge_set := set_add Nat.eq_dec e s.
Definition edge_mem (e : nat) (s : edge_set) : bool := set_mem Nat.eq_dec e s.

(** [{BMEdge: [(detection_type, metric_value), ...]}] *)
Abbreviation CandidateMap := (list (nat * list (string * Q))) (only parsing).

(** [enumerate(l)] *)
Definition enumerate {A : Type} (l : list A) : list (nat * A) :=
  combine (seq 0 (List.length l)) l.

(** ** AM3, step 1: priority resolution *)

(** One iteration of the loop over an edge's detections.  The state is
    [(winning_detection, current_best_priority_index)] and the log. *)
Definition resolve_step (st : Detection * PyIndex * list Message) (d : Detection)
  : Detection * PyIndex * list Message :=
  let '(winning_detection, current_best_priority_index, out) := st in
  let '(detection_type, metric_value) := d in
  match list_index detection_type PRIORITY_ORDER with
  | Some priority_index =>
      if py_lt (Fin priority_index) current_best_priority_index
      then ((detection_type, metric_value), Fin priority_index, out)
      else (winning_detection, current_best_priority_index, out)
  | None =>
      let out' := out ++ [MsgWarnUnknownType detection_type] in
      if py_lt Inf current_best_priority_index
      then ((detection_type, metric_value), current_best_priority_index, out')
      else (winning_detection, current_best_priority_index, out')
  end.

(** The inner loop, started at [detections[0]] and [float('inf')]. *)
Definition resolve_detections (first : Detection) (detections : list Detection)
  (out : list Message) : Detection * PyIndex * list Message :=
  fold_left resolve_step detections (first, Inf, out).

(** The outer loop: builds [priority_resolved_edges]. *)
Definition resolve_edge (st : list (nat * Detection) * list Message)
  (item : nat * list Detection) : list (nat * Detection) * list Message :=
  let '(priority_resolved_edges, out) := st in
  let '(edge, detections) := item in
  match detections with
  | [] => (priority_resolved_edges, out)
  | first :: _ =>
      let '(winning_detection, _, out') := resolve_detections first detections out in
      (dict_set Nat.eqb priority_resolved_edges edge winning_detection, out')
  end.

Definition priority_resolution (all_candidate_sources : CandidateMap)
  : list (nat * Detection) * list Message :=
  fold_left resolve_edge all_candidate_sources ([], []).

(** The priority index of a detection, [None] when its type is not in
    [PRIORITY_ORDER]. *)
Definition prio (d : Detection) : option nat := list_index (fst d) PRIORITY_ORDER.

(** The resolved tag of a non-empty list of detections. *)
Definition winner (detections : list Detection) : option Detection :=
  match detections with
  | [] => None
  | first :: _ => Some (fst (fst (resolve_detections first detections [])))
  end.

(** ** AM3, step 2: selection (chain formation is a pass-through) *)

Definition EXPLICIT_TYPES : list string :=
  [ TYPE_BLENDER_SEAM; TYPE_UV_SEAM_BOUNDARY; TYPE_BLENDER_SHARP;
    TYPE_BLENDER_CREASE; TYPE_BLENDER_BEVEL ].

Definition GEOMETRIC_TYPES : list string :=
  [ TYPE_ANGLE_SHARP; TYPE_CURVATURE_SHARP ].

(** State: [(final_selected_edges, geometric_candidates_for_chaining)]. *)
Definition select_step (st : edge_set * list (nat * Detection))
  (item : nat * Detection) : edge_set * list (nat * Detection) :=
  let '(final_selected_edges, geometric_candidates_for_chaining) := st in
  let '(edge, (winning_type, metric)) := item in
  if str_in winning_type EXPLICIT_TYPES then
    (edge_add edge final_selected_edges, geometric_candidates_for_chaining)
  else if str_in winning_type GEOMETRIC_TYPES then
    (edge_add edge final_selected_edges,
     dict_set Nat.eqb geometric_candidates_for_chaining edge (winning_type, metric))
  else st.

Definition select_edges (priority_resolved_edges : list (nat * Detection))
  : edge_set * list (nat * Detection) :=
  fold_left select_step priority_resolved_edges ([], []).

(** ** Settings ([EvolverAutoSharpSettings]) *)

Record Settings : Type := mkSettings {
  auto_sharp_primary_angle : Q;
  auto_sharp_use_existing_sharps : bool;
  auto_sharp_use_existing_creases : bool;
  auto_sharp_min_crease_value : Q;
  auto_sharp_use_existing_seams : bool;
  auto_sharp_use_bevel_weights : bool;
  auto_sharp_min_bevel_weight : Q;
  auto_sharp_use_curvature : bool;
  auto_sharp_curvature_sensitivity : Q;
  auto_sharp_preserve_uv_boundaries : bool;
  auto_sharp_min_feature_length : Z
}.

(** [map[edge].append(x)], creating the empty list first when [edge] is new. *)
Definition dict_append (m : CandidateMap) (edge : nat) (x : Detection) : CandidateMap :=
  let old := match dict_get Nat.eqb m edge with Some l => l | None => [] end in
  dict_set Nat.eqb m edge (old ++ [x]).

(** The helper [add_candidates] of the orchestrator, with the map it closes
    over made explicit. *)
Definition add_candidates (all_detected_candidates_map : CandidateMap)
  (edges : edge_set) (det_type : string) (metric : Q) : CandidateMap :=
  fold_left (fun m edge => dict_append m edge (det_type, metric))
            edges all_detected_candidates_map.

(** [candidates_by_type[t].add(edge)]; the key is always one of the four
    literal keys of the dictionary, so no [KeyError] arises. *)
Definition dict_add_edge (d : list (string * edge_set)) (t : string) (edge : nat)
  : list (string * edge_set) :=
  match dict_get String.eqb d t with
  | Some s => dict_set String.eqb d t (edge_add edge s)
  | None => d
  end.

Fixpoint update_nth {A : Type} (n : nat) (f : A -> A) (l : list A) : list A :=
  match n, l with
  | _, [] => []
  | O, x :: l' => f x :: l'
  | S n', x :: l' => x :: update_nth n' f l'
  end.

(** ** The mesh *)

Section Mesh.
(** [mathutils.Vector] and its method [angle], which raises [ValueError]
    when one of the two vectors has zero length. *)
Variable Vector : Type.
Variable angle : Vector -> Vector -> Outcome Q.

Record BMFace : Type := mkFace {
  normal : Vector
}.

(** [bmesh.types.BMEdge], with the attributes the code reads that the type
    has. *)
Record BMEdge : Type := mkEdge {
  verts : nat * nat;
  link_faces : list BMFace;
  smooth : bool;
  seam : bool;
  is_valid : bool
}.

(** The type has no attribute [use_edge_sharp], [crease] or [bevel_weight]
    (the sharpness of a BMEdge is its [smooth] flag; creases and bevel
    weights are kept in custom-data layers of [bm.edges]), and an object of
    a type of the host takes no new attribute: reading one of the three, or
    assigning to it, raises [AttributeError]. *)
Definition use_edge_sharp (edge : BMEdge) : Outcome bool := Raised.

Definition crease (edge : BMEdge) : Outcome Q := Raised.

Definition bevel_weight (edge : BMEdge) : Outcome Q := Raised.

(** [edge.use_edge_sharp = value] *)
Definition set_use_edge_sharp (edge : BMEdge) (value : bool) : Outcome BMEdge :=
  Raised.

(** [tables_ok] tells whether the host calls of AM1
    ([ensure_lookup_table], [normal_update]) go through without raising;
    [uv_active] is [bm.loops.layers.uv.active]. *)
Record BMesh : Type := mkMesh {
  tables_ok : bool;
  edges : list BMEdge;
  uv_active : option nat
}.

(** *** AM1 *)
Definition am1_prepare_bmesh_data (bm : option BMesh) : bool * list Message :=
  match bm with
  | None => (false, [])
  | Some m => if tables_ok m then (true, []) else (false, [MsgAm1Error])
  end.

(** *** AM2a *)
Definition am2a_step (primary_detection_angle_rad : Q)
  (angle_sharp_candidates : edge_set) (item : nat * BMEdge)
  : Outcome edge_set :=
  let '(i, edge) := item in
  match link_faces edge with
  | [face1; face2] =>
      a <- angle (normal face1) (normal face2) ;;
      Returned (if Qgt_bool a primary_detection_angle_rad
                then edge_add i angle_sharp_candidates
                else angle_sharp_candidates)
  | _ => Returned angle_sharp_candidates
  end.

Definition am2a_dihedral_angle_analysis (bm : option BMesh)
  (primary_detection_angle_rad : Q) : Outcome edge_set :=
  match bm with
  | None => Returned []
  | Some m =>
      match edges m with
      | [] => Returned []
      | _ => for_each (am2a_step primary_detection_angle_rad)
                      (enumerate (edges m)) []
      end
  end.

(** *** AM2b *)

(** One iteration of the loop.  In [edge.smooth is False or
    edge.use_edge_sharp is True] the second attribute is read only when the
    edge is smooth. *)
Definition am2b_step (use_sharps use_creases : bool) (min_crease_val : Q)
  (use_seams use_bevels : bool) (min_bevel_val : Q)
  (candidates_by_type : list (string * edge_set)) (item : nat * BMEdge)
  : Outcome (list (string * edge_set)) :=
  let '(i, edge) := item in
  is_sharp <- (if use_sharps
               then if negb (smooth edge) then Returned true
                    else use_edge_sharp edge
               else Returned false) ;;
  let d1 := if is_sharp
            then dict_add_edge candidates_by_type TYPE_BLENDER_SHARP i
            else candidates_by_type in
  is_creased <- (if use_creases
                 then c <- crease edge ;; Returned (Qgt_bool c min_crease_val)
                 else Returned false) ;;
  let d2 := if is_creased
            then dict_add_edge d1 TYPE_BLENDER_CREASE i else d1 in
  let d3 := if use_seams && seam edge
            then dict_add_edge d2 TYPE_BLENDER_SEAM i else d2 in
  is_bevelled <- (if use_bevels
                  then w <- bevel_weight edge ;;
                       Returned (Qgt_bool w min_bevel_val)
                  else Returned false) ;;
  Returned (if is_bevelled
            then dict_add_edge d3 TYPE_BLENDER_BEVEL i else d3).

Definition am2b_empty : list (string * edge_set) :=
  [ (TYPE_BLENDER_SHARP, []); (TYPE_BLENDER_CREASE, []);
    (TYPE_BLENDER_SEAM, []); (TYPE_BLENDER_BEVEL, []) ].

Definition am2b_existing_blender_data_scan (bm : option BMesh)
  (use_sharps use_creases : bool) (min_crease_val : Q)
  (use_seams use_bevels : bool) (min_bevel_val : Q)
  : Outcome (list (string * edge_set)) :=
  match bm with
  | None => Returned am2b_empty
  | Some m =>
      match edges m with
      | [] => Returned am2b_empty
      | _ => for_each (am2b_step use_sharps use_creases min_crease_val
                                 use_seams use_bevels min_bevel_val)
                      (enumerate (edges m)) am2b_empty
      end
  end.

(** *** AM2c (placeholder in the source: no edge is ever added) *)
Definition am2c_curvature_based_analysis (bm : option BMesh)
  (curvature_sensitivity : Q) : edge_set * list Message :=
  match bm with
  | None => ([], [])
  | Some m =>
      match edges m with
      | [] => ([], [])
      | _ => ([], [MsgAm2cStub curvature_sensitivity])
      end
  end.

(** *** AM2d (placeholder in the source: no edge is ever added) *)
Definition am2d_uv_island_boundary_analysis (bm : option BMesh)
  : edge_set * list Message :=
  match bm with
  | None => ([], [])
  | Some m =>
      match edges m with
      | [] => ([], [])
      | _ =>
          match uv_active m with
          | None => ([], [MsgAm2dNoUV])
          | Some uv_layer => ([], [MsgAm2dStub])
          end
      end
  end.

(** *** AM3 *)
Definition am3_filter_refine_prioritize (bm : option BMesh)
  (all_candidate_sources : CandidateMap) (min_feature_length : Z)
  : edge_set * list Message :=
  match bm, all_candidate_sources with
  | None, _ => ([], [])
  | Some _, [] => ([], [])
  | Some _, _ =>
      let '(priority_resolved_edges, out) :=
        priority_resolution all_candidate_sources in
      let '(final_selected_edges, geometric_candidates_for_chaining) :=
        select_edges priority_resolved_edges in
      (final_selected_edges, out ++ [MsgAm3Stub])
  end.

(** *** AM4 *)
Definition with_edges (m : BMesh) (es : list BMEdge) : BMesh :=
  {| tables_ok := tables_ok m; edges := es; uv_active := uv_active m |}.

(** The loop over the references still to visit; the state is the mesh,
    [marked_count] and the log.  A reference that does not denote an edge
    of the mesh fails the [isinstance] test. *)
Fixpoint am4_loop (selected_sharp_edges : list nat) (m : BMesh)
  (marked_count : nat) (out : list Message)
  : Outcome nat * BMesh * list Message :=
  match selected_sharp_edges with
  | [] => (Returned marked_count, m, out)
  | edge :: rest =>
      match nth_error (edges m) edge with
      | Some x =>
          if is_valid x then
            match set_use_edge_sharp x true with
            | Returned x' =>
                am4_loop rest
                  (with_edges m (update_nth edge (fun _ => x') (edges m)))
                  (S marked_count) out
            | Raised => (Raised, m, out)
            end
          else am4_loop rest m marked_count (out ++ [MsgWarnInvalidEdge edge])
      | None => am4_loop rest m marked_count (out ++ [MsgWarnInvalidEdge edge])
      end
  end.

(** How the call ends (with the count when it returns), the mesh after the
    call and the log. *)
Definition am4_apply_sharps_to_bmesh (bm : option BMesh)
  (selected_sharp_edges : edge_set) (auto_sharp_settings : option Settings)
  : Outcome nat * option BMesh * list Message :=
  match bm, selected_sharp_edges with
  | None, _ => (Returned 0, bm, [])
  | Some _, [] => (Returned 0, bm, [])
  | Some m, _ =>
      let '(marked_count, m', out) := am4_loop selected_sharp_edges m 0 [] in
      (marked_count, Some m', out)
  end.

(** *** The orchestrator *)

(** The loop over [existing_data_map.items()]: every set is aggregated
    with the default metric. *)
Definition add_existing_data (existing_data_map : list (string * edge_set))
  (st : CandidateMap * list Message) : CandidateMap * list Message :=
  fold_left (fun '(m, out) '(det_type, es) =>
               (add_candidates m es det_type 1%Q,
                out ++ [MsgFoundExisting det_type (List.length es)]))
            existing_data_map st.

(** The AM2 block: every enabled detector's output is aggregated into
    [all_detected_candidates_map]; an exception of AM2a or AM2b ends it. *)
Definition collect_candidates (bm : option BMesh) (settings : Settings)
  : Outcome CandidateMap * list Message :=
  match am2a_dihedral_angle_analysis bm (auto_sharp_primary_angle settings) with
  | Raised => (Raised, [])
  | Returned angle_sharps =>
      let map1 := add_candidates [] angle_sharps TYPE_ANGLE_SHARP
                                 (auto_sharp_primary_angle settings) in
      let out1 := [MsgFoundAngle (List.length angle_sharps)] in
      match am2b_existing_blender_data_scan bm
              (auto_sharp_use_existing_sharps settings)
              (auto_sharp_use_existing_creases settings)
              (auto_sharp_min_crease_value settings)
              (auto_sharp_use_existing_seams settings)
              (auto_sharp_use_bevel_weights settings)
              (auto_sharp_min_bevel_weight settings) with
      | Raised => (Raised, out1)
      | Returned existing_data_map =>
          let '(map2, out2) :=
            add_existing_data existing_data_map (map1, out1) in
          let '(map3, out3) :=
            if auto_sharp_use_curvature settings then
              let '(curvature_sharps, o) :=
                am2c_curvature_based_analysis bm
                  (auto_sharp_curvature_sensitivity settings) in
              (add_candidates map2 curvature_sharps TYPE_CURVATURE_SHARP
                              (auto_sharp_curvature_sensitivity settings),
               out2 ++ o ++ [MsgFoundCurvature (List.length curvature_sharps)])
            else (map2, out2) in
          if auto_sharp_preserve_uv_boundaries settings then
            let '(uv_boundaries, o) := am2d_uv_island_boundary_analysis bm in
            (Returned (add_candidates map3 uv_boundaries TYPE_UV_SEAM_BOUNDARY 1%Q),
             out3 ++ o ++ [MsgFoundUV (List.length uv_boundaries)])
          else (Returned map3, out3)
      end
  end.

Definition auto_detect_and_mark_edges (bm : option BMesh)
  (settings : option Settings) : Outcome edge_set * list Message :=
  match bm, settings with
  | Some _, Some s =>
      let '(ok, o1) := am1_prepare_bmesh_data bm in
      if negb ok then (Returned [], [MsgStart] ++ o1 ++ [MsgAm1Failed])
      else
        match collect_candidates bm s with
        | (Raised, o2) => (Raised, [MsgStart] ++ o1 ++ o2)
        | (Returned all_detected_candidates_map, o2) =>
            match all_detected_candidates_map with
            | [] => (Returned [], [MsgStart] ++ o1 ++ o2 ++ [MsgNoCandidates])
            | _ =>
                let o3 :=
                  [MsgTotalUnique (List.length all_detected_candidates_map)] in
                let '(final_edges_to_mark, o4) :=
                  am3_filter_refine_prioritize bm all_detected_candidates_map
                    (auto_sharp_min_feature_length s) in
                let o5 := [MsgAm3Selected (List.length final_edges_to_mark)] in
                match final_edges_to_mark with
                | [] => (Returned [],
                         [MsgStart] ++ o1 ++ o2 ++ o3 ++ o4 ++ o5
                         ++ [MsgNoneSelected])
                | _ => (Returned final_edges_to_mark,
                        [MsgStart] ++ o1 ++ o2 ++ o3 ++ o4 ++ o5)
                end
            end
        end
  | _, _ => (Returned [], [])
  end.
End Mesh.

Arguments mkFace {Vector}.
Arguments normal {Vector}.
Arguments mkEdge {Vector}.
Arguments verts {Vector}.
Arguments link_faces {Vector}.
Arguments smooth {Vector}.
Arguments seam {Vector}.
Arguments is_valid {Vector}.
Arguments use_edge_sharp {Vector}.
Arguments crease {Vector}.
Arguments bevel_weight {Vector}.
Arguments set_use_edge_sharp {Vector}.
Arguments mkMesh {Vector}.
Arguments tables_ok {Vector}.
Arguments edges {Vector}.
Arguments uv_active {Vector}.
Arguments am1_prepare_bmesh_data {Vector}.
Arguments am2a_step {Vector}.
Arguments am2a_dihedral_angle_analysis {Vector}.
Arguments am2b_step {Vector}.
Arguments am2b_existing_blender_data_scan {Vector}.
Arguments am2c_curvature_based_analysis {Vector}.
Arguments am2d_uv_island_boundary_analysis {Vector}.
Arguments am3_filter_refine_prioritize {Vector}.
Arguments with_edges {Vector}.
Arguments am4_loop {Vector}.
Arguments am4_apply_sharps_to_bmesh {Vector}.
Arguments collect_candidates {Vector}.
Arguments auto_detect_and_mark_edges {Vector}.

(** ** Chains and junctions

    The notions of the chain filter: two edges are connected when they share
    a vertex and resolved to the same geometric type; a chain is a maximal
    connected set of such edges; a junction is a vertex incident to three or
    more resolved sharp edges. *)

Section Features.
Variable Vector : Type.

Definition edge_verts (m : BMesh Vector) (e : nat) : option (nat * nat) :=
  option_map verts (nth_error (edges m) e).

Definition incident (m : BMesh Vector) (e v : nat) : bool :=
  match edge_verts m e with
  | Some (a, b) => (a =? v) || (b =? v)
  | None => false
  end.

Definition share_vertex (m : BMesh Vector) (e1 e2 : nat) : bool :=
  match edge_verts m e1 with
  | Some (a, b) => incident m e2 a || incident m e2 b
  | None => false
  end.

Definition resolved_type (resolved : list (nat * Detection)) (e : nat)
  : option string :=
  option_map fst (dict_get Nat.eqb resolved e).

(** Number of resolved sharp edges incident to vertex [v]. *)
Definition sharp_degree (m : BMesh Vector) (resolved : list (nat * Detection))
  (v : nat) : nat :=
  List.length (filter (fun item => incident m (fst item) v) resolved).

Definition junction_vertex (m : BMesh Vector)
  (resolved : list (nat * Detection)) (v : nat) : bool :=
  3 <=? sharp_degree m resolved v.

Definition at_junction (m : BMesh Vector) (resolved : list (nat * Detection))
  (e : nat) : bool :=
  match edge_verts m e with
  | Some (a, b) => junction_vertex m resolved a || junction_vertex m resolved b
  | None => false
  end.

(** One round of growth: add every edge resolved to type [t] that shares a
    vertex with an edge already in the chain. *)
Definition chain_grow (m : BMesh Vector) (resolved : list (nat * Detection))
  (t : string) (chain : edge_set) : edge_set :=
  fold_left (fun c item =>
               if String.eqb (fst (snd item)) t
                  && existsb (share_vertex m (fst item)) c
               then edge_add (fst item) c else c)
            resolved chain.

Fixpoint chain_iter (rounds : nat) (m : BMesh Vector)
  (resolved : list (nat * Detection)) (t : string) (chain : edge_set)
  : edge_set :=
  match rounds with
  | O => chain
  | S r => chain_iter r m resolved t (chain_grow m resolved t chain)
  end.

(** The chain of [e]: empty unless [e] resolved to a geometric type. *)
Definition chain_of (m : BMesh Vector) (resolved : list (nat * Detection))
  (e : nat) : edge_set :=
  match resolved_type resolved e with
  | Some t =>
      if str_in t GEOMETRIC_TYPES
      then chain_iter (List.length resolved) m resolved t [e]
      else []
  | None => []
  end.

Definition chain_length (m : BMesh Vector) (resolved : list (nat * Detection))
  (e : nat) : nat :=
  List.length (chain_of m resolved e).
End Features.

Arguments edge_verts {Vector}.
Arguments incident {Vector}.
Arguments share_vertex {Vector}.
Arguments sharp_degree {Vector}.
Arguments junction_vertex {Vector}.
Arguments at_junction {Vector}.
Arguments chain_grow {Vector}.
Arguments chain_iter {Vector}.
Arguments chain_of {Vector}.
Arguments chain_length {Vector}.

(** ** Notions used to describe the detectors and the applicator *)

Section Footprints.
Variable Vector : Type.
Variable angle : Vector -> Vector -> Outcome Q.

(** The edge has exactly two incident faces, and the angle between their
    normals is defined and strictly greater than the threshold. *)
Definition sharp_dihedral (threshold : Q) (edge : BMEdge Vector) : Prop :=
  exists face1 face2 a,
    link_faces edge = [face1; face2] /\
    angle (normal face1) (normal face2) = Returned a /\
    (threshold < a)%Q.

(** The edge has exactly two incident faces and the angle between their
    normals is not defined (one of the normals has zero length). *)
Definition degenerate_dihedral (edge : BMEdge Vector) : Prop :=
  exists face1 face2,
    link_faces edge = [face1; face2] /\
    angle (normal face1) (normal face2) = Raised.

(** The normals of the mesh are valid for the dihedral-angle detector: no
    edge between two faces has an undefined angle. *)
Definition valid_normals (m : BMesh Vector) : Prop :=
  forall edge, In edge (edges m) -> ~ degenerate_dihedral edge.

(** The reference denotes an edge of the mesh that is still valid. *)
Definition valid_ref (m : BMesh Vector) (e : nat) : bool :=
  match nth_error (edges m) e with
  | Some x => is_valid x
  | None => false
  end.

(** The references the applicator visits before the first one that denotes
    a valid edge: all of them when there is none. *)
Fixpoint invalid_prefix (m : BMesh Vector) (selected : list nat) : list nat :=
  match selected with
  | [] => []
  | e :: rest => if valid_ref m e then [] else e :: invalid_prefix m rest
  end.

(** The detectors' outputs in the order the orchestrator aggregates them:
    each batch is a set of edges and the detection recorded for them.
    There are none when AM2a or AM2b raises. *)
Definition detector_batches (bm : option (BMesh Vector)) (settings : Settings)
  : Outcome (list (list nat * (string * Q))) :=
  angle_sharps <-
    am2a_dihedral_angle_analysis angle bm (auto_sharp_primary_angle settings) ;;
  existing_data_map <-
    am2b_existing_blender_data_scan bm
      (auto_sharp_use_existing_sharps settings)
      (auto_sharp_use_existing_creases settings)
      (auto_sharp_min_crease_value settings)
      (auto_sharp_use_existing_seams settings)
      (auto_sharp_use_bevel_weights settings)
      (auto_sharp_min_bevel_weight settings) ;;
  Returned
    ([ (angle_sharps, (TYPE_ANGLE_SHARP, auto_sharp_primary_angle settings)) ]
     ++ map (fun kv => (snd kv, (fst kv, 1%Q))) existing_data_map
     ++ (if auto_sharp_use_curvature settings
         then [ (fst (am2c_curvature_based_analysis bm
                        (auto_sharp_curvature_sensitivity settings)),
                 (TYPE_CURVATURE_SHARP,
                  auto_sharp_curvature_sensitivity settings)) ]
         else [])
     ++ (if auto_sharp_preserve_uv_boundaries settings
         then [ (fst (am2d_uv_island_boundary_analysis bm),
                 (TYPE_UV_SEAM_BOUNDARY, 1%Q)) ]
         else [])).

(** The tag the pass resolves for an edge; there is none when the AM2 block
    raises, since AM3 is not reached. *)
Definition resolved_tag (bm : option (BMesh Vector)) (s : Settings) (e : nat)
  : option Detection :=
  match fst (collect_candidates angle bm s) with
  | Returned all_detected_candidates_map =>
      dict_get Nat.eqb
        (fst (priority_resolution all_detected_candidates_map)) e
  | Raised => None
  end.
End Footprints.

Arguments sharp_dihedral {Vector}.
Arguments degenerate_dihedral {Vector}.
Arguments valid_normals {Vector}.
Arguments valid_ref {Vector}.
Arguments invalid_prefix {Vector}.
Arguments detector_batches {Vector}.
Arguments resolved_tag {Vector}.

(** No key of the map is bound to the empty list. *)
Definition no_empty_entry (m : CandidateMap) : Prop :=
  forall e, dict_get Nat.eqb m e <> Some [].

(** The settings with the UV-boundary detector switched off. *)
Definition without_uv (s : Settings) : Settings :=
  {| auto_sharp_primary_angle := auto_sharp_primary_angle s;
     auto_sharp_use_existing_sharps := auto_sharp_use_existing_sharps s;
     auto_sharp_use_existing_creases := auto_sharp_use_existing_creases s;
     auto_sharp_min_crease_value := auto_sharp_min_crease_value s;
     auto_sharp_use_existing_seams := auto_sharp_use_existing_seams s;
     auto_sharp_use_bevel_weights := auto_sharp_use_bevel_weights s;
     auto_sharp_min_bevel_weight := auto_sharp_min_bevel_weight s;
     auto_sharp_use_curvature := auto_sharp_use_curvature s;
     auto_sharp_curvature_sensitivity := auto_sharp_curvature_sensitivity s;
     auto_sharp_preserve_uv_boundaries := false;
     auto_sharp_min_feature_length := auto_sharp_min_feature_length s |}.

(** A resolved type that the selection step of AM3 lets through. *)
Definition selectable (t : string) : bool :=
  str_in t EXPLICIT_TYPES || str_in t GEOMETRIC_TYPES.

(** The candidate list of an edge, empty when the edge is not a key. *)
Definition candidates_of (m : CandidateMap) (e : nat) : list Detection :=
  match dict_get Nat.eqb m e with
  | Some l => l
  | None => []
  end.

(** Aggregation of a sequence of detector outputs with [add_candidates]. *)
Definition aggregate (batches : list (list nat * (string * Q)))
  (m0 : CandidateMap) : CandidateMap :=
  fold_left (fun m b => add_candidates m (fst b) (fst (snd b)) (snd (snd b)))
            batches m0.

(** Some batch records detection [d] for edge [e]. *)
Definition detects (batches : list (list nat * (string * Q))) (e : nat)
  (d : Detection) : Prop :=
  exists es, In (es, d) batches /\ In e es.

(** ** Worked inputs

    Face normals of the example meshes lie in a plane: a normal is given by
    its heading in radians, and [None] is the zero vector, the normal of a
    face without area. The angle between two headings is the absolute value
    of their difference; with a zero vector there is no angle. *)

Definition heading_angle (a b : option Q) : Outcome Q :=
  match a, b with
  | Some x, Some y => Returned (Qabs (x - y))
  | _, _ => Raised
  end.

(** The defaults of [EvolverAutoSharpSettings] ([properties.py]), with the
    default angle of 30 degrees rounded to 1/2 radian. *)
Definition default_settings : Settings :=
  {| auto_sharp_primary_angle := 1 # 2;
     auto_sharp_use_existing_sharps := true;
     auto_sharp_use_existing_creases := true;
     auto_sharp_min_crease_value := 1 # 10;
     auto_sharp_use_existing_seams := true;
     auto_sharp_use_bevel_weights := false;
     auto_sharp_min_bevel_weight := 1 # 10;
     auto_sharp_use_curvature := true;
     auto_sharp_curvature_sensitivity := 1 # 2;
     auto_sharp_preserve_uv_boundaries := true;
     auto_sharp_min_feature_length := 3 |}.

(** The defaults with the authored sharps and creases switched off: of the
    authored data only the seams are read. *)
Definition seams_only_settings : Settings :=
  {| auto_sharp_primary_angle := 1 # 2;
     auto_sharp_use_existing_sharps := false;
     auto_sharp_use_existing_creases := false;
     auto_sharp_min_crease_value := 1 # 10;
     auto_sharp_use_existing_seams := true;
     auto_sharp_use_bevel_weights := false;
     auto_sharp_min_bevel_weight := 1 # 10;
     auto_sharp_use_curvature := true;
     auto_sharp_curvature_sensitivity := 1 # 2;
     auto_sharp_preserve_uv_boundaries := true;
     auto_sharp_min_feature_length := 3 |}.

(** A smooth edge that is no seam, with the given end points and faces. *)
Definition plain_edge (vs : nat * nat) (faces : list (BMFace (option Q)))
  : BMEdge (option Q) :=
  {| verts := vs; link_faces := faces; smooth := true; seam := false;
     is_valid := true |}.

(** An interior edge whose two faces meet at 1 radian. *)
Definition bent_edge (vs : nat * nat) : BMEdge (option Q) :=
  plain_edge vs [mkFace (Some 0%Q); mkFace (Some 1%Q)].

(** One edge detected both as ANGLE_SHARP and as BLENDER_SEAM, the angle
    detection listed first. *)
Definition seam_and_angle_sources : CandidateMap :=
  [ (0, [ (TYPE_ANGLE_SHARP, 1 # 2); (TYPE_BLENDER_SEAM, 1%Q) ]) ].

(** Two interior edges sharing vertex 1, both bent by 1 radian: an isolated
    chain of two geometry-detected edges. *)
Definition two_edge_strip : BMesh (option Q) :=
  {| tables_ok := true;
     edges := [ bent_edge (0, 1); bent_edge (1, 2) ];
     uv_active := None |}.

(** What the dihedral-angle detector records on the two-edge strip at
    threshold 1/2. *)
Definition two_edge_strip_sources : CandidateMap :=
  [ (0, [ (TYPE_ANGLE_SHARP, 1 # 2) ]);
    (1, [ (TYPE_ANGLE_SHARP, 1 # 2) ]) ].

(** The same with a third edge: a chain of three. *)
Definition three_edge_strip : BMesh (option Q) :=
  {| tables_ok := true;
     edges := [ bent_edge (0, 1); bent_edge (1, 2); bent_edge (2, 3) ];
     uv_active := None |}.

(** An edge marked as a seam by the author, with no incident face. *)
Definition seam_edge (vs : nat * nat) : BMEdge (option Q) :=
  {| verts := vs; link_faces := []; smooth := true; seam := true;
     is_valid := true |}.

(** Vertex 0 carries one bent edge and three authored seams. *)
Definition junction_star : BMesh (option Q) :=
  {| tables_ok := true;
     edges := [ bent_edge (0, 1); seam_edge (0, 2); seam_edge (0, 3);
                seam_edge (0, 4) ];
     uv_active := None |}.

Definition junction_star_sources : CandidateMap :=
  [ (0, [ (TYPE_ANGLE_SHARP, 1 # 2) ]);
    (1, [ (TYPE_BLENDER_SEAM, 1%Q) ]);
    (2, [ (TYPE_BLENDER_SEAM, 1%Q) ]);
    (3, [ (TYPE_BLENDER_SEAM, 1%Q) ]) ].

(** The outputs of the detectors on the junction star, in the order of the
    orchestrator, when only the seams are read of the authored data. *)
Definition junction_star_outputs : list (list nat * (string * Q)) :=
  [ ([0], (TYPE_ANGLE_SHARP, 1 # 2));
    ([], (TYPE_BLENDER_SHARP, 1%Q));
    ([], (TYPE_BLENDER_CREASE, 1%Q));
    ([1; 2; 3], (TYPE_BLENDER_SEAM, 1%Q));
    ([], (TYPE_BLENDER_BEVEL, 1%Q));
    ([], (TYPE_CURVATURE_SHARP, 1 # 2));
    ([], (TYPE_UV_SEAM_BOUNDARY, 1%Q)) ].

(** An edge whose only candidate has a type outside [PRIORITY_ORDER]. *)
Definition unknown_type_sources : CandidateMap :=
  [ (0, [ (TYPE_NONE, 1%Q) ]) ].

(** An edge with a candidate of an unrecognised type, listed first, and one
    of a recognised type. *)
Definition mixed_type_sources : CandidateMap :=
  [ (0, [ (TYPE_NONE, 1%Q); (TYPE_ANGLE_SHARP, 1 # 2) ]) ].

(** An edge bent by 1 radian next to an edge one of whose two faces has no
    area, hence a normal of zero length. *)
Definition degenerate_face_mesh : BMesh (option Q) :=
  {| tables_ok := true;
     edges := [ bent_edge (0, 1);
                plain_edge (1, 2) [mkFace (Some 0%Q); mkFace None] ];
     uv_active := None |}.

(** A mesh with a UV layer whose only edge lies on the mesh boundary (one
    incident face). *)
Definition uv_boundary_mesh : BMesh (option Q) :=
  {| tables_ok := true;
     edges := [ plain_edge (0, 1) [mkFace (Some 0%Q)] ];
     uv_active := Some 0 |}.

(** ** Notions used to describe the authored-data scan and the whole pass *)

Section Sources.
Variable Vector : Type.
Variable angle : Vector -> Vector -> Outcome Q.

(** The tests of AM2b that can be evaluated on a BMEdge. *)
Definition sharp_test (use_sharps : bool) (x : BMEdge Vector) : bool :=
  use_sharps && negb (smooth x).

Definition seam_test (use_seams : bool) (x : BMEdge Vector) : bool :=
  use_seams && seam x.

(** AM2b reads an attribute that the edge does not have: [use_edge_sharp]
    of a smooth edge when the sharps are scanned, [crease] when the creases
    are, [bevel_weight] when the bevel weights are. *)
Definition reads_missing_attribute (use_sharps use_creases use_bevels : bool)
  (x : BMEdge Vector) : bool :=
  (use_sharps && smooth x) || use_creases || use_bevels.

(** The positions of the enumerated edges that pass a test, added to a set. *)
Definition collect_if (test : BMEdge Vector -> bool)
  (items : list (nat * BMEdge Vector)) (acc : edge_set) : edge_set :=
  fold_left (fun s item => if test (snd item) then edge_add (fst item) s else s)
            items acc.

(** Some detector that can emit edges flags the edge under the settings. *)
Definition flagged (settings : Settings) (x : BMEdge Vector) : Prop :=
  sharp_dihedral angle (auto_sharp_primary_angle settings) x \/
  sharp_test (auto_sharp_use_existing_sharps settings) x = true \/
  seam_test (auto_sharp_use_existing_seams settings) x = true.
End Sources.

Arguments sharp_test {Vector}.
Arguments seam_test {Vector}.
Arguments reads_missing_attribute {Vector}.
Arguments collect_if {Vector}.
Arguments flagged {Vector}.

(** The types of the candidates of a list that are not in [PRIORITY_ORDER],
    in list order. *)
Definition unknown_types (detections : list Detection) : list string :=
  map fst (filter (fun d => match prio d with None => true | Some _ => false end)
                  detections).

(** Two settings agree on the options read by the dihedral-angle and the
    authored-data detectors. *)
Definition same_emitting_options (s s' : Settings) : Prop :=
  auto_sharp_primary_angle s = auto_sharp_primary_angle s' /\
  auto_sharp_use_existing_sharps s = auto_sharp_use_existing_sharps s' /\
  auto_sharp_use_existing_creases s = auto_sharp_use_existing_creases s' /\
  auto_sharp_min_crease_value s = auto_sharp_min_crease_value s' /\
  auto_sharp_use_existing_seams s = auto_sharp_use_existing_seams s' /\
  auto_sharp_use_bevel_weights s = auto_sharp_use_bevel_weights s' /\
  auto_sharp_min_bevel_weight s = auto_sharp_min_bevel_weight s'.

(** The test that decides membership in the set AM2b returns for the key
    [t]: no edge is ever added to the crease and bevel sets of a scan that
    returns. *)
Definition am2b_test {Vector : Type} (use_sharps use_seams : bool)
  (t : string) (x : BMEdge Vector) : bool :=
  if String.eqb t TYPE_BLENDER_SHARP then sharp_test use_sharps x
  else if String.eqb t TYPE_BLENDER_SEAM then seam_test use_seams x
  else false.

(** The set stored under key [t], empty when the key is missing. *)
Definition entry_of (d : list (string * edge_set)) (t : string) : edge_set :=
  match dict_get String.eqb d t with
  | Some s => s
  | None => []
  end.

(** Settings that switch the curvature and UV-boundary detectors off and ask
    for long chains; the other options are those of [seams_only_settings]. *)
Definition quiet_settings : Settings :=
  {| auto_sharp_primary_angle := 1 # 2;
     auto_sharp_use_existing_sharps := false;
     auto_sharp_use_existing_creases := false;
     auto_sharp_min_crease_value := 1 # 10;
     auto_sharp_use_existing_seams := true;
     auto_sharp_use_bevel_weights := false;
     auto_sharp_min_bevel_weight := 1 # 10;
     auto_sharp_use_curvature := false;
     auto_sharp_curvature_sensitivity := 9 # 10;
     auto_sharp_preserve_uv_boundaries := false;
     auto_sharp_min_feature_length := 7 |}.

(** ** The remeshing placeholder ([core_remesh_logic.py])

    [perform_remeshing] keeps one face in every [decimation_factor] faces and
    renumbers the vertices it meets. Its [context] and [original_object]
    arguments are never read and are left out. *)

Record RemesherSettings : Type := mkRemesherSettings {
  target_mode : string;
  polycount_is_percentage : bool;
  polycount_absolute : Z;
  polycount_percentage : Q
}.

Inductive RemeshMessage : Type :=
| RmStubCalled
| RmTargetMode (mode : string)
| RmPolycountPercentage (percentage : Q)
| RmAbsolutePolycount (n : Z)
| RmNoGeometry
| RmGenerated (n : nat)
| RmNotBMesh.

Section Remesh.
(** Vertex coordinates, and [int(num_original_faces * polycount_percentage)]
    as the host's float arithmetic computes it. *)
Variable Coord : Type.
Variable scaled_count : nat -> Q -> Z.

Record BMVert : Type := mkVert {
  v_index : nat;
  co : Coord
}.

(** The first argument: a BMesh, given by the vertex loops of its faces, or
    anything else. *)
Inductive MeshData : Type :=
| IsBMesh (faces : list (list BMVert))
| NotBMesh.

Definition decimation_factor (settings : RemesherSettings)
  (num_original_faces : nat) : nat :=
  if String.eqb (target_mode settings) "POLYCOUNT"
     && polycount_is_percentage settings
  then
    let target_faces :=
      scaled_count num_original_faces (polycount_percentage settings) in
    if (0 <? target_faces)%Z && (0 <? num_original_faces)
    then Z.to_nat (Z.max 1 (Z.of_nat num_original_faces / target_faces))
    else num_original_faces + 1
  else 5.

(** State of the loops: [(output_verts_dict, new_verts_list,
    vert_idx_counter)], then the list under construction. *)
Definition visit_vert
  (st : list (nat * nat) * list Coord * nat * list nat) (vert : BMVert)
  : list (nat * nat) * list Coord * nat * list nat :=
  let '(output_verts_dict, new_verts_list, vert_idx_counter, face_vert_indices) := st in
  let '(d, vs, c) :=
    match dict_get Nat.eqb output_verts_dict (v_index vert) with
    | None =>
        (dict_set Nat.eqb output_verts_dict (v_index vert) vert_idx_counter,
         new_verts_list ++ [co vert],
         S vert_idx_counter)
    | Some _ => (output_verts_dict, new_verts_list, vert_idx_counter)
    end in
  match dict_get Nat.eqb d (v_index vert) with
  | Some j => (d, vs, c, face_vert_indices ++ [j])
  | None => (d, vs, c, face_vert_indices)
  end.

Definition visit_face (factor : nat)
  (st : list (nat * nat) * list Coord * nat * list (list nat))
  (item : nat * list BMVert)
  : list (nat * nat) * list Coord * nat * list (list nat) :=
  let '(d, vs, c, new_faces_list) := st in
  let '(i, face) := item in
  if i mod factor =? 0 then
    let '(d', vs', c', face_vert_indices) :=
      fold_left visit_vert face (d, vs, c, []) in
    (d', vs', c', new_faces_list ++ [face_vert_indices])
  else st.

Definition decimate (factor : nat) (faces : list (list BMVert))
  : list (nat * nat) * list Coord * nat * list (list nat) :=
  fold_left (visit_face factor) (enumerate faces) ([], [], 0, []).

Definition perform_remeshing (input_bmesh_or_mesh_data : MeshData)
  (settings : RemesherSettings)
  : option (list Coord * list (list nat)) * list RemeshMessage :=
  let out :=
    [RmStubCalled; RmTargetMode (target_mode settings)]
    ++ (if String.eqb (target_mode settings) "POLYCOUNT"
        then if polycount_is_percentage settings
             then [RmPolycountPercentage (polycount_percentage settings)]
             else [RmAbsolutePolycount (polycount_absolute settings)]
        else []) in
  match input_bmesh_or_mesh_data with
  | IsBMesh faces =>
      let '(_, new_verts_list, _, new_faces_list) :=
        decimate (decimation_factor settings (List.length faces)) faces in
      match new_verts_list, new_faces_list with
      | [], _ => (None, out ++ [RmNoGeometry])
      | _, [] => (None, out ++ [RmNoGeometry])
      | _, _ =>
          (Some (new_verts_list, new_faces_list),
           out ++ [RmGenerated (List.length new_faces_list)])
      end
  | NotBMesh => (None, out ++ [RmNotBMesh])
  end.

(** The faces whose position is a multiple of the factor. *)
Definition kept_faces (factor : nat) (faces : list (list BMVert))
  : list (list BMVert) :=
  map snd (filter (fun item => fst item mod factor =? 0) (enumerate faces)).

(** The final vertex renumbering: original index to new index. *)
Definition renumbering (factor : nat) (faces : list (list BMVert)) (k : nat)
  : option nat :=
  dict_get Nat.eqb (fst (fst (fst (decimate factor faces)))) k.

(** Invariant of the renumbering state. *)
Definition renum_wf (st : list (nat * nat) * list Coord * nat) : Prop :=
  let '(d, vs, c) := st in
  c = List.length vs /\ map snd d = seq 0 c /\ NoDup (map fst d).
End Remesh.

Arguments mkVert {Coord}.
Arguments v_index {Coord}.
Arguments co {Coord}.
Arguments IsBMesh {Coord}.
Arguments NotBMesh {Coord}.
Arguments visit_vert {Coord}.
Arguments visit_face {Coord}.
Arguments decimate {Coord}.
Arguments perform_remeshing {Coord}.
Arguments kept_faces {Coord}.
Arguments renumbering {Coord}.
Arguments renum_wf {Coord}.

(** The renumbering state accounts for the vertices [seen] so far: its keys
    are their indices, and each key is bound to the position, in the new
    vertex list, of the coordinates of a seen vertex with that index. *)
Definition renum_inv {Coord : Type} (seen : list (BMVert Coord))
  (st : list (nat * nat) * list Coord * nat) : Prop :=
  renum_wf st /\
  (forall k, dict_get Nat.eqb (fst (fst st)) k <> None <->
             exists v, In v seen /\ v_index v = k) /\
  (forall k j, dict_get Nat.eqb (fst (fst st)) k = Some j ->
               exists v, In v seen /\ v_index v = k /\
                         nth_error (snd (fst st)) j = Some (co v)).

(** A strip of six quads over the vertices 0..13, vertex [i] at abscissa
    [i]. *)
Definition strip_vert (i : nat) : BMVert Z := mkVert i (Z.of_nat i).

Definition strip_quad (k : nat) : list (BMVert Z) :=
  [ strip_vert (2 * k); strip_vert (2 * k + 1); strip_vert (2 * k + 3);
    strip_vert (2 * k + 2) ].

Definition quad_strip : list (list (BMVert Z)) :=
  map strip_quad (seq 0 6).

Definition edge_length_settings : RemesherSettings :=
  {| target_mode := "EDGE_LENGTH"; polycount_is_percentage := true;
     polycount_absolute := 5000; polycount_percentage := 1 # 2 |}.

(** In the mode of [edge_length_settings] the target count is not
    computed: the worked runs take it as zero. *)
Definition count_not_computed (n : nat) (p : Q) : Z := 0%Z.

(** ** Selected mesh objects ([utils.py]) *)

Record Context : Type := mkContext {
  selected_objects : list nat;
  active_object : option nat
}.

(** [l.remove(x)] for an element known to be in the list: the first
    occurrence goes. *)
Fixpoint list_remove (x : nat) (l : list nat) : list nat :=
  match l with
  | [] => []
  | y :: l' => if x =? y then l' else y :: list_remove x l'
  end.

(** [x in l] *)
Definition list_mem (x : nat) (l : list nat) : bool := existsb (Nat.eqb x) l.

Section Objects.
(** Objects are references; [obj_type] is the [type] attribute of the
    object a reference denotes. *)
Variable obj_type : nat -> string.

Definition is_mesh (obj : nat) : bool := String.eqb (obj_type obj) "MESH".

Definition get_selected_mesh_objects (context : Context) : list nat :=
  let selected := filter is_mesh (selected_objects context) in
  match active_object context with
  | Some active =>
      if is_mesh active && list_mem active selected
      then [active] ++ list_remove active selected
      else selected
  | None => selected
  end.
End Objects.

(** ** Preview draw handlers ([draw_handlers.py])

    The module keeps [_active_draw_handlers], a dictionary from
    [hash(context.area)] to the handle returned by the host. Calls into the
    host and prints are recorded as events. *)

(** [d.pop(key, None)]: the value, and the dictionary without the key. *)
Definition dict_pop {V : Type} (d : list (Z * V)) (key : Z)
  : option V * list (Z * V) :=
  (dict_get Z.eqb d key, filter (fun kv => negb (Z.eqb key (fst kv))) d).

Section DrawHandlers.
(** Handles of the host (always truthy), vertex coordinates, the areas'
    hash, and whether [draw_handler_remove] raises for a handle. *)
Variable Handler : Type.
Variable Coord : Type.
Variable hash : option nat -> Z.
Variable remove_raises : Handler -> bool.

Inductive DrawEvent : Type :=
| EvDrawHandlerRemove (handler : Handler)
| EvDrawHandlerAdd (handler : Handler) (coords : list (Coord * Coord))
| EvTagRedraw (area : nat)
| EvPrintRemoved
| EvPrintNoCoordinates
| EvPrintAdded (n : nat)
| EvPrintRemoveError (handler : Handler)
| EvPrintCleared (count : nat)
| EvRedrawAllViews.

Definition tag_redraw (area : option nat) : list DrawEvent :=
  match area with
  | Some a => [EvTagRedraw a]
  | None => []
  end.

(** [area] is [context.area]. *)
Definition remove_preview_handler (area : option nat)
  (_active_draw_handlers : list (Z * Handler))
  : Outcome bool * list (Z * Handler) * list DrawEvent :=
  let context_key := hash area in
  let '(handler, handlers) := dict_pop _active_draw_handlers context_key in
  match handler with
  | Some h =>
      if remove_raises h
      then (Raised, handlers, [EvDrawHandlerRemove h])
      else (Returned true, handlers,
            [EvDrawHandlerRemove h] ++ tag_redraw area ++ [EvPrintRemoved])
  | None => (Returned false, handlers, [])
  end.

(** The coordinates copied from the valid edges of [edges_bm]; a BMEdge has
    two end points, given by [vert_co]. *)
Definition edge_coordinates {Vector : Type} (bm : BMesh Vector)
  (vert_co : nat -> Coord) (edges_bm : list nat) : list (Coord * Coord) :=
  flat_map (fun edge =>
              match nth_error (edges bm) edge with
              | Some x =>
                  if is_valid x
                  then [(vert_co (fst (verts x)), vert_co (snd (verts x)))]
                  else []
              | None => []
              end) edges_bm.

(** [obj_with_data] tells whether [obj] and [obj.data] are both there;
    [new_handler] is the handle the host returns for the new handler. *)
Definition add_preview_handler {Vector : Type} (area : option nat)
  (obj_with_data : bool) (bm : BMesh Vector) (vert_co : nat -> Coord)
  (edges_bm : list nat) (new_handler : Handler)
  (_active_draw_handlers : list (Z * Handler))
  : Outcome unit * list (Z * Handler) * list DrawEvent :=
  match remove_preview_handler area _active_draw_handlers with
  | (Raised, handlers, out) => (Raised, handlers, out)
  | (Returned _, handlers, out) =>
      if negb obj_with_data then (Returned tt, handlers, out)
      else
        match edges_bm with
        | [] => (Returned tt, handlers, out)
        | _ =>
            match edge_coordinates bm vert_co edges_bm with
            | [] => (Returned tt, handlers, out ++ [EvPrintNoCoordinates])
            | edge_vertex_coords =>
                (Returned tt,
                 dict_set Z.eqb handlers (hash area) new_handler,
                 out ++ [EvDrawHandlerAdd new_handler edge_vertex_coords]
                     ++ tag_redraw area
                     ++ [EvPrintAdded (List.length edge_vertex_coords)])
            end
        end
  end.

(** One iteration of the loop of [clear_all_preview_handlers]; the state is
    the dictionary, [count] and the events. *)
Definition clear_step (st : list (Z * Handler) * nat * list DrawEvent) (key : Z)
  : list (Z * Handler) * nat * list DrawEvent :=
  let '(handlers, count, out) := st in
  let '(handler, handlers') := dict_pop handlers key in
  match handler with
  | Some h =>
      if remove_raises h
      then (handlers', count, out ++ [EvDrawHandlerRemove h; EvPrintRemoveError h])
      else (handlers', S count, out ++ [EvDrawHandlerRemove h])
  | None => (handlers', count, out)
  end.

Definition clear_all_preview_handlers (_active_draw_handlers : list (Z * Handler))
  : list (Z * Handler) * list DrawEvent :=
  let keys_to_remove := map fst _active_draw_handlers in
  let '(handlers, count, out) :=
    fold_left clear_step keys_to_remove (_active_draw_handlers, 0, []) in
  if 0 <? count
  then (handlers, out ++ [EvPrintCleared count; EvRedrawAllViews])
  else (handlers, out).
End DrawHandlers.

Arguments EvDrawHandlerRemove {Handler Coord}.
Arguments EvDrawHandlerAdd {Handler Coord}.
Arguments EvTagRedraw {Handler Coord}.
Arguments EvPrintRemoved {Handler Coord}.
Arguments EvPrintNoCoordinates {Handler Coord}.
Arguments EvPrintAdded {Handler Coord}.
Arguments EvPrintRemoveError {Handler Coord}.
Arguments EvPrintCleared {Handler Coord}.
Arguments EvRedrawAllViews {Handler Coord}.
Arguments tag_redraw {Handler Coord}.
Arguments remove_preview_handler {Handler Coord}.
Arguments edge_coordinates {Coord Vector}.
Arguments add_preview_handler {Handler Coord} hash remove_raises {Vector}.
Arguments clear_step {Handler Coord}.
Arguments clear_all_preview_handlers {Handler Coord}.

(** Two previews, of the areas with hash 11 and 22; the host refuses to
    remove handle 200. *)
Definition two_previews : list (Z * nat) := [ (11%Z, 100); (22%Z, 200) ].

Definition refuses_200 (handler : nat) : bool := handler =? 200.

(** * Properties *)

(** ** Dictionaries *)

Section DictFacts.
Context {K V : Type} (eqb : K -> K -> bool).
Hypothesis eqb_eq : forall a b, eqb a b = true <-> a = b.

Lemma eqb_refl_true (k : K) : eqb k k = true.
Proof. now apply eqb_eq. Qed.

Lemma eqb_neq_false (a b : K) : a <> b -> eqb a b = false.
Proof.
  intro H. destruct (eqb a b) eqn:E; [|reflexivity].
  apply eqb_eq in E. contradiction.
Qed.

Lemma dict_get_set_same (d : list (K * V)) k v :
  dict_get eqb (dict_set eqb d k v) k = Some v.
Proof.
  induction d as [|[k' v'] d IH]; simpl.
  - now rewrite eqb_refl_true.
  - destruct (eqb k k') eqn:E; simpl; rewrite E; auto.
Qed.

Lemma dict_get_set_other (d : list (K * V)) k k' v :
  k' <> k -> dict_get eqb (dict_set eqb d k v) k' = dict_get eqb d k'.
Proof.
  intro Hne. induction d as [|[k0 v0] d IH]; simpl.
  - now rewrite (eqb_neq_false _ _ Hne).
  - destruct (eqb k k0) eqn:E; simpl.
    + apply eqb_eq in E. subst k0. now rewrite (eqb_neq_false _ _ Hne).
    + now rewrite IH.
Qed.

Lemma dict_get_None (d : list (K * V)) k :
  dict_get eqb d k = None <-> ~ In k (map fst d).
Proof.
  induction d as [|[k' v'] d IH]; simpl.
  - tauto.
  - destruct (eqb k k') eqn:E.
    + apply eqb_eq in E. subst. split; [discriminate | intro H; exfalso; auto].
    + rewrite IH. split.
      * intros H [H1 | H1]; [subst; rewrite eqb_refl_true in E; discriminate | auto].
      * intros H H1. apply H. now right.
Qed.

Lemma dict_get_In (d : list (K * V)) k v :
  dict_get eqb d k = Some v -> In (k, v) d.
Proof.
  induction d as [|[k' v'] d IH]; simpl; [discriminate|].
  destruct (eqb k k') eqn:E.
  - apply eqb_eq in E. intros [= ->]. subst. now left.
  - intro H. right. auto.
Qed.

Lemma In_dict_get (d : list (K * V)) k v :
  NoDup (map fst d) -> In (k, v) d -> dict_get eqb d k = Some v.
Proof.
  induction d as [|[k' v'] d IH]; simpl; [tauto|].
  intros Hnd [H | H].
  - injection H as -> ->. now rewrite eqb_refl_true.
  - inversion Hnd as [|? ? Hni Hnd']; subst.
    destruct (eqb k k') eqn:E.
    + apply eqb_eq in E. subst. exfalso. apply Hni.
      change k' with (fst (k', v)). now apply in_map.
    + auto.
Qed.

Lemma dict_set_keys (d : list (K * V)) k v k' :
  In k' (map fst (dict_set eqb d k v)) <-> k' = k \/ In k' (map fst d).
Proof.
  induction d as [|[k0 v0] d IH]; simpl.
  - intuition.
  - destruct (eqb k k0) eqn:E; simpl.
    + apply eqb_eq in E. subst. intuition.
    + rewrite IH. intuition.
Qed.

Lemma dict_set_NoDup (d : list (K * V)) k v :
  NoDup (map fst d) -> NoDup (map fst (dict_set eqb d k v)).
Proof.
  induction d as [|[k0 v0] d IH]; simpl; intro Hnd.
  - constructor; [simpl; tauto | constructor].
  - inversion Hnd as [|? ? Hni Hnd']; subst.
    destruct (eqb k k0) eqn:E; simpl.
    + now constructor.
    + constructor; [|auto].
      rewrite dict_set_keys. intros [-> | H]; [|auto].
      rewrite eqb_refl_true in E. discriminate.
Qed.

Lemma dict_set_key_fixed (d : list (K * V)) k v :
  In k (map fst d) -> map fst (dict_set eqb d k v) = map fst d.
Proof.
  induction d as [|[k0 v0] d IH]; simpl; [tauto|].
  intros H. destruct (eqb k k0) eqn:E; simpl; [reflexivity|].
  f_equal. apply IH. destruct H as [H | H]; [|exact H].
  subst. rewrite eqb_refl_true in E. discriminate.
Qed.
End DictFacts.

Lemma nat_eqb_eq : forall a b, Nat.eqb a b = true <-> a = b.
Proof. exact Nat.eqb_eq. Qed.

Lemma str_eqb_eq : forall a b, String.eqb a b = true <-> a = b.
Proof. exact String.eqb_eq. Qed.

(** ** Priority indices *)

Lemma list_index_inj (l : list string) x y n :
  list_index x l = Some n -> list_index y l = Some n -> x = y.
Proof.
  revert n. induction l as [|z l IH]; simpl; intros n; [discriminate|].
  destruct (String.eqb x z) eqn:Ex, (String.eqb y z) eqn:Ey.
  - apply String.eqb_eq in Ex, Ey. congruence.
  - intros [= <-]. destruct (list_index y l); discriminate.
  - destruct (list_index x l); simpl; [|discriminate].
    intros [= <-]. discriminate.
  - destruct (list_index x l) eqn:Hx, (list_index y l) eqn:Hy; simpl; try discriminate.
    intros [= <-] [= ->]. eauto.
Qed.

Lemma list_index_None (l : list string) x :
  list_index x l = None <-> str_in x l = false.
Proof.
  unfold str_in. induction l as [|z l IH]; simpl; [tauto|].
  destruct (String.eqb x z); simpl.
  - split; discriminate.
  - rewrite <- IH. destruct (list_index x l); simpl; split; congruence.
Qed.

Lemma py_lt_Inf_false (b : PyIndex) : py_lt Inf b = false.
Proof. reflexivity. Qed.

Lemma resolve_step_known w b out t q k :
  list_index t PRIORITY_ORDER = Some k ->
  resolve_step (w, b, out) (t, q) =
  if py_lt (Fin k) b then ((t, q), Fin k, out) else (w, b, out).
Proof. intro H. unfold resolve_step. now rewrite H. Qed.

Lemma resolve_step_unknown w b out t q :
  list_index t PRIORITY_ORDER = None ->
  resolve_step (w, b, out) (t, q) = (w, b, out ++ [MsgWarnUnknownType t]).
Proof. intro H. unfold resolve_step. now rewrite H. Qed.

(** The winner and the best index do not depend on the log. *)
Lemma resolve_fold_log (l : list Detection) : forall w b out,
  fold_left resolve_step l (w, b, out) =
  (fst (fst (fold_left resolve_step l (w, b, []))),
   snd (fst (fold_left resolve_step l (w, b, []))),
   out ++ snd (fold_left resolve_step l (w, b, []))).
Proof.
  induction l as [|[t q] l IH]; intros w b out; cbn [fold_left].
  - simpl. now rewrite app_nil_r.
  - destruct (list_index t PRIORITY_ORDER) as [k|] eqn:Hk.
    + rewrite !(resolve_step_known _ _ _ _ _ _ Hk).
      destruct (py_lt (Fin k) b); apply IH.
    + rewrite !(resolve_step_unknown _ _ _ _ _ Hk).
      rewrite (IH w b (out ++ [MsgWarnUnknownType t])).
      rewrite (IH w b ([] ++ [MsgWarnUnknownType t])). simpl.
      now rewrite <- app_assoc.
Qed.

(** What the inner loop computes, from any starting state. *)
Lemma resolve_fold_spec (l : list Detection) : forall w b out,
  let r := fold_left resolve_step l (w, b, out) in
  let w' := fst (fst r) in
  let b' := snd (fst r) in
  ((w' = w /\ b' = b) \/
   (exists n, b' = Fin n /\ In w' l /\ prio w' = Some n /\ py_lt b' b = true)) /\
  (forall d k, In d l -> prio d = Some k -> exists n, b' = Fin n /\ n <= k) /\
  (forall n, b = Fin n -> exists n', b' = Fin n' /\ n' <= n).
Proof.
  induction l as [|[t q] l IH]; intros w b out; cbn zeta.
  - simpl. split; [now left|]. split; [intros ? ? []|]. intros n ->. eauto.
  - cbn [fold_left]. unfold prio in *.
    destruct (list_index t PRIORITY_ORDER) as [k|] eqn:Hk.
    + rewrite (resolve_step_known _ _ _ _ _ _ Hk).
      destruct (py_lt (Fin k) b) eqn:Hlt; cbv iota.
      * specialize (IH (t, q) (Fin k) out). cbn zeta in IH.
        destruct IH as (IH1 & IH2 & IH3).
        destruct (IH3 k eq_refl) as (n' & Hn' & Hle).
        split; [|split].
        -- right. destruct IH1 as [[Hw Hb] | (n & Hb & Hin & Hp & Hl)].
           ++ exists k. rewrite Hw, Hb. cbn [fst]. repeat split; auto. now left.
           ++ exists n. rewrite Hb in *. repeat split; auto.
              ** now right.
              ** destruct b as [x|]; cbn in *; [|reflexivity].
                 apply Nat.ltb_lt in Hlt, Hl. apply Nat.ltb_lt. lia.
        -- intros d k0 [Hd | Hd] Hp.
           ++ subst d. cbn [fst] in Hp. rewrite Hk in Hp. injection Hp as <-. eauto.
           ++ eauto.
        -- intros n ->. cbn in Hlt. apply Nat.ltb_lt in Hlt.
           exists n'. split; [auto | lia].
      * specialize (IH w b out). cbn zeta in IH.
        destruct IH as (IH1 & IH2 & IH3).
        split; [|split]; auto.
        -- destruct IH1 as [? | (n & Hb & Hin & Hp & Hl)]; [now left|].
           right. exists n. repeat split; auto. now right.
        -- intros d k0 [Hd | Hd] Hp; [|eauto].
           subst d. cbn [fst] in Hp. rewrite Hk in Hp. injection Hp as <-.
           destruct b as [x|]; cbn in Hlt; [|discriminate].
           apply Nat.ltb_ge in Hlt.
           destruct (IH3 x eq_refl) as (n' & Hn' & Hle).
           exists n'. split; [auto | lia].
    + rewrite (resolve_step_unknown _ _ _ _ _ Hk).
      specialize (IH w b (out ++ [MsgWarnUnknownType t])). cbn zeta in IH.
      destruct IH as (IH1 & IH2 & IH3).
      split; [|split]; auto.
      * destruct IH1 as [? | (n & Hb & Hin & Hp & Hl)]; [now left|].
        right. exists n. repeat split; auto. now right.
      * intros d k0 [Hd | Hd] Hp; [|eauto].
        subst d. cbn [fst] in Hp. congruence.
Qed.

Lemma winner_cons d ds :
  winner (d :: ds) = Some (fst (fst (fold_left resolve_step (d :: ds) (d, Inf, [])))).
Proof. reflexivity. Qed.

Lemma winner_In ds w : winner ds = Some w -> In w ds.
Proof.
  destruct ds as [|d ds]; [discriminate|].
  rewrite winner_cons. intro H.
  assert (E : w = fst (fst (fold_left resolve_step (d :: ds) (d, Inf, []))))
    by congruence.
  rewrite E. clear H E.
  destruct (resolve_fold_spec (d :: ds) d Inf []) as ([[Hw _] | (n & _ & Hin & _)] & _).
  - rewrite Hw. now left.
  - exact Hin.
Qed.

Lemma winner_lowest ds w d k :
  winner ds = Some w -> In d ds -> prio d = Some k ->
  exists n, prio w = Some n /\ n <= k.
Proof.
  destruct ds as [|d0 ds]; [discriminate|].
  rewrite winner_cons. intros H Hin Hp.
  assert (E : w = fst (fst (fold_left resolve_step (d0 :: ds) (d0, Inf, []))))
    by congruence.
  rewrite E. clear H E.
  destruct (resolve_fold_spec (d0 :: ds) d0 Inf []) as (H1 & H2 & _).
  destruct (H2 d k Hin Hp) as (n & Hb & Hle).
  destruct H1 as [[_ Hb'] | (n' & Hb' & _ & Hp' & _)].
  - rewrite Hb in Hb'. discriminate.
  - exists n. rewrite Hb in Hb'. injection Hb' as <-. auto.
Qed.

Lemma winner_nonempty ds : ds <> [] -> exists w, winner ds = Some w.
Proof. destruct ds; [congruence|]. simpl. eauto. Qed.

Lemma winner_known_prio ds w d k :
  winner ds = Some w -> In d ds -> prio d = Some k -> prio w <> None.
Proof.
  intros Hw Hin Hp. destruct (winner_lowest _ _ _ _ Hw Hin Hp) as (n & Hn & _).
  congruence.
Qed.

(** Two candidate lists with the same members have winners of the same
    type as soon as one member is of a recognised type; the winners are
    equal when no two members share a type. *)
Lemma winner_order_independent ds ds' w w' :
  (forall d, In d ds <-> In d ds') ->
  winner ds = Some w -> winner ds' = Some w' ->
  (exists d, In d ds /\ prio d <> None) ->
  fst w = fst w' /\
  ((forall d1 d2, In d1 ds -> In d2 ds -> fst d1 = fst d2 -> d1 = d2) -> w = w').
Proof.
  intros Hsame Hw Hw' (d & Hd & Hk).
  destruct (prio d) as [k|] eqn:Hp; [clear Hk | congruence].
  destruct (winner_lowest _ _ _ _ Hw Hd Hp) as (n & Hn & _).
  assert (Hd' : In d ds') by now apply Hsame.
  destruct (winner_lowest _ _ _ _ Hw' Hd' Hp) as (n' & Hn' & _).
  pose proof (winner_In _ _ Hw) as Hin.
  pose proof (winner_In _ _ Hw') as Hin'.
  destruct (winner_lowest _ _ _ _ Hw' (proj1 (Hsame w) Hin) Hn) as (m' & Hm' & Hle').
  destruct (winner_lowest _ _ _ _ Hw (proj2 (Hsame w') Hin') Hn') as (m & Hm & Hle).
  assert (n = n') by (rewrite Hn in Hm; rewrite Hn' in Hm'; injection Hm as <-;
                      injection Hm' as <-; lia).
  subst n'. unfold prio in Hn, Hn'.
  pose proof (list_index_inj _ _ _ _ Hn Hn') as Heq.
  split; [exact Heq|].
  intro Hcons. apply Hcons; auto. now apply Hsame.
Qed.

(** ** The outer loop of priority resolution *)

Lemma resolve_edge_cons acc out e d ds :
  resolve_edge (acc, out) (e, d :: ds) =
  (dict_set Nat.eqb acc e (fst (fst (fold_left resolve_step (d :: ds) (d, Inf, [])))),
   out ++ snd (fold_left resolve_step (d :: ds) (d, Inf, []))).
Proof.
  unfold resolve_edge, resolve_detections.
  rewrite resolve_fold_log. reflexivity.
Qed.

Lemma resolve_edge_fst acc out e ds :
  fst (resolve_edge (acc, out) (e, ds)) =
  match winner ds with
  | Some w => dict_set Nat.eqb acc e w
  | None => acc
  end.
Proof.
  destruct ds as [|d ds]; [reflexivity|].
  rewrite resolve_edge_cons, winner_cons. reflexivity.
Qed.

Lemma fold_resolve_edge_get (src : CandidateMap) : forall acc out e,
  NoDup (map fst src) ->
  dict_get Nat.eqb (fst (fold_left resolve_edge src (acc, out))) e =
  match dict_get Nat.eqb src e with
  | Some ds => match winner ds with
               | Some w => Some w
               | None => dict_get Nat.eqb acc e
               end
  | None => dict_get Nat.eqb acc e
  end.
Proof.
  induction src as [|[k ds] src IH]; intros acc out e Hnd; [reflexivity|].
  inversion Hnd as [|? ? Hni Hnd']; subst.
  cbn [fold_left].
  destruct (resolve_edge (acc, out) (k, ds)) as [acc' out'] eqn:Hstep.
  pose proof (resolve_edge_fst acc out k ds) as Hacc.
  rewrite Hstep in Hacc. cbn [fst] in Hacc.
  rewrite (IH acc' out' e Hnd'). cbn [dict_get].
  destruct (Nat.eqb e k) eqn:Hek.
  - apply Nat.eqb_eq in Hek. subst e.
    assert (Hnone : dict_get Nat.eqb src k = None)
      by (apply (dict_get_None _ nat_eqb_eq); exact Hni).
    rewrite Hnone, Hacc.
    destruct (winner ds) as [w|]; [|reflexivity].
    apply (dict_get_set_same _ nat_eqb_eq).
  - apply Nat.eqb_neq in Hek.
    assert (Hother : dict_get Nat.eqb acc' e = dict_get Nat.eqb acc e).
    { rewrite Hacc. destruct (winner ds); [|reflexivity].
      now apply (dict_get_set_other _ nat_eqb_eq). }
    rewrite Hother. reflexivity.
Qed.

(** The resolved tag of an edge is the winner of its candidate list. *)
Lemma resolved_tag_lookup (src : CandidateMap) e :
  NoDup (map fst src) ->
  dict_get Nat.eqb (fst (priority_resolution src)) e =
  match dict_get Nat.eqb src e with
  | Some ds => winner ds
  | None => None
  end.
Proof.
  intro Hnd. unfold priority_resolution.
  rewrite (fold_resolve_edge_get src [] [] e Hnd). cbn [dict_get].
  destruct (dict_get Nat.eqb src e) as [ds|]; [|reflexivity].
  now destruct (winner ds).
Qed.

(** C1. For every edge with at least one candidate, the resolved tag is one
    of the edge's candidates and its type has the lowest index of
    [PRIORITY_ORDER] among the candidates; when the candidates are of types
    BLENDER_SEAM (the spec's AUTHORED_SEAM) and ANGLE_SHARP, the resolved
    tag is BLENDER_SEAM, in whatever order the candidates are listed. *)
Theorem priority_resolver_selects_lowest_index :
  forall (all_candidate_sources : CandidateMap) (edge : nat)
         (detections : list Detection),
    NoDup (map fst all_candidate_sources) ->
    dict_get Nat.eqb all_candidate_sources edge = Some detections ->
    detections <> [] ->
    exists winning_detection,
      dict_get Nat.eqb (fst (priority_resolution all_candidate_sources)) edge
        = Some winning_detection /\
      In winning_detection detections /\
      (forall d k, In d detections ->
         list_index (fst d) PRIORITY_ORDER = Some k ->
         exists n, list_index (fst winning_detection) PRIORITY_ORDER = Some n /\
                   n <= k) /\
      ((exists metric, In (TYPE_BLENDER_SEAM, metric) detections) ->
       (forall d, In d detections ->
          fst d = TYPE_BLENDER_SEAM \/ fst d = TYPE_ANGLE_SHARP) ->
       fst winning_detection = TYPE_BLENDER_SEAM).
Proof.
  intros src edge ds Hnd Hget Hne.
  destruct (winner_nonempty ds Hne) as (w & Hw).
  exists w. rewrite (resolved_tag_lookup src edge Hnd), Hget.
  split; [exact Hw|].
  split; [now apply winner_In|].
  split; [intros d k Hd Hk; exact (winner_lowest _ _ _ _ Hw Hd Hk)|].
  intros (metric & Hseam) Htypes.
  destruct (winner_lowest ds w (TYPE_BLENDER_SEAM, metric) 1 Hw Hseam eq_refl)
    as (n & Hn & Hle).
  destruct (Htypes w (winner_In _ _ Hw)) as [H | H]; [exact H|].
  unfold prio in Hn. rewrite H in Hn. vm_compute in Hn. injection Hn as <-. lia.
Qed.

Lemma priority_resolver_selects_lowest_index_witness :
  NoDup (map fst seam_and_angle_sources) /\
  dict_get Nat.eqb seam_and_angle_sources 0
    = Some [ (TYPE_ANGLE_SHARP, 1 # 2); (TYPE_BLENDER_SEAM, 1%Q) ] /\
  [ (TYPE_ANGLE_SHARP, 1 # 2); (TYPE_BLENDER_SEAM, 1%Q) ] <> [] /\
  exists winning_detection,
    dict_get Nat.eqb (fst (priority_resolution seam_and_angle_sources)) 0
      = Some winning_detection /\
    In winning_detection [ (TYPE_ANGLE_SHARP, 1 # 2); (TYPE_BLENDER_SEAM, 1%Q) ] /\
    (forall d k, In d [ (TYPE_ANGLE_SHARP, 1 # 2); (TYPE_BLENDER_SEAM, 1%Q) ] ->
       list_index (fst d) PRIORITY_ORDER = Some k ->
       exists n, list_index (fst winning_detection) PRIORITY_ORDER = Some n /\
                 n <= k) /\
    ((exists metric, In (TYPE_BLENDER_SEAM, metric)
                        [ (TYPE_ANGLE_SHARP, 1 # 2); (TYPE_BLENDER_SEAM, 1%Q) ]) ->
     (forall d, In d [ (TYPE_ANGLE_SHARP, 1 # 2); (TYPE_BLENDER_SEAM, 1%Q) ] ->
        fst d = TYPE_BLENDER_SEAM \/ fst d = TYPE_ANGLE_SHARP) ->
     fst winning_detection = TYPE_BLENDER_SEAM).
Proof.
  split; [repeat constructor; simpl; tauto|].
  split; [reflexivity|].
  split; [discriminate|].
  apply (priority_resolver_selects_lowest_index seam_and_angle_sources 0).
  - repeat constructor; simpl; tauto.
  - reflexivity.
  - discriminate.
Defined.

(** The same edge resolves to the seam whichever detection comes first. *)
Example seam_beats_angle_either_order :
  winner [ (TYPE_ANGLE_SHARP, 1 # 2); (TYPE_BLENDER_SEAM, 1%Q) ]
    = Some (TYPE_BLENDER_SEAM, 1%Q) /\
  winner [ (TYPE_BLENDER_SEAM, 1%Q); (TYPE_ANGLE_SHARP, 1 # 2) ]
    = Some (TYPE_BLENDER_SEAM, 1%Q).
Proof. split; reflexivity. Qed.

(** ** Enumeration and edge sets *)

Lemma Qgt_bool_true (a b : Q) : Qgt_bool a b = true <-> (b < a)%Q.
Proof.
  unfold Qgt_bool. rewrite negb_true_iff. split.
  - intro H. apply Qnot_le_lt. intro Hle.
    apply Qle_bool_iff in Hle. congruence.
  - intro H. destruct (Qle_bool a b) eqn:E; [|reflexivity].
    apply Qle_bool_iff in E. exfalso. exact (Qlt_not_le _ _ H E).
Qed.

Lemma In_combine_seq {A : Type} (l : list A) : forall start i x,
  In (i, x) (combine (seq start (List.length l)) l) <->
  start <= i /\ nth_error l (i - start) = Some x.
Proof.
  induction l as [|y l IH]; intros start i x; simpl.
  - split; [tauto|]. intros [_ H]. destruct (i - start); discriminate.
  - rewrite IH. split.
    + intros [H | [Hle Hnth]].
      * injection H as <- <-. rewrite Nat.sub_diag. auto.
      * split; [lia|]. replace (i - start) with (S (i - S start)) by lia. exact Hnth.
    + intros [Hle Hnth]. destruct (i - start) as [|n] eqn:E.
      * left. injection Hnth as <-. f_equal. lia.
      * right. split; [lia|]. replace (i - S start) with n by lia. exact Hnth.
Qed.

Lemma In_enumerate {A : Type} (l : list A) i x :
  In (i, x) (enumerate l) <-> nth_error l i = Some x.
Proof.
  unfold enumerate. rewrite In_combine_seq, Nat.sub_0_r.
  split; [tauto | intro; split; [lia | assumption]].
Qed.

Lemma edge_add_In e e' s : In e' (edge_add e s) <-> e' = e \/ In e' s.
Proof.
  unfold edge_add. rewrite set_add_iff. reflexivity.
Qed.

Lemma edge_add_NoDup e s : NoDup s -> NoDup (edge_add e s).
Proof. apply set_add_nodup. Qed.

(** ** Loops that may raise *)

Lemma Returned_inj {A : Type} (a b : A) : Returned a = Returned b -> a = b.
Proof. intro H. now injection H. Qed.

Lemma and_then_Returned {A B : Type} (o : Outcome A) (k : A -> Outcome B) b :
  and_then o k = Returned b <-> exists a, o = Returned a /\ k a = Returned b.
Proof.
  destruct o as [a|]; cbn; split.
  - intro H. now exists a.
  - intros (a' & Ha & Hk). now injection Ha as <-.
  - discriminate.
  - intros (a' & Ha & _). discriminate.
Qed.

Lemma and_then_Raised {A B : Type} (o : Outcome A) (k : A -> Outcome B) :
  and_then o k = Raised <-> o = Raised \/ exists a, o = Returned a /\ k a = Raised.
Proof.
  destruct o as [a|]; cbn; split.
  - intro H. right. now exists a.
  - intros [H | (a' & Ha & Hk)]; [discriminate | now injection Ha as <-].
  - now left.
  - reflexivity.
Qed.

(** A property of the state that every returning iteration preserves holds
    after a returning loop. *)
Lemma for_each_invariant {A S : Type} (body : S -> A -> Outcome S)
  (P : S -> Prop) (items : list A) :
  (forall st x st', In x items -> P st -> body st x = Returned st' -> P st') ->
  forall st st', P st -> for_each body items st = Returned st' -> P st'.
Proof.
  induction items as [|x items IH]; intros Hstep st st' HP Hrun; cbn in Hrun.
  - now injection Hrun as <-.
  - apply and_then_Returned in Hrun. destruct Hrun as (st1 & H1 & Hrest).
    apply (IH (fun st0 y st0' Hy => Hstep st0 y st0' (or_intror Hy)) st1 st');
      [|exact Hrest].
    apply (Hstep st x st1); auto. now left.
Qed.

(** ** AM2a: the dihedral-angle detector *)

Section DihedralDetector.
Variable Vector : Type.
Variable angle : Vector -> Vector -> Outcome Q.

Lemma am2a_step_Raised threshold acc i edge :
  am2a_step angle threshold acc (i, edge) = Raised <->
  degenerate_dihedral angle edge.
Proof.
  unfold am2a_step, degenerate_dihedral.
  destruct (link_faces edge) as [|f1 [|f2 [|f3 fs]]];
    try (split; [discriminate | intros (a & b & Hl & _); discriminate]).
  destruct (angle (normal f1) (normal f2)) as [a|] eqn:E; cbn.
  - split; [discriminate|]. intros (a' & b' & Hl & Ha).
    injection Hl as <- <-. congruence.
  - split; [|reflexivity]. intros _. exists f1, f2. auto.
Qed.

Lemma am2a_step_Returned threshold acc i edge acc' :
  am2a_step angle threshold acc (i, edge) = Returned acc' ->
  forall e, In e acc' <->
            In e acc \/ (e = i /\ sharp_dihedral angle threshold edge).
Proof.
  unfold am2a_step, sharp_dihedral.
  destruct (link_faces edge) as [|f1 [|f2 [|f3 fs]]];
    try (intros H e; injection H as <-;
         split; [now left | intros [H | [_ (a & b & c & Hl & _)]];
                            [exact H | discriminate]]).
  destruct (angle (normal f1) (normal f2)) as [a|] eqn:E; cbn; [|discriminate].
  intros H e. injection H as <-.
  destruct (Qgt_bool a threshold) eqn:Ea.
  - rewrite edge_add_In. apply Qgt_bool_true in Ea. split.
    + intros [-> | H]; [right; split; [reflexivity|] | now left].
      exists f1, f2, a. auto.
    + intros [H | [-> _]]; auto.
  - split; [now left|]. intros [H | [_ (a' & b' & c & Hl & Ha & Hlt)]]; [exact H|].
    injection Hl as <- <-. rewrite E in Ha. injection Ha as <-.
    apply Qgt_bool_true in Hlt. congruence.
Qed.

Lemma am2a_fold_Raised threshold items : forall acc,
  for_each (am2a_step angle threshold) items acc = Raised <->
  exists i edge, In (i, edge) items /\ degenerate_dihedral angle edge.
Proof.
  induction items as [|[i x] items IH]; intro acc; cbn [for_each].
  - split; [discriminate | intros (? & ? & [] & _)].
  - rewrite and_then_Raised. split.
    + intros [H | (acc' & _ & H)].
      * apply am2a_step_Raised in H. exists i, x. split; [now left | exact H].
      * apply IH in H. destruct H as (j & y & Hin & Hd).
        exists j, y. split; [now right | exact Hd].
    + intros (j & y & [Heq | Hin] & Hd).
      * injection Heq as <- <-. left. now apply am2a_step_Raised.
      * destruct (am2a_step angle threshold acc (i, x)) as [acc'|] eqn:E;
          [|now left].
        right. exists acc'. split; [reflexivity|]. apply IH. eauto.
Qed.

Lemma am2a_fold_Returned threshold items : forall acc s,
  for_each (am2a_step angle threshold) items acc = Returned s ->
  forall e, In e s <->
            In e acc \/
            exists edge, In (e, edge) items /\ sharp_dihedral angle threshold edge.
Proof.
  induction items as [|[i x] items IH]; intros acc s Hrun e; cbn [for_each] in Hrun.
  - injection Hrun as <-. split; [now left | intros [H | (? & [] & _)]; exact H].
  - apply and_then_Returned in Hrun. destruct Hrun as (acc' & Hstep & Hrest).
    rewrite (IH _ _ Hrest e), (am2a_step_Returned _ _ _ _ _ Hstep e). split.
    + intros [[H | [-> Hs]] | (edge & Hin & Hs)]; auto.
      * right. exists x. split; [now left | exact Hs].
      * right. exists edge. split; [now right | exact Hs].
    + intros [H | (edge & [Heq | Hin] & Hs)]; auto.
      * injection Heq as <- <-. left. right. auto.
      * right. eauto.
Qed.

Lemma am2a_fold_NoDup threshold items : forall acc s,
  for_each (am2a_step angle threshold) items acc = Returned s ->
  NoDup acc -> NoDup s.
Proof.
  intros acc s Hrun Hnd.
  apply (for_each_invariant (am2a_step angle threshold) (@NoDup nat) items)
    with (st := acc); auto.
  intros st [i x] st' _ Hst. unfold am2a_step.
  destruct (link_faces x) as [|f1 [|f2 [|f3 fs]]];
    try (intro H; now injection H as <-).
  destruct (angle (normal f1) (normal f2)); cbn; [|discriminate].
  intro H. injection H as <-.
  destruct (Qgt_bool _ _); auto. now apply edge_add_NoDup.
Qed.

(** The detector raises exactly on a mesh with an edge between two faces
    whose normals have no angle. *)
Lemma am2a_Raised (m : BMesh Vector) threshold :
  am2a_dihedral_angle_analysis angle (Some m) threshold = Raised <->
  exists edge, In edge (edges m) /\ degenerate_dihedral angle edge.
Proof.
  unfold am2a_dihedral_angle_analysis.
  destruct (edges m) as [|x xs] eqn:Hes.
  - split; [discriminate | intros (? & [] & _)].
  - rewrite am2a_fold_Raised, <- Hes. split.
    + intros (i & edge & Hin & Hd). exists edge. split; [|exact Hd].
      apply In_enumerate in Hin. eapply nth_error_In. exact Hin.
    + intros (edge & Hin & Hd). apply In_nth_error in Hin.
      destruct Hin as (i & Hi). exists i, edge. split; [|exact Hd].
      now apply In_enumerate.
Qed.

Lemma am2a_Returned (m : BMesh Vector) threshold s :
  am2a_dihedral_angle_analysis angle (Some m) threshold = Returned s ->
  forall e, In e s <->
            exists edge, nth_error (edges m) e = Some edge /\
                         sharp_dihedral angle threshold edge.
Proof.
  unfold am2a_dihedral_angle_analysis.
  destruct (edges m) as [|x xs] eqn:Hes.
  - intros H e. injection H as <-.
    split; [intros [] | intros (edge & Hn & _)]. destruct e; discriminate.
  - rewrite <- Hes. intros Hrun e. rewrite (am2a_fold_Returned _ _ _ _ Hrun e).
    split.
    + intros [[] | (edge & Hin & Hs)]. exists edge. split; [|exact Hs].
      now apply In_enumerate.
    + intros (edge & Hn & Hs). right. exists edge. split; [|exact Hs].
      now apply In_enumerate.
Qed.

Lemma am2a_NoDup (bm : option (BMesh Vector)) threshold s :
  am2a_dihedral_angle_analysis angle bm threshold = Returned s -> NoDup s.
Proof.
  unfold am2a_dihedral_angle_analysis. destruct bm as [m|].
  - destruct (edges m) as [|x xs].
    + intro H. injection H as <-. constructor.
    + intro H. apply (am2a_fold_NoDup _ _ _ _ H). constructor.
  - intro H. injection H as <-. constructor.
Qed.

(** With valid normals the detector returns. *)
Lemma am2a_returns (m : BMesh Vector) threshold :
  valid_normals angle m ->
  exists s, am2a_dihedral_angle_analysis angle (Some m) threshold = Returned s.
Proof.
  intro Hv.
  destruct (am2a_dihedral_angle_analysis angle (Some m) threshold) as [s|] eqn:E;
    [now exists s|].
  apply am2a_Raised in E. destruct E as (edge & Hin & Hd).
  now destruct (Hv edge Hin).
Qed.

(** The detector reads nothing of an edge but its incident faces. *)
Lemma am2a_fold_reads_faces threshold :
  forall (xs ys : list (BMEdge Vector)) start acc,
    map link_faces xs = map link_faces ys ->
    for_each (am2a_step angle threshold)
             (combine (seq start (List.length xs)) xs) acc =
    for_each (am2a_step angle threshold)
             (combine (seq start (List.length ys)) ys) acc.
Proof.
  induction xs as [|x xs IH]; intros [|y ys] start acc Hmap;
    try discriminate; [reflexivity|].
  injection Hmap as Hx Hrest. cbn [List.length seq combine for_each].
  replace (am2a_step angle threshold acc (start, y))
    with (am2a_step angle threshold acc (start, x))
    by (unfold am2a_step; now rewrite Hx).
  destruct (am2a_step angle threshold acc (start, x)) as [acc'|]; cbn;
    [|reflexivity].
  now apply IH.
Qed.

Lemma am2a_reads_faces (m m' : BMesh Vector) threshold :
  map link_faces (edges m') = map link_faces (edges m) ->
  am2a_dihedral_angle_analysis angle (Some m') threshold =
  am2a_dihedral_angle_analysis angle (Some m) threshold.
Proof.
  intro Hmap. unfold am2a_dihedral_angle_analysis, enumerate.
  destruct (edges m') as [|x xs] eqn:E', (edges m) as [|y ys] eqn:E;
    try discriminate; [reflexivity|].
  now apply am2a_fold_reads_faces.
Qed.

(** C4 (amended). On a mesh with valid normals, that is one in which no
    edge lies between two faces whose normals have no angle, the
    dihedral-angle detector returns a set that holds an edge exactly when
    the edge has two incident faces whose normals make an angle strictly
    greater than the threshold; an edge with one face or with more than two
    faces is never in it; the result is a function of the edges' incident
    faces and the threshold only, and the detector returns nothing but its
    candidate set (the mesh is only read). *)
Theorem dihedral_detector_emits_iff_sharp_interior :
  forall (m : BMesh Vector) (threshold : Q),
    valid_normals angle m ->
    exists angle_sharp_candidates,
      am2a_dihedral_angle_analysis angle (Some m) threshold
        = Returned angle_sharp_candidates /\
      (forall e,
         In e angle_sharp_candidates <->
         exists edge face1 face2 a,
           nth_error (edges m) e = Some edge /\
           link_faces edge = [face1; face2] /\
           angle (normal face1) (normal face2) = Returned a /\
           (threshold < a)%Q) /\
      (forall e edge,
         nth_error (edges m) e = Some edge ->
         List.length (link_faces edge) = 1 \/ 2 < List.length (link_faces edge) ->
         ~ In e angle_sharp_candidates) /\
      (forall m' : BMesh Vector,
         map link_faces (edges m') = map link_faces (edges m) ->
         am2a_dihedral_angle_analysis angle (Some m') threshold
           = Returned angle_sharp_candidates) /\
      am2a_dihedral_angle_analysis angle None threshold = Returned [].
Proof.
  intros m threshold Hv.
  destruct (am2a_returns m threshold Hv) as (s & Hs).
  exists s. split; [exact Hs|]. split; [|split; [|split]].
  - intro e. rewrite (am2a_Returned _ _ _ Hs e). unfold sharp_dihedral. split.
    + intros (edge & Hn & f1 & f2 & a & Hl & Ha & Hlt).
      exists edge, f1, f2, a. auto.
    + intros (edge & f1 & f2 & a & Hn & Hl & Ha & Hlt). exists edge.
      split; [exact Hn|]. exists f1, f2, a. auto.
  - intros e edge Hn Hlen Hin. apply (am2a_Returned _ _ _ Hs) in Hin.
    destruct Hin as (edge' & Hn' & f1 & f2 & a & Hl & _).
    rewrite Hn in Hn'. injection Hn' as <-. rewrite Hl in Hlen.
    simpl in Hlen. lia.
  - intros m' Hmap. rewrite <- Hs. now apply am2a_reads_faces.
  - reflexivity.
Qed.
End DihedralDetector.

Lemma dihedral_detector_emits_iff_sharp_interior_witness :
  valid_normals heading_angle two_edge_strip /\
  exists angle_sharp_candidates,
    am2a_dihedral_angle_analysis heading_angle (Some two_edge_strip) (1 # 2)
      = Returned angle_sharp_candidates /\
    (forall e,
       In e angle_sharp_candidates <->
       exists edge face1 face2 a,
         nth_error (edges two_edge_strip) e = Some edge /\
         link_faces edge = [face1; face2] /\
         heading_angle (normal face1) (normal face2) = Returned a /\
         (1 # 2 < a)%Q) /\
    (forall e edge,
       nth_error (edges two_edge_strip) e = Some edge ->
       List.length (link_faces edge) = 1 \/ 2 < List.length (link_faces edge) ->
       ~ In e angle_sharp_candidates) /\
    (forall m' : BMesh (option Q),
       map link_faces (edges m') = map link_faces (edges two_edge_strip) ->
       am2a_dihedral_angle_analysis heading_angle (Some m') (1 # 2)
         = Returned angle_sharp_candidates) /\
    am2a_dihedral_angle_analysis heading_angle None (1 # 2) = Returned [].
Proof.
  assert (Hv : valid_normals heading_angle two_edge_strip).
  { intros edge Hin (f1 & f2 & Hl & Ha). cbn in Hin.
    destruct Hin as [<- | [<- | []]]; cbn in Hl; injection Hl as <- <-;
      discriminate Ha. }
  split; [exact Hv|].
  apply (dihedral_detector_emits_iff_sharp_interior (option Q) heading_angle
           two_edge_strip (1 # 2) Hv).
Defined.

(** C4 (the claim as it stands fails). On the mesh whose second edge lies
    beside a face without area, the detector raises the [ValueError] of
    [Vector.angle]: it returns no candidate set, although the first edge has
    two incident faces at 1 radian, more than the threshold 1/2. *)
Lemma dihedral_detector_raises_on_zero_normal :
  am2a_dihedral_angle_analysis heading_angle (Some degenerate_face_mesh) (1 # 2)
    = Raised /\
  (exists edge face1 face2 a,
     nth_error (edges degenerate_face_mesh) 0 = Some edge /\
     link_faces edge = [face1; face2] /\
     heading_angle (normal face1) (normal face2) = Returned a /\
     (1 # 2 < a)%Q) /\
  ~ (exists angle_sharp_candidates,
       am2a_dihedral_angle_analysis heading_angle (Some degenerate_face_mesh)
         (1 # 2) = Returned angle_sharp_candidates /\
       forall e,
         In e angle_sharp_candidates <->
         exists edge face1 face2 a,
           nth_error (edges degenerate_face_mesh) e = Some edge /\
           link_faces edge = [face1; face2] /\
           heading_angle (normal face1) (normal face2) = Returned a /\
           (1 # 2 < a)%Q).
Proof.
  split; [reflexivity|]. split.
  - exists (bent_edge (0, 1)), (mkFace (Some 0%Q)), (mkFace (Some 1%Q)), 1%Q.
    repeat split.
  - intros (s & Hs & _). discriminate Hs.
Qed.

(** ** AM4: the feature applicator *)

Section Applicator.
Variable Vector : Type.

(** The whole loop: it raises at the first valid edge of the set, having
    warned about the references before it; the mesh is as it was. *)
Lemma am4_loop_spec (selected : list nat) : forall (m : BMesh Vector) c out,
  am4_loop selected m c out =
    (if existsb (valid_ref m) selected then Raised else Returned c,
     m,
     out ++ map MsgWarnInvalidEdge (invalid_prefix m selected)).
Proof.
  induction selected as [|e selected IH]; intros m c out.
  - cbn. now rewrite app_nil_r.
  - cbn [am4_loop existsb invalid_prefix]. unfold valid_ref at 1 3.
    destruct (nth_error (edges m) e) as [x|] eqn:Hn.
    + destruct (is_valid x) eqn:Hv; cbn [set_use_edge_sharp orb map].
      * now rewrite app_nil_r.
      * rewrite IH. cbn [map]. now rewrite <- app_assoc.
    + cbn [orb]. rewrite IH. cbn [map]. now rewrite <- app_assoc.
Qed.

Lemma am4_spec (m : BMesh Vector) (selected : edge_set)
  (settings : option Settings) :
  am4_apply_sharps_to_bmesh (Some m) selected settings =
    (if existsb (valid_ref m) selected then Raised else Returned 0,
     Some m,
     map MsgWarnInvalidEdge (invalid_prefix m selected)).
Proof.
  unfold am4_apply_sharps_to_bmesh.
  destruct selected as [|e selected]; [reflexivity|].
  now rewrite am4_loop_spec.
Qed.
End Applicator.

(** C10 (the code departs from the claim). The applicator assigns to
    [use_edge_sharp], which a BMEdge does not have: on the two-edge strip
    with both edges selected the call raises at the first edge, marks
    nothing and returns no count, where the claim has both edges marked and
    2 returned.  In general the call raises exactly when the set holds a
    reference to a valid edge, after one warning for every reference
    visited before it; when there is none it returns 0 and warns about
    every reference; in all cases the mesh is left as it was (so crease,
    seam and bevel weight are never modified), and the settings play no
    part. *)
Theorem applicator_raises_on_valid_edge :
  am4_apply_sharps_to_bmesh (Some two_edge_strip) [0; 1] (Some default_settings)
    = (Raised, Some two_edge_strip, []) /\
  (forall (Vector : Type) (bm : option (BMesh Vector))
          (selected_sharp_edges : edge_set)
          (auto_sharp_settings : option Settings),
     fst (fst (am4_apply_sharps_to_bmesh bm selected_sharp_edges
                 auto_sharp_settings))
       = match bm with
         | Some m => if existsb (valid_ref m) selected_sharp_edges
                     then Raised else Returned 0
         | None => Returned 0
         end /\
     snd (fst (am4_apply_sharps_to_bmesh bm selected_sharp_edges
                 auto_sharp_settings)) = bm /\
     snd (am4_apply_sharps_to_bmesh bm selected_sharp_edges auto_sharp_settings)
       = match bm with
         | Some m => map MsgWarnInvalidEdge
                         (invalid_prefix m selected_sharp_edges)
         | None => []
         end /\
     (forall other_settings,
        am4_apply_sharps_to_bmesh bm selected_sharp_edges other_settings =
        am4_apply_sharps_to_bmesh bm selected_sharp_edges auto_sharp_settings)).
Proof.
  split; [reflexivity|].
  intros Vector bm sel settings. destruct bm as [m|].
  - rewrite !am4_spec. cbn [fst snd]. repeat split.
    intro other. now rewrite am4_spec.
  - cbn. repeat split.
Qed.

(** ** AM3: selection *)

Lemma selectable_iff_known (t : string) :
  selectable t = true <-> list_index t PRIORITY_ORDER <> None.
Proof.
  assert (H : selectable t = str_in t PRIORITY_ORDER).
  { unfold selectable, str_in, EXPLICIT_TYPES, GEOMETRIC_TYPES, PRIORITY_ORDER.
    cbn [existsb].
    destruct (String.eqb t TYPE_UV_SEAM_BOUNDARY), (String.eqb t TYPE_BLENDER_SEAM),
             (String.eqb t TYPE_BLENDER_SHARP), (String.eqb t TYPE_BLENDER_CREASE),
             (String.eqb t TYPE_ANGLE_SHARP), (String.eqb t TYPE_CURVATURE_SHARP),
             (String.eqb t TYPE_BLENDER_BEVEL); reflexivity. }
  rewrite H. split.
  - intros Ht Hn. apply list_index_None in Hn. congruence.
  - intro Hn. destruct (str_in t PRIORITY_ORDER) eqn:E; [reflexivity|].
    apply list_index_None in E. contradiction.
Qed.

Lemma select_step_fst f g e t q :
  fst (select_step (f, g) (e, (t, q))) = if selectable t then edge_add e f else f.
Proof.
  unfold select_step, selectable.
  destruct (str_in t EXPLICIT_TYPES), (str_in t GEOMETRIC_TYPES); reflexivity.
Qed.

Lemma select_fold_In (l : list (nat * Detection)) : forall f g e,
  In e (fst (fold_left select_step l (f, g))) <->
  In e f \/ exists w, In (e, w) l /\ selectable (fst w) = true.
Proof.
  induction l as [|[k [t q]] l IH]; intros f g e; cbn [fold_left].
  - split; [now left | intros [H | (w & [] & _)]; exact H].
  - destruct (select_step (f, g) (k, (t, q))) as [f' g'] eqn:Hs.
    pose proof (select_step_fst f g k t q) as Hf. rewrite Hs in Hf. cbn [fst] in Hf.
    rewrite IH, Hf. split.
    + intros [H | (w & Hin & Hsel)].
      * destruct (selectable t) eqn:Ht; [|now left].
        apply edge_add_In in H. destruct H as [-> | H]; [|now left].
        right. exists (t, q). split; [now left | exact Ht].
      * right. exists w. split; [now right | exact Hsel].
    + intros [H | (w & [Heq | Hin] & Hsel)].
      * left. destruct (selectable t); [apply edge_add_In; now right | exact H].
      * injection Heq as <- <-. cbn [fst] in Hsel. rewrite Hsel.
        left. apply edge_add_In. now left.
      * right. eauto.
Qed.

Lemma select_fold_NoDup (l : list (nat * Detection)) : forall f g,
  NoDup f -> NoDup (fst (fold_left select_step l (f, g))).
Proof.
  induction l as [|[k [t q]] l IH]; intros f g Hnd; cbn [fold_left]; [exact Hnd|].
  destruct (select_step (f, g) (k, (t, q))) as [f' g'] eqn:Hs.
  pose proof (select_step_fst f g k t q) as Hf. rewrite Hs in Hf. cbn [fst] in Hf.
  apply IH. rewrite Hf. destruct (selectable t); [now apply edge_add_NoDup | exact Hnd].
Qed.

Lemma fold_resolve_edge_NoDup (src : CandidateMap) : forall acc out,
  NoDup (map fst acc) ->
  NoDup (map fst (fst (fold_left resolve_edge src (acc, out)))).
Proof.
  induction src as [|[k ds] src IH]; intros acc out Hnd; [exact Hnd|].
  cbn [fold_left].
  destruct (resolve_edge (acc, out) (k, ds)) as [acc' out'] eqn:Hstep.
  pose proof (resolve_edge_fst acc out k ds) as Hacc.
  rewrite Hstep in Hacc. cbn [fst] in Hacc.
  apply IH. rewrite Hacc. destruct (winner ds); [|exact Hnd].
  now apply (dict_set_NoDup _ nat_eqb_eq).
Qed.

Lemma priority_resolution_NoDup (src : CandidateMap) :
  NoDup (map fst (fst (priority_resolution src))).
Proof. apply fold_resolve_edge_NoDup. constructor. Qed.

Section Am3.
Variable Vector : Type.

Lemma am3_fst (m : BMesh Vector) (src : CandidateMap) mfl :
  fst (am3_filter_refine_prioritize (Some m) src mfl) =
  fst (select_edges (fst (priority_resolution src))).
Proof.
  unfold am3_filter_refine_prioritize.
  destruct src as [|item src]; [reflexivity|].
  destruct (priority_resolution (item :: src)) as [resolved out].
  cbn [fst]. now destruct (select_edges resolved).
Qed.

(** The selected edges are those whose resolved tag has a selectable type. *)
Lemma am3_In (m : BMesh Vector) (src : CandidateMap) mfl e :
  In e (fst (am3_filter_refine_prioritize (Some m) src mfl)) <->
  exists w, dict_get Nat.eqb (fst (priority_resolution src)) e = Some w /\
            selectable (fst w) = true.
Proof.
  rewrite am3_fst. unfold select_edges. rewrite select_fold_In.
  pose proof (priority_resolution_NoDup src) as Hnd. split.
  - intros [[] | (w & Hin & Hsel)]. exists w. split; [|exact Hsel].
    now apply (In_dict_get _ nat_eqb_eq).
  - intros (w & Hget & Hsel). right. exists w. split; [|exact Hsel].
    now apply (dict_get_In _ nat_eqb_eq).
Qed.

Lemma am3_ignores_min_feature_length (bm : option (BMesh Vector))
  (src : CandidateMap) (m1 m2 : Z) :
  am3_filter_refine_prioritize bm src m1 = am3_filter_refine_prioritize bm src m2.
Proof. reflexivity. Qed.

(** C3. An edge resolved to a geometric type whose chain is shorter than
    the minimum feature length is in the final selected set when one of
    its end points is a junction, that is a vertex incident to three or
    more resolved sharp edges. *)
Theorem short_chain_edge_at_junction_retained :
  forall (m : BMesh Vector) (all_candidate_sources : CandidateMap)
         (min_feature_length : Z) (e : nat) (t : string),
    resolved_type (fst (priority_resolution all_candidate_sources)) e = Some t ->
    str_in t GEOMETRIC_TYPES = true ->
    (Z.of_nat (chain_length m (fst (priority_resolution all_candidate_sources)) e)
     < min_feature_length)%Z ->
    at_junction m (fst (priority_resolution all_candidate_sources)) e = true ->
    In e (fst (am3_filter_refine_prioritize (Some m) all_candidate_sources
                 min_feature_length)).
Proof.
  intros m src mfl e t Hres Hgeo _ _.
  apply am3_In. unfold resolved_type in Hres.
  destruct (dict_get Nat.eqb (fst (priority_resolution src)) e) as [w|];
    [|discriminate].
  cbn in Hres. injection Hres as Ht. exists w. split; [reflexivity|].
  unfold selectable. rewrite Ht, Hgeo. apply orb_true_r.
Qed.
End Am3.

Lemma short_chain_edge_at_junction_retained_witness :
  resolved_type (fst (priority_resolution junction_star_sources)) 0
    = Some TYPE_ANGLE_SHARP /\
  str_in TYPE_ANGLE_SHARP GEOMETRIC_TYPES = true /\
  chain_length junction_star (fst (priority_resolution junction_star_sources)) 0 = 1 /\
  sharp_degree junction_star (fst (priority_resolution junction_star_sources)) 0 = 4 /\
  at_junction junction_star (fst (priority_resolution junction_star_sources)) 0 = true /\
  In 0 (fst (am3_filter_refine_prioritize (Some junction_star)
               junction_star_sources 5%Z)).
Proof.
  split; [reflexivity|]. split; [reflexivity|]. split; [reflexivity|].
  split; [reflexivity|]. split; [reflexivity|].
  apply (short_chain_edge_at_junction_retained (option Q) junction_star
           junction_star_sources 5%Z 0 TYPE_ANGLE_SHARP).
  - reflexivity.
  - reflexivity.
  - vm_compute. reflexivity.
  - reflexivity.
Defined.

Example junction_star_sources_collected :
  fst (collect_candidates heading_angle (Some junction_star) seams_only_settings)
  = Returned junction_star_sources.
Proof. vm_compute. reflexivity. Qed.

(** C2 (the code departs from the claim). The chain filter is a
    pass-through: on the two-edge strip, whose two ANGLE_SHARP edges form an
    isolated chain of length 2 without a junction, the pass run with minimum
    feature length 3 selects both edges, where the claim has the chain
    discarded.  The three-edge strip is kept in full, as claimed; the
    minimum feature length has no influence on AM3 at all.  (The pass is run
    with the settings under which it reads no attribute that a BMEdge
    lacks.) *)
Theorem short_chain_survives_chain_filter :
  fst (collect_candidates heading_angle (Some two_edge_strip) seams_only_settings)
    = Returned two_edge_strip_sources /\
  chain_of two_edge_strip
    (fst (priority_resolution two_edge_strip_sources)) 0 = [0; 1] /\
  (Z.of_nat (chain_length two_edge_strip
               (fst (priority_resolution two_edge_strip_sources)) 0)
   < auto_sharp_min_feature_length seams_only_settings)%Z /\
  at_junction two_edge_strip
    (fst (priority_resolution two_edge_strip_sources)) 0 = false /\
  at_junction two_edge_strip
    (fst (priority_resolution two_edge_strip_sources)) 1 = false /\
  fst (am3_filter_refine_prioritize (Some two_edge_strip)
         two_edge_strip_sources 3%Z) = [0; 1] /\
  fst (auto_detect_and_mark_edges heading_angle (Some two_edge_strip)
         (Some seams_only_settings)) = Returned [0; 1] /\
  fst (auto_detect_and_mark_edges heading_angle (Some three_edge_strip)
         (Some seams_only_settings)) = Returned [0; 1; 2] /\
  (forall (Vector : Type) (bm : option (BMesh Vector)) (src : CandidateMap)
          (m1 m2 : Z),
     am3_filter_refine_prioritize bm src m1 =
     am3_filter_refine_prioritize bm src m2).
Proof.
  split; [vm_compute; reflexivity|].
  split; [vm_compute; reflexivity|].
  split; [vm_compute; reflexivity|].
  split; [vm_compute; reflexivity|].
  split; [vm_compute; reflexivity|].
  split; [vm_compute; reflexivity|].
  split; [vm_compute; reflexivity|].
  split; [vm_compute; reflexivity|].
  intros. apply am3_ignores_min_feature_length.
Qed.

(** ** Unrecognised detection types *)

Lemma resolve_fold_warns (l : list Detection) : forall st t q,
  In (t, q) l -> list_index t PRIORITY_ORDER = None ->
  In (MsgWarnUnknownType t) (snd (fold_left resolve_step l st)).
Proof.
  assert (Hmono : forall (l : list Detection) st msg,
             In msg (snd st) -> In msg (snd (fold_left resolve_step l st))).
  { induction l0 as [|[t q] l0 IH]; intros [[w b] out] msg Hin; [exact Hin|].
    cbn [fold_left]. apply IH.
    destruct (list_index t PRIORITY_ORDER) as [k|] eqn:Hk.
    - rewrite (resolve_step_known _ _ _ _ _ _ Hk).
      now destruct (py_lt (Fin k) b).
    - rewrite (resolve_step_unknown _ _ _ _ _ Hk). cbn [snd] in *.
      apply in_or_app. now left. }
  induction l as [|[t' q'] l IH]; intros [[w b] out] t q Hin Hnone; [destruct Hin|].
  cbn [fold_left]. destruct Hin as [Heq | Hin].
  - injection Heq as -> ->. apply Hmono.
    rewrite (resolve_step_unknown _ _ _ _ _ Hnone). cbn [snd].
    apply in_or_app. right. now left.
  - now apply IH with (q := q).
Qed.

Lemma fold_resolve_edge_warns (src : CandidateMap) : forall st e ds t q,
  In (e, ds) src -> In (t, q) ds -> list_index t PRIORITY_ORDER = None ->
  In (MsgWarnUnknownType t) (snd (fold_left resolve_edge src st)).
Proof.
  assert (Hstep : forall st e (ds : list Detection) msg,
             In msg (snd st) -> In msg (snd (resolve_edge st (e, ds)))).
  { intros [acc out] e [|d ds] msg Hin; [exact Hin|].
    rewrite resolve_edge_cons. cbn [snd] in *. apply in_or_app. now left. }
  assert (Hmono : forall (src : CandidateMap) st msg,
             In msg (snd st) -> In msg (snd (fold_left resolve_edge src st))).
  { induction src0 as [|[k ds] src0 IH]; intros st msg Hin; [exact Hin|].
    cbn [fold_left]. apply IH. now apply Hstep. }
  induction src as [|[k ds'] src IH]; intros [acc out] e ds t q Hin Hd Hnone;
    [destruct Hin|].
  cbn [fold_left]. destruct Hin as [Heq | Hin].
  - injection Heq as -> ->. apply Hmono.
    destruct ds as [|d ds]; [destruct Hd|].
    rewrite resolve_edge_cons. cbn [snd]. apply in_or_app. right.
    now apply resolve_fold_warns with (q := q).
  - now apply IH with (e := e) (ds := ds) (q := q).
Qed.

(** Every candidate of an unrecognised type is reported, and it never wins
    against a candidate of a recognised type. *)
Lemma unknown_type_warned_and_outranked (src : CandidateMap) e ds t q :
  NoDup (map fst src) ->
  dict_get Nat.eqb src e = Some ds -> In (t, q) ds ->
  list_index t PRIORITY_ORDER = None ->
  In (MsgWarnUnknownType t) (snd (priority_resolution src)) /\
  exists w, dict_get Nat.eqb (fst (priority_resolution src)) e = Some w /\
            ((exists d, In d ds /\ prio d <> None) -> prio w <> None).
Proof.
  intros Hnd Hget Hin Hnone. split.
  - unfold priority_resolution.
    apply fold_resolve_edge_warns with (e := e) (ds := ds) (q := q); auto.
    now apply (dict_get_In _ nat_eqb_eq).
  - rewrite (resolved_tag_lookup src e Hnd), Hget.
    destruct (winner_nonempty ds) as (w & Hw); [intros ->; destruct Hin|].
    exists w. split; [exact Hw|].
    intros (d & Hd & Hk). destruct (prio d) as [k|] eqn:Hp; [|congruence].
    exact (winner_known_prio _ _ _ _ Hw Hd Hp).
Qed.

(** ** The candidate aggregator *)

Lemma dict_append_get m e x e' :
  dict_get Nat.eqb (dict_append m e x) e' =
  if e' =? e then Some (candidates_of m e ++ [x]) else dict_get Nat.eqb m e'.
Proof.
  unfold dict_append, candidates_of. destruct (e' =? e) eqn:E.
  - apply Nat.eqb_eq in E. subst. apply (dict_get_set_same _ nat_eqb_eq).
  - apply Nat.eqb_neq in E. now apply (dict_get_set_other _ nat_eqb_eq).
Qed.

Lemma dict_append_candidates m e x e' d :
  In d (candidates_of (dict_append m e x) e') <->
  In d (candidates_of m e') \/ (d = x /\ e = e').
Proof.
  unfold candidates_of at 1. rewrite dict_append_get.
  destruct (e' =? e) eqn:E.
  - apply Nat.eqb_eq in E. subst. rewrite in_app_iff. cbn [In]. intuition.
  - apply Nat.eqb_neq in E. fold (candidates_of m e'). intuition congruence.
Qed.

Lemma dict_append_no_empty m e x :
  no_empty_entry m -> no_empty_entry (dict_append m e x).
Proof.
  intros H e'. rewrite dict_append_get. destruct (e' =? e); [|apply H].
  intro Heq. injection Heq as Heq. now destruct (candidates_of m e).
Qed.

Lemma add_candidates_spec (es : list nat) t q : forall m,
  (forall e d, In d (candidates_of (add_candidates m es t q) e) <->
               In d (candidates_of m e) \/ (d = (t, q) /\ In e es)) /\
  (no_empty_entry m -> no_empty_entry (add_candidates m es t q)) /\
  (NoDup (map fst m) -> NoDup (map fst (add_candidates m es t q))).
Proof.
  unfold add_candidates.
  induction es as [|e0 es IH]; intro m; cbn [fold_left].
  - split; [|split]; auto. intros e d. cbn [In]. tauto.
  - destruct (IH (dict_append m e0 (t, q))) as (H1 & H2 & H3).
    split; [|split].
    + intros e d. rewrite H1, dict_append_candidates. cbn [In]. intuition.
    + intro Hc. apply H2. now apply dict_append_no_empty.
    + intro Hnd. apply H3. unfold dict_append.
      now apply (dict_set_NoDup _ nat_eqb_eq).
Qed.

Lemma aggregate_spec (batches : list (list nat * Detection)) : forall m,
  (forall e d, In d (candidates_of (aggregate batches m) e) <->
               In d (candidates_of m e) \/ detects batches e d) /\
  (no_empty_entry m -> no_empty_entry (aggregate batches m)) /\
  (NoDup (map fst m) -> NoDup (map fst (aggregate batches m))).
Proof.
  unfold aggregate, detects.
  induction batches as [|[es [t q]] batches IH]; intro m; cbn [fold_left].
  - split; [|split]; auto. intros e d. split; [now left|].
    intros [H | (es & [] & _)]. exact H.
  - cbn [fst snd].
    destruct (IH (add_candidates m es t q)) as (H1 & H2 & H3).
    destruct (add_candidates_spec es t q m) as (A1 & A2 & A3).
    split; [|split]; auto.
    intros e d. rewrite H1, A1. split.
    + intros [[H | [-> Hin]] | (es' & Hb & Hin)]; auto.
      * right. exists es. split; [now left | exact Hin].
      * right. exists es'. split; [now right | exact Hin].
    + intros [H | (es' & [Heq | Hb] & Hin)]; auto.
      * injection Heq as <- <-. left. right. auto.
      * right. exists es'. auto.
Qed.

Lemma aggregate_candidates (batches : list (list nat * Detection)) e d :
  In d (candidates_of (aggregate batches []) e) <-> detects batches e d.
Proof.
  destruct (aggregate_spec batches []) as (H & _). rewrite H.
  cbn. tauto.
Qed.

Lemma aggregate_no_empty (batches : list (list nat * Detection)) :
  no_empty_entry (aggregate batches []).
Proof.
  destruct (aggregate_spec batches []) as (_ & H & _). apply H.
  intros e. discriminate.
Qed.

Lemma aggregate_NoDup (batches : list (list nat * Detection)) :
  NoDup (map fst (aggregate batches [])).
Proof.
  destruct (aggregate_spec batches []) as (_ & _ & H). apply H. constructor.
Qed.

(** The resolved tag of an edge after aggregation and resolution. *)
Lemma aggregate_resolved (batches : list (list nat * Detection)) e :
  dict_get Nat.eqb (fst (priority_resolution (aggregate batches []))) e =
  winner (candidates_of (aggregate batches []) e).
Proof.
  rewrite (resolved_tag_lookup _ e (aggregate_NoDup batches)).
  unfold candidates_of.
  now destruct (dict_get Nat.eqb (aggregate batches []) e).
Qed.

(** Two sequences of batches that record the same detections for the same
    edges give every edge the same resolved tag, provided the detections are
    of recognised types and each type comes with one metric. *)
Lemma resolution_order_independent (bs bs' : list (list nat * Detection)) :
  (forall e d, detects bs e d <-> detects bs' e d) ->
  (forall es d, In (es, d) bs -> prio d <> None) ->
  (forall es1 d1 es2 d2, In (es1, d1) bs -> In (es2, d2) bs ->
                         fst d1 = fst d2 -> d1 = d2) ->
  forall e,
    dict_get Nat.eqb (fst (priority_resolution (aggregate bs []))) e =
    dict_get Nat.eqb (fst (priority_resolution (aggregate bs' []))) e.
Proof.
  intros Hsame Hknown Hcons e. rewrite !aggregate_resolved.
  pose proof (aggregate_candidates bs e) as Hc.
  pose proof (aggregate_candidates bs' e) as Hc'.
  set (ds := candidates_of (aggregate bs []) e) in *.
  set (ds' := candidates_of (aggregate bs' []) e) in *.
  assert (Hmem : forall d, In d ds <-> In d ds').
  { intro d. rewrite Hc, Hc'. apply Hsame. }
  destruct ds as [|d0 ds0] eqn:Eds.
  - destruct ds' as [|d0' ds0']; [reflexivity|].
    exfalso. apply (proj2 (Hmem d0')). now left.
  - destruct ds' as [|d0' ds0'] eqn:Eds'.
    + exfalso. apply (proj1 (Hmem d0)). now left.
    + destruct (winner_nonempty (d0 :: ds0)) as (w & Hw); [discriminate|].
      destruct (winner_nonempty (d0' :: ds0')) as (w' & Hw'); [discriminate|].
      rewrite Hw, Hw'. f_equal.
      destruct (winner_order_independent _ _ _ _ Hmem Hw Hw') as (_ & Heq).
      * exists d0. split; [now left|].
        destruct (proj1 (Hc d0) (or_introl eq_refl)) as (es & Hb & _).
        exact (Hknown es d0 Hb).
      * apply Heq. intros d1 d2 H1 H2 Hty.
        destruct (proj1 (Hc d1) H1) as (es1 & Hb1 & _).
        destruct (proj1 (Hc d2) H2) as (es2 & Hb2 & _).
        exact (Hcons es1 d1 es2 d2 Hb1 Hb2 Hty).
Qed.

Lemma aggregate_app (a b : list (list nat * Detection)) m :
  aggregate (a ++ b) m = aggregate b (aggregate a m).
Proof. unfold aggregate. apply fold_left_app. Qed.

Lemma winner_same_members ds ds' :
  (forall d, In d ds <-> In d ds') ->
  (forall d, In d ds -> prio d <> None) ->
  (forall d1 d2, In d1 ds -> In d2 ds -> fst d1 = fst d2 -> d1 = d2) ->
  winner ds' = winner ds.
Proof.
  intros Hmem Hknown Hcons.
  destruct ds as [|d0 ds0].
  - destruct ds' as [|d0' ds0']; [reflexivity|].
    exfalso. apply (proj2 (Hmem d0')). now left.
  - destruct ds' as [|d0' ds0'].
    + exfalso. apply (proj1 (Hmem d0)). now left.
    + destruct (winner_nonempty (d0 :: ds0)) as (w & Hw); [discriminate|].
      destruct (winner_nonempty (d0' :: ds0')) as (w' & Hw'); [discriminate|].
      rewrite Hw, Hw'. f_equal. symmetry.
      destruct (winner_order_independent _ _ _ _ Hmem Hw Hw') as (_ & Heq);
        [|now apply Heq].
      exists d0. split; [now left | apply Hknown; now left].
Qed.

(** ** AM2b: the authored-data scan *)

Lemma dict_add_edge_get (d : list (string * edge_set)) t i t' :
  dict_get String.eqb (dict_add_edge d t i) t' =
  if String.eqb t' t then option_map (edge_add i) (dict_get String.eqb d t)
  else dict_get String.eqb d t'.
Proof.
  unfold dict_add_edge.
  destruct (dict_get String.eqb d t) as [s|] eqn:E.
  - destruct (String.eqb t' t) eqn:Et.
    + apply String.eqb_eq in Et. subst t'. cbn.
      apply (dict_get_set_same _ str_eqb_eq).
    + apply String.eqb_neq in Et. now apply (dict_get_set_other _ str_eqb_eq).
  - destruct (String.eqb t' t) eqn:Et; [|reflexivity].
    apply String.eqb_eq in Et. subst t'. now rewrite E.
Qed.

Lemma dict_add_edge_keys (d : list (string * edge_set)) t i :
  map fst (dict_add_edge d t i) = map fst d.
Proof.
  unfold dict_add_edge. destruct (dict_get String.eqb d t) as [s|] eqn:E;
    [|reflexivity].
  apply (dict_set_key_fixed _ str_eqb_eq).
  apply (dict_get_In _ str_eqb_eq) in E.
  change t with (fst (t, s)). now apply in_map.
Qed.

Section AuthoredScanFacts.
Variable Vector : Type.

Lemma collect_if_In (test : BMEdge Vector -> bool) items : forall acc e,
  In e (collect_if test items acc) <->
  In e acc \/ exists x, In (e, x) items /\ test x = true.
Proof.
  unfold collect_if.
  induction items as [|[i y] items IH]; intros acc e; cbn [fold_left fst snd].
  - split; [now left | intros [H | (x & [] & _)]; exact H].
  - rewrite IH. split.
    + intros [H | (x & Hin & Ht)].
      * destruct (test y) eqn:Ey; [|now left].
        apply edge_add_In in H. destruct H as [-> | H]; [|now left].
        right. exists y. split; [now left | exact Ey].
      * right. exists x. split; [now right | exact Ht].
    + intros [H | (x & [Heq | Hin] & Ht)].
      * left. destruct (test y); [apply edge_add_In; now right | exact H].
      * injection Heq as <- <-. rewrite Ht. left. apply edge_add_In. now left.
      * right. eauto.
Qed.

Lemma collect_if_NoDup (test : BMEdge Vector -> bool) items : forall acc,
  NoDup acc -> NoDup (collect_if test items acc).
Proof.
  unfold collect_if.
  induction items as [|[i y] items IH]; intros acc Hnd; cbn [fold_left fst snd];
    [exact Hnd|].
  apply IH. destruct (test y); [now apply edge_add_NoDup | exact Hnd].
Qed.

(** One iteration: it raises when it reads an attribute the edge lacks, and
    otherwise adds the edge to the sharp and seam sets as the two tests
    say. *)
Lemma am2b_step_spec a b c d e f acc i (x : BMEdge Vector) :
  am2b_step a b c d e f acc (i, x) =
  if reads_missing_attribute a b e x then Raised
  else Returned
         (let d1 := if sharp_test a x
                    then dict_add_edge acc TYPE_BLENDER_SHARP i else acc in
          if seam_test d x then dict_add_edge d1 TYPE_BLENDER_SEAM i else d1).
Proof.
  unfold am2b_step, reads_missing_attribute, sharp_test, seam_test,
    use_edge_sharp, crease, bevel_weight.
  destruct a, (smooth x), b, e; reflexivity.
Qed.

Lemma am2b_step_get a b c d e f acc i (x : BMEdge Vector) acc' t :
  am2b_step a b c d e f acc (i, x) = Returned acc' ->
  dict_get String.eqb acc' t =
  option_map (fun s => if am2b_test a d t x then edge_add i s else s)
             (dict_get String.eqb acc t).
Proof.
  rewrite am2b_step_spec.
  destruct (reads_missing_attribute a b e x); [discriminate|].
  intro H. injection H as <-. cbv zeta. unfold am2b_test.
  destruct (sharp_test a x), (seam_test d x);
    rewrite ?dict_add_edge_get;
    destruct (String.eqb t TYPE_BLENDER_SHARP) eqn:E1;
    try (apply String.eqb_eq in E1; subst t; cbn;
         now destruct (dict_get String.eqb acc TYPE_BLENDER_SHARP));
    destruct (String.eqb t TYPE_BLENDER_SEAM) eqn:E2;
    try (apply String.eqb_eq in E2; subst t; cbn;
         now destruct (dict_get String.eqb acc TYPE_BLENDER_SEAM));
    now destruct (dict_get String.eqb acc t).
Qed.

Lemma am2b_step_keys a b c d e f acc (item : nat * BMEdge Vector) acc' :
  am2b_step a b c d e f acc item = Returned acc' ->
  map fst acc' = map fst acc.
Proof.
  destruct item as [i x]. rewrite am2b_step_spec.
  destruct (reads_missing_attribute a b e x); [discriminate|].
  intro H. injection H as <-. cbv zeta.
  destruct (sharp_test a x), (seam_test d x);
    rewrite ?dict_add_edge_keys; reflexivity.
Qed.

Lemma am2b_fold_Raised a b c d e f (items : list (nat * BMEdge Vector)) :
  forall acc,
    for_each (am2b_step a b c d e f) items acc = Raised <->
    exists i x, In (i, x) items /\ reads_missing_attribute a b e x = true.
Proof.
  induction items as [|[i x] items IH]; intro acc; cbn [for_each].
  - split; [discriminate | intros (? & ? & [] & _)].
  - rewrite and_then_Raised, am2b_step_spec. split.
    + intros [H | (acc' & _ & H)].
      * exists i, x. split; [now left|].
        now destruct (reads_missing_attribute a b e x).
      * apply IH in H. destruct H as (j & y & Hin & Hr).
        exists j, y. split; [now right | exact Hr].
    + intros (j & y & [Heq | Hin] & Hr).
      * injection Heq as <- <-. left. now rewrite Hr.
      * destruct (reads_missing_attribute a b e x); [now left|].
        right. eexists. split; [reflexivity|]. apply IH. eauto.
Qed.

Lemma am2b_fold_get a b c d e f (items : list (nat * BMEdge Vector)) t :
  forall acc acc',
    for_each (am2b_step a b c d e f) items acc = Returned acc' ->
    dict_get String.eqb acc' t =
    option_map (collect_if (am2b_test a d t) items) (dict_get String.eqb acc t).
Proof.
  induction items as [|[i x] items IH]; intros acc acc' Hrun; cbn [for_each] in Hrun.
  - injection Hrun as <-. now destruct (dict_get String.eqb acc t).
  - apply and_then_Returned in Hrun. destruct Hrun as (acc1 & Hstep & Hrest).
    rewrite (IH _ _ Hrest), (am2b_step_get _ _ _ _ _ _ _ _ _ _ t Hstep).
    now destruct (dict_get String.eqb acc t).
Qed.

Lemma am2b_fold_keys a b c d e f (items : list (nat * BMEdge Vector)) acc acc' :
  for_each (am2b_step a b c d e f) items acc = Returned acc' ->
  map fst acc' = map fst acc.
Proof.
  intro Hrun.
  apply (for_each_invariant (am2b_step a b c d e f)
           (fun st => map fst st = map fst acc) items) with (st := acc); auto.
  intros st item st' _ Hst Hstep.
  rewrite (am2b_step_keys _ _ _ _ _ _ _ _ _ Hstep). exact Hst.
Qed.

(** The scan raises exactly on a mesh with an edge at which it reads a
    missing attribute. *)
Lemma am2b_Raised (m : BMesh Vector) a b c d e f :
  am2b_existing_blender_data_scan (Some m) a b c d e f = Raised <->
  exists x, In x (edges m) /\ reads_missing_attribute a b e x = true.
Proof.
  unfold am2b_existing_blender_data_scan.
  destruct (edges m) as [|x xs] eqn:Hes.
  - split; [discriminate | intros (? & [] & _)].
  - rewrite am2b_fold_Raised, <- Hes. split.
    + intros (i & y & Hin & Hr). exists y. split; [|exact Hr].
      apply In_enumerate in Hin. eapply nth_error_In. exact Hin.
    + intros (y & Hin & Hr). apply In_nth_error in Hin.
      destruct Hin as (i & Hi). exists i, y. split; [|exact Hr].
      now apply In_enumerate.
Qed.

Lemma am2b_keys (bm : option (BMesh Vector)) a b c d e f cbt :
  am2b_existing_blender_data_scan bm a b c d e f = Returned cbt ->
  map fst cbt =
  [ TYPE_BLENDER_SHARP; TYPE_BLENDER_CREASE; TYPE_BLENDER_SEAM;
    TYPE_BLENDER_BEVEL ].
Proof.
  unfold am2b_existing_blender_data_scan.
  destruct bm as [m|]; [|intro H; now injection H as <-].
  destruct (edges m) as [|x xs]; [intro H; now injection H as <-|].
  intro H. now rewrite (am2b_fold_keys _ _ _ _ _ _ _ _ _ H).
Qed.

(** The set a returning scan stores under one of its four keys. *)
Lemma am2b_entry (m : BMesh Vector) a b c d e f cbt t :
  am2b_existing_blender_data_scan (Some m) a b c d e f = Returned cbt ->
  In t [ TYPE_BLENDER_SHARP; TYPE_BLENDER_CREASE; TYPE_BLENDER_SEAM;
         TYPE_BLENDER_BEVEL ] ->
  dict_get String.eqb cbt t =
  Some (collect_if (am2b_test a d t) (enumerate (edges m)) []).
Proof.
  intros Hrun Ht. unfold am2b_existing_blender_data_scan in Hrun.
  assert (Hget : dict_get String.eqb am2b_empty t = Some []).
  { cbn in Ht. repeat (destruct Ht as [<- | Ht]; [reflexivity|]). destruct Ht. }
  destruct (edges m) as [|x xs].
  - injection Hrun as <-. exact Hget.
  - rewrite (am2b_fold_get _ _ _ _ _ _ _ t _ _ Hrun), Hget. reflexivity.
Qed.

Lemma am2b_entry_In (m : BMesh Vector) a b c d e f cbt t i :
  am2b_existing_blender_data_scan (Some m) a b c d e f = Returned cbt ->
  In t [ TYPE_BLENDER_SHARP; TYPE_BLENDER_CREASE; TYPE_BLENDER_SEAM;
         TYPE_BLENDER_BEVEL ] ->
  (In i (entry_of cbt t) <->
   exists x, nth_error (edges m) i = Some x /\ am2b_test a d t x = true).
Proof.
  intros Hrun Ht. unfold entry_of. rewrite (am2b_entry m _ _ _ _ _ _ _ t Hrun Ht).
  rewrite collect_if_In. split.
  - intros [[] | (x & Hin & Htest)]. exists x. split; [|exact Htest].
    now apply In_enumerate.
  - intros (x & Hn & Htest). right. exists x. split; [|exact Htest].
    now apply In_enumerate.
Qed.

Lemma am2b_entry_NoDup (bm : option (BMesh Vector)) a b c d e f cbt t :
  am2b_existing_blender_data_scan bm a b c d e f = Returned cbt ->
  NoDup (entry_of cbt t).
Proof.
  intro Hrun. unfold entry_of.
  destruct (dict_get String.eqb cbt t) as [s|] eqn:Hget; [|constructor].
  assert (Hin : In t (map fst cbt)).
  { apply (dict_get_In _ str_eqb_eq) in Hget.
    change t with (fst (t, s)). now apply in_map. }
  rewrite (am2b_keys _ _ _ _ _ _ _ _ Hrun) in Hin.
  destruct bm as [m|].
  - rewrite (am2b_entry m _ _ _ _ _ _ _ t Hrun Hin) in Hget. injection Hget as <-.
    apply collect_if_NoDup. constructor.
  - cbn in Hrun. injection Hrun as <-. cbn in Hin.
    destruct Hin as [<- | [<- | [<- | [<- | []]]]];
      cbn in Hget; injection Hget as <-; constructor.
Qed.
End AuthoredScanFacts.

(** ** The detection pass *)

Section DetectionPass.
Variable Vector : Type.
Variable angle : Vector -> Vector -> Outcome Q.

Lemma existing_fold_fst (l : list (string * edge_set)) : forall m out,
  fst (add_existing_data l (m, out)) =
  aggregate (map (fun kv => (snd kv, (fst kv, 1%Q))) l) m.
Proof.
  unfold add_existing_data.
  induction l as [|[t es] l IH]; intros m out; [reflexivity|].
  cbn [fold_left map]. rewrite IH. reflexivity.
Qed.

(** The candidate map of the pass is the aggregation of the detector
    batches in the order of the orchestrator; there is none exactly when
    there are no batches, AM2a or AM2b having raised. *)
Lemma collect_candidates_aggregate (bm : option (BMesh Vector)) (s : Settings) :
  fst (collect_candidates angle bm s) =
  outcome_map (fun batches => aggregate batches [])
              (detector_batches angle bm s).
Proof.
  unfold collect_candidates, detector_batches, outcome_map.
  destruct (am2a_dihedral_angle_analysis angle bm (auto_sharp_primary_angle s))
    as [angle_sharps|]; cbn [and_then fst]; [|reflexivity].
  destruct (am2b_existing_blender_data_scan bm _ _ _ _ _ _)
    as [existing_data_map|]; cbn [and_then fst]; [|reflexivity].
  rewrite !aggregate_app.
  match goal with
  | |- context [add_existing_data ?l (?m0, ?o0)] =>
      pose proof (existing_fold_fst l m0 o0) as Hfold;
      destruct (add_existing_data l (m0, o0)) as [map2 out2]
  end.
  cbn [fst] in Hfold. subst map2.
  destruct (auto_sharp_use_curvature s).
  - destruct (am2c_curvature_based_analysis bm _) as [cs o].
    destruct (auto_sharp_preserve_uv_boundaries s).
    + destruct (am2d_uv_island_boundary_analysis bm) as [uvb o']. reflexivity.
    + reflexivity.
  - destruct (auto_sharp_preserve_uv_boundaries s).
    + destruct (am2d_uv_island_boundary_analysis bm) as [uvb o']. reflexivity.
    + reflexivity.
Qed.

(** The batches of a pass whose detectors returned. *)
Lemma detector_batches_Returned (bm : option (BMesh Vector)) (s : Settings)
  batches :
  detector_batches angle bm s = Returned batches ->
  exists angle_sharps existing_data_map,
    am2a_dihedral_angle_analysis angle bm (auto_sharp_primary_angle s)
      = Returned angle_sharps /\
    am2b_existing_blender_data_scan bm
      (auto_sharp_use_existing_sharps s)
      (auto_sharp_use_existing_creases s) (auto_sharp_min_crease_value s)
      (auto_sharp_use_existing_seams s)
      (auto_sharp_use_bevel_weights s) (auto_sharp_min_bevel_weight s)
      = Returned existing_data_map /\
    batches =
      [ (angle_sharps, (TYPE_ANGLE_SHARP, auto_sharp_primary_angle s)) ]
      ++ map (fun kv => (snd kv, (fst kv, 1%Q))) existing_data_map
      ++ (if auto_sharp_use_curvature s
          then [ (fst (am2c_curvature_based_analysis bm
                         (auto_sharp_curvature_sensitivity s)),
                  (TYPE_CURVATURE_SHARP, auto_sharp_curvature_sensitivity s)) ]
          else [])
      ++ (if auto_sharp_preserve_uv_boundaries s
          then [ (fst (am2d_uv_island_boundary_analysis bm),
                  (TYPE_UV_SEAM_BOUNDARY, 1%Q)) ]
          else []).
Proof.
  unfold detector_batches. intro H.
  apply and_then_Returned in H. destruct H as (A & HA & H).
  apply and_then_Returned in H. destruct H as (B & HB & H).
  injection H as <-. exists A, B. auto.
Qed.

Lemma detector_batches_Raised (bm : option (BMesh Vector)) (s : Settings) :
  detector_batches angle bm s = Raised <->
  am2a_dihedral_angle_analysis angle bm (auto_sharp_primary_angle s) = Raised \/
  am2b_existing_blender_data_scan bm
    (auto_sharp_use_existing_sharps s)
    (auto_sharp_use_existing_creases s) (auto_sharp_min_crease_value s)
    (auto_sharp_use_existing_seams s)
    (auto_sharp_use_bevel_weights s) (auto_sharp_min_bevel_weight s) = Raised.
Proof.
  unfold detector_batches.
  destruct (am2a_dihedral_angle_analysis angle bm _) as [A|]; cbn [and_then].
  - destruct (am2b_existing_blender_data_scan bm _ _ _ _ _ _) as [B|];
      cbn [and_then]; split; auto; try discriminate.
    intros [H | H]; discriminate.
  - split; auto.
Qed.

Lemma detector_batches_detections (bm : option (BMesh Vector)) (s : Settings)
  batches :
  detector_batches angle bm s = Returned batches ->
  map snd batches =
  [ (TYPE_ANGLE_SHARP, auto_sharp_primary_angle s);
    (TYPE_BLENDER_SHARP, 1%Q); (TYPE_BLENDER_CREASE, 1%Q);
    (TYPE_BLENDER_SEAM, 1%Q); (TYPE_BLENDER_BEVEL, 1%Q) ]
  ++ (if auto_sharp_use_curvature s
      then [ (TYPE_CURVATURE_SHARP, auto_sharp_curvature_sensitivity s) ]
      else [])
  ++ (if auto_sharp_preserve_uv_boundaries s
      then [ (TYPE_UV_SEAM_BOUNDARY, 1%Q) ] else []).
Proof.
  intro H. apply detector_batches_Returned in H.
  destruct H as (A & B & _ & HB & ->).
  rewrite !map_app, map_map. cbn [map snd app].
  f_equal.
  rewrite <- (map_map fst (fun k => (k, 1%Q))),
    (am2b_keys _ _ _ _ _ _ _ _ _ HB). cbn [map app].
  do 4 f_equal.
  destruct (auto_sharp_use_curvature s), (auto_sharp_preserve_uv_boundaries s);
    reflexivity.
Qed.

Lemma detector_batches_In (bm : option (BMesh Vector)) (s : Settings)
  batches es d :
  detector_batches angle bm s = Returned batches ->
  In (es, d) batches ->
  d = (TYPE_ANGLE_SHARP, auto_sharp_primary_angle s) \/
  d = (TYPE_BLENDER_SHARP, 1%Q) \/ d = (TYPE_BLENDER_CREASE, 1%Q) \/
  d = (TYPE_BLENDER_SEAM, 1%Q) \/ d = (TYPE_BLENDER_BEVEL, 1%Q) \/
  d = (TYPE_CURVATURE_SHARP, auto_sharp_curvature_sensitivity s) \/
  d = (TYPE_UV_SEAM_BOUNDARY, 1%Q).
Proof.
  intros Hb Hin. apply (in_map snd) in Hin. cbn [snd] in Hin.
  rewrite (detector_batches_detections _ _ _ Hb) in Hin.
  destruct (auto_sharp_use_curvature s), (auto_sharp_preserve_uv_boundaries s);
    cbn in Hin; intuition.
Qed.

Lemma detector_batches_known (bm : option (BMesh Vector)) (s : Settings)
  batches es d :
  detector_batches angle bm s = Returned batches ->
  In (es, d) batches -> prio d <> None.
Proof.
  intros Hb Hin. apply (detector_batches_In _ _ _ _ _ Hb) in Hin.
  repeat (destruct Hin as [-> | Hin]); [..|subst d]; discriminate.
Qed.

Lemma detector_batches_one_metric (bm : option (BMesh Vector)) (s : Settings)
  batches es1 d1 es2 d2 :
  detector_batches angle bm s = Returned batches ->
  In (es1, d1) batches -> In (es2, d2) batches ->
  fst d1 = fst d2 -> d1 = d2.
Proof.
  intros Hb H1 H2.
  apply (detector_batches_In _ _ _ _ _ Hb) in H1.
  apply (detector_batches_In _ _ _ _ _ Hb) in H2.
  repeat (destruct H1 as [-> | H1]); [..|subst d1];
    repeat (destruct H2 as [-> | H2]); try subst d2;
    cbn [fst]; intro Hty; try reflexivity; discriminate Hty.
Qed.

Lemma resolved_tag_batches (bm : option (BMesh Vector)) (s : Settings)
  batches e :
  detector_batches angle bm s = Returned batches ->
  resolved_tag angle bm s e =
  dict_get Nat.eqb (fst (priority_resolution (aggregate batches []))) e.
Proof.
  intro Hb. unfold resolved_tag.
  now rewrite collect_candidates_aggregate, Hb.
Qed.

(** C5. The detection pass is a function of the mesh and the settings, and
    the tag it resolves for an edge (and with it the selected edge set)
    depends on neither the order in which the detectors' outputs are
    aggregated, nor the order in which the edges of one output are
    visited, nor the order of the candidates in an edge's list: any
    sequence of batches recording the same detections for the same edges
    resolves every edge to the same tag, and any list with the members of
    an edge's candidate list has the same winner.  (When a detector raises
    there are no batches and no candidate map at all.) *)
Theorem detection_pass_deterministic_order_independent :
  forall (bm : option (BMesh Vector)) (settings : Settings),
    fst (collect_candidates angle bm settings)
      = outcome_map (fun batches => aggregate batches [])
                    (detector_batches angle bm settings) /\
    (forall batches batches' : list (list nat * Detection),
       detector_batches angle bm settings = Returned batches ->
       (forall e d, detects batches e d <-> detects batches' e d) ->
       (forall e,
          dict_get Nat.eqb (fst (priority_resolution (aggregate batches' []))) e
          = resolved_tag angle bm settings e) /\
       (forall (m : BMesh Vector) (mfl : Z) e,
          In e (fst (am3_filter_refine_prioritize (Some m)
                       (aggregate batches' []) mfl)) <->
          In e (fst (am3_filter_refine_prioritize (Some m)
                       (aggregate batches []) mfl)))) /\
    (forall (all_detected_candidates_map : CandidateMap) e
            (detections' : list Detection),
       fst (collect_candidates angle bm settings)
         = Returned all_detected_candidates_map ->
       (forall d, In d (candidates_of all_detected_candidates_map e)
                  <-> In d detections') ->
       winner detections' = resolved_tag angle bm settings e).
Proof.
  intros bm s.
  pose proof (collect_candidates_aggregate bm s) as Hagg.
  split; [exact Hagg|]. split.
  - intros bs bs' Hb Hsame.
    assert (Hres : forall e,
               dict_get Nat.eqb (fst (priority_resolution (aggregate bs' []))) e
               = dict_get Nat.eqb (fst (priority_resolution (aggregate bs []))) e).
    { intro e. symmetry.
      apply resolution_order_independent; auto.
      - intros es d. apply (detector_batches_known _ _ _ _ _ Hb).
      - intros es1 d1 es2 d2. apply (detector_batches_one_metric _ _ _ _ _ _ _ Hb). }
    split.
    + intro e. rewrite (resolved_tag_batches _ _ _ e Hb). apply Hres.
    + intros m mfl e. rewrite !am3_In. now setoid_rewrite Hres.
  - intros cm e ds' Hcm Hmem. rewrite Hagg in Hcm.
    unfold outcome_map in Hcm. apply and_then_Returned in Hcm.
    destruct Hcm as (bs & Hb & Hcm). injection Hcm as <-.
    rewrite (resolved_tag_batches _ _ _ e Hb), aggregate_resolved.
    apply winner_same_members; auto.
    + intros d Hd. apply aggregate_candidates in Hd.
      destruct Hd as (es & Hin & _).
      exact (detector_batches_known _ _ _ _ _ Hb Hin).
    + intros d1 d2 H1 H2. apply aggregate_candidates in H1, H2.
      destruct H1 as (es1 & Hb1 & _), H2 as (es2 & Hb2 & _).
      exact (detector_batches_one_metric _ _ _ _ _ _ _ Hb Hb1 Hb2).
Qed.
End DetectionPass.

(** The batches of the pass on the junction star: the dihedral-angle
    detector finds the bent edge, the authored-data scan the three seams. *)
Example junction_star_batches :
  detector_batches heading_angle (Some junction_star) seams_only_settings
  = Returned junction_star_outputs.
Proof. vm_compute. reflexivity. Qed.

(** ** The whole pass: when it raises and what it selects *)

Section PassFacts.
Variable Vector : Type.
Variable angle : Vector -> Vector -> Outcome Q.

Lemma am2d_emits_nothing (bm : option (BMesh Vector)) :
  fst (am2d_uv_island_boundary_analysis bm) = [].
Proof.
  unfold am2d_uv_island_boundary_analysis.
  destruct bm as [m|]; [|reflexivity].
  destruct (edges m); [reflexivity|]. now destruct (uv_active m).
Qed.

Lemma am2c_emits_nothing (bm : option (BMesh Vector)) sensitivity :
  fst (am2c_curvature_based_analysis bm sensitivity) = [].
Proof.
  unfold am2c_curvature_based_analysis.
  destruct bm as [m|]; [|reflexivity]. now destruct (edges m).
Qed.

(** How the pass ends, and the edge set it returns. *)
Lemma auto_detect_fst (m : BMesh Vector) (s : Settings) :
  fst (auto_detect_and_mark_edges angle (Some m) (Some s)) =
  if tables_ok m
  then outcome_map
         (fun cm => fst (am3_filter_refine_prioritize (Some m) cm
                           (auto_sharp_min_feature_length s)))
         (fst (collect_candidates angle (Some m) s))
  else Returned [].
Proof.
  unfold auto_detect_and_mark_edges, am1_prepare_bmesh_data.
  destruct (tables_ok m); [|reflexivity]. cbn [negb].
  destruct (collect_candidates angle (Some m) s) as [[cm|] o2];
    cbn [fst outcome_map and_then]; [|reflexivity].
  destruct cm as [|item cm]; [reflexivity|].
  destruct (am3_filter_refine_prioritize (Some m) (item :: cm)
              (auto_sharp_min_feature_length s)) as [final o4].
  now destruct final.
Qed.

(** The candidate map only depends on the dihedral-angle and authored-data
    detectors. *)
Lemma collect_emitting (bm : option (BMesh Vector)) (s : Settings) :
  fst (collect_candidates angle bm s) =
  (angle_sharps <-
     am2a_dihedral_angle_analysis angle bm (auto_sharp_primary_angle s) ;;
   existing_data_map <-
     am2b_existing_blender_data_scan bm
       (auto_sharp_use_existing_sharps s)
       (auto_sharp_use_existing_creases s) (auto_sharp_min_crease_value s)
       (auto_sharp_use_existing_seams s)
       (auto_sharp_use_bevel_weights s) (auto_sharp_min_bevel_weight s) ;;
   Returned
     (aggregate
        ([ (angle_sharps, (TYPE_ANGLE_SHARP, auto_sharp_primary_angle s)) ]
         ++ map (fun kv => (snd kv, (fst kv, 1%Q))) existing_data_map) [])).
Proof.
  rewrite collect_candidates_aggregate. unfold detector_batches, outcome_map.
  destruct (am2a_dihedral_angle_analysis angle bm _) as [A|]; cbn [and_then];
    [|reflexivity].
  destruct (am2b_existing_blender_data_scan bm _ _ _ _ _ _) as [B|];
    cbn [and_then]; [|reflexivity].
  rewrite !app_assoc, !aggregate_app.
  rewrite am2c_emits_nothing, am2d_emits_nothing.
  destruct (auto_sharp_use_curvature s), (auto_sharp_preserve_uv_boundaries s);
    reflexivity.
Qed.

Lemma collect_without_uv (bm : option (BMesh Vector)) (s : Settings) :
  fst (collect_candidates angle bm (without_uv s)) =
  fst (collect_candidates angle bm s).
Proof. rewrite !collect_emitting. reflexivity. Qed.

(** The edges of the emitting batches are those of the dihedral-angle set
    and of the sets of the authored-data scan. *)
Lemma emitting_detects (A : edge_set) (B : list (string * edge_set)) q e :
  NoDup (map fst B) ->
  ((exists d, detects ([ (A, (TYPE_ANGLE_SHARP, q)) ]
                       ++ map (fun kv => (snd kv, (fst kv, 1%Q))) B) e d) <->
   In e A \/ exists t, In e (entry_of B t)).
Proof.
  intro Hnd. unfold detects. split.
  - intros (d & es & Hb & He). apply in_app_or in Hb.
    destruct Hb as [[Hb | []] | Hb].
    + injection Hb as <- _. now left.
    + apply in_map_iff in Hb. destruct Hb as ([t es'] & Heq & Hin).
      cbn [fst snd] in Heq. injection Heq as -> _.
      right. exists t. unfold entry_of.
      now rewrite (In_dict_get _ str_eqb_eq _ _ _ Hnd Hin).
  - intros [He | (t & He)].
    + exists (TYPE_ANGLE_SHARP, q), A. split; [now left | exact He].
    + unfold entry_of in He.
      destruct (dict_get String.eqb B t) as [es|] eqn:Hget; [|destruct He].
      exists (t, 1%Q), es. split; [|exact He].
      apply in_or_app. right. apply in_map_iff. exists (t, es).
      split; [reflexivity|]. now apply (dict_get_In _ str_eqb_eq).
Qed.

(** What a pass whose detectors return selects. *)
Lemma pass_selects (m : BMesh Vector) (s : Settings) A B :
  tables_ok m = true ->
  am2a_dihedral_angle_analysis angle (Some m) (auto_sharp_primary_angle s)
    = Returned A ->
  am2b_existing_blender_data_scan (Some m)
    (auto_sharp_use_existing_sharps s)
    (auto_sharp_use_existing_creases s) (auto_sharp_min_crease_value s)
    (auto_sharp_use_existing_seams s)
    (auto_sharp_use_bevel_weights s) (auto_sharp_min_bevel_weight s)
    = Returned B ->
  exists final,
    fst (auto_detect_and_mark_edges angle (Some m) (Some s)) = Returned final /\
    NoDup final /\
    forall e, In e final <-> In e A \/ exists t, In e (entry_of B t).
Proof.
  intros Hok HA HB.
  rewrite auto_detect_fst, Hok, collect_emitting, HA, HB.
  cbn [and_then outcome_map]. eexists. split; [reflexivity|]. split.
  - rewrite am3_fst. apply select_fold_NoDup. constructor.
  - intro e.
    set (bs := [ (A, (TYPE_ANGLE_SHARP, auto_sharp_primary_angle s)) ]
               ++ map (fun kv => (snd kv, (fst kv, 1%Q))) B).
    assert (Hnd : NoDup (map fst B)).
    { rewrite (am2b_keys _ _ _ _ _ _ _ _ _ HB).
      repeat constructor; cbn; intuition discriminate. }
    rewrite <- (emitting_detects A B (auto_sharp_primary_angle s) e Hnd).
    fold bs. rewrite am3_In, aggregate_resolved.
    assert (Hknown : forall d, (exists es, In (es, d) bs /\ In e es) ->
                               prio d <> None).
    { intros d (es & Hb & _). unfold bs in Hb. apply in_app_or in Hb.
      destruct Hb as [[Hb | []] | Hb].
      - injection Hb as _ <-. discriminate.
      - apply in_map_iff in Hb. destruct Hb as ([t es'] & Heq & Hin).
        cbn [fst snd] in Heq. injection Heq as _ <-.
        apply (in_map fst) in Hin. cbn [fst] in Hin.
        rewrite (am2b_keys _ _ _ _ _ _ _ _ _ HB) in Hin. cbn in Hin.
        destruct Hin as [<- | [<- | [<- | [<- | []]]]]; discriminate. }
    split.
    + intros (w & Hw & _). exists w.
      apply aggregate_candidates. now apply winner_In.
    + intros (d & Hd). pose proof Hd as Hd'.
      apply aggregate_candidates in Hd.
      destruct (winner_nonempty (candidates_of (aggregate bs []) e)) as (w & Hw).
      { intro Hnil. rewrite Hnil in Hd. destruct Hd. }
      exists w. split; [exact Hw|]. apply selectable_iff_known.
      pose proof (winner_In _ _ Hw) as Hin. apply aggregate_candidates in Hin.
      exact (Hknown w Hin).
Qed.

(** The pass raises exactly when the preparation succeeds and one of the
    two detectors that read the mesh raises. *)
Lemma pass_Raised (m : BMesh Vector) (s : Settings) :
  fst (auto_detect_and_mark_edges angle (Some m) (Some s)) = Raised <->
  tables_ok m = true /\
  (am2a_dihedral_angle_analysis angle (Some m) (auto_sharp_primary_angle s)
     = Raised \/
   am2b_existing_blender_data_scan (Some m)
     (auto_sharp_use_existing_sharps s)
     (auto_sharp_use_existing_creases s) (auto_sharp_min_crease_value s)
     (auto_sharp_use_existing_seams s)
     (auto_sharp_use_bevel_weights s) (auto_sharp_min_bevel_weight s)
     = Raised).
Proof.
  rewrite auto_detect_fst, collect_emitting.
  destruct (tables_ok m).
  - destruct (am2a_dihedral_angle_analysis angle (Some m) _) as [A|];
      cbn [and_then outcome_map].
    + destruct (am2b_existing_blender_data_scan (Some m) _ _ _ _ _ _) as [B|];
        cbn [and_then]; split; auto; try discriminate.
      intros [_ [H | H]]; discriminate.
    + split; auto.
  - split; [discriminate | intros [H _]; discriminate].
Qed.

(** An edge is in one of the sets of a returning scan exactly when it
    passes the sharp or the seam test. *)
Lemma am2b_sets_In (m : BMesh Vector) a b c d e f B i :
  am2b_existing_blender_data_scan (Some m) a b c d e f = Returned B ->
  ((exists t, In i (entry_of B t)) <->
   exists x, nth_error (edges m) i = Some x /\
             (sharp_test a x = true \/ seam_test d x = true)).
Proof.
  intro HB. split.
  - intros (t & Hi). unfold entry_of in Hi.
    destruct (dict_get String.eqb B t) as [es|] eqn:Hget; [|destruct Hi].
    assert (Ht : In t [TYPE_BLENDER_SHARP; TYPE_BLENDER_CREASE;
                       TYPE_BLENDER_SEAM; TYPE_BLENDER_BEVEL]).
    { rewrite <- (am2b_keys _ _ _ _ _ _ _ _ _ HB).
      apply (dict_get_In _ str_eqb_eq) in Hget.
      change t with (fst (t, es)). now apply in_map. }
    assert (Hi' : In i (entry_of B t)) by (unfold entry_of; now rewrite Hget).
    apply (am2b_entry_In _ m _ _ _ _ _ _ _ t i HB Ht) in Hi'.
    destruct Hi' as (x & Hn & Htest). exists x. split; [exact Hn|].
    cbn in Ht. destruct Ht as [<- | [<- | [<- | [<- | []]]]];
      cbn in Htest; auto; discriminate.
  - intros (x & Hn & [H | H]).
    + exists TYPE_BLENDER_SHARP.
      apply (am2b_entry_In _ m _ _ _ _ _ _ _ _ i HB); [cbn; tauto|].
      exists x. auto.
    + exists TYPE_BLENDER_SEAM.
      apply (am2b_entry_In _ m _ _ _ _ _ _ _ _ i HB); [cbn; tauto|].
      exists x. auto.
Qed.

(** The selected set of a returning pass, edge by edge. *)
Lemma pass_In (m : BMesh Vector) (s : Settings) final :
  fst (auto_detect_and_mark_edges angle (Some m) (Some s)) = Returned final ->
  NoDup final /\
  forall e, In e final <->
            tables_ok m = true /\
            exists x, nth_error (edges m) e = Some x /\ flagged angle s x.
Proof.
  intro Hrun. destruct (tables_ok m) eqn:Hok.
  - destruct (am2a_dihedral_angle_analysis angle (Some m)
                (auto_sharp_primary_angle s)) as [A|] eqn:HA.
    + destruct (am2b_existing_blender_data_scan (Some m)
                  (auto_sharp_use_existing_sharps s)
                  (auto_sharp_use_existing_creases s)
                  (auto_sharp_min_crease_value s)
                  (auto_sharp_use_existing_seams s)
                  (auto_sharp_use_bevel_weights s)
                  (auto_sharp_min_bevel_weight s)) as [B|] eqn:HB.
      * destruct (pass_selects m s A B Hok HA HB) as (final' & Hf & Hnd & Hin).
        rewrite Hrun in Hf. injection Hf as <-. split; [exact Hnd|].
        intro e. rewrite Hin, (am2a_Returned _ _ _ _ _ HA e),
          (am2b_sets_In m _ _ _ _ _ _ B e HB).
        unfold flagged. split.
        -- intros [(x & Hn & Hs) | (x & Hn & Hs)];
             (split; [reflexivity|]); exists x; tauto.
        -- intros (_ & x & Hn & [Hs | Hs]); [left | right]; exists x; auto.
      * exfalso. assert (H : fst (auto_detect_and_mark_edges angle (Some m) (Some s))
                             = Raised) by (apply pass_Raised; auto).
        congruence.
    + exfalso. assert (H : fst (auto_detect_and_mark_edges angle (Some m) (Some s))
                           = Raised) by (apply pass_Raised; auto).
      congruence.
  - rewrite auto_detect_fst, Hok in Hrun. injection Hrun as <-.
    split; [constructor|]. intro e.
    split; [intros [] | intros [H _]; discriminate].
Qed.
End PassFacts.

(** ** The pass without a UV layer, the UV detector and the metrics *)

(** C8 (the code departs from the claim). On a mesh without a UV layer the
    UV-boundary detector does return the empty candidate set (and reports
    the missing layer), and the pass ends as it ends with the UV-boundary
    detector switched off: when the dihedral-angle detector and the
    authored-data scan return, it returns exactly the edges of their sets.
    But the pass does not complete on every such mesh: on the two-edge
    strip, which has no UV layer, the pass run with the default settings
    raises in the authored-data scan (the strip's first edge is smooth, so
    the scan reads [use_edge_sharp], which a BMEdge does not have), after
    the line of the dihedral-angle detector; with the authored sharps and
    creases switched off it completes. *)
Theorem no_uv_layer_pass_raises_in_authored_scan :
  uv_active two_edge_strip = None /\
  am2d_uv_island_boundary_analysis (Some two_edge_strip) = ([], [MsgAm2dNoUV]) /\
  auto_detect_and_mark_edges heading_angle (Some two_edge_strip)
    (Some default_settings)
    = (Raised, [MsgStart; MsgFoundAngle 2]) /\
  auto_detect_and_mark_edges heading_angle (Some two_edge_strip)
    (Some seams_only_settings)
    = (Returned [0; 1],
       [ MsgStart; MsgFoundAngle 2;
         MsgFoundExisting TYPE_BLENDER_SHARP 0;
         MsgFoundExisting TYPE_BLENDER_CREASE 0;
         MsgFoundExisting TYPE_BLENDER_SEAM 0;
         MsgFoundExisting TYPE_BLENDER_BEVEL 0;
         MsgAm2cStub (1 # 2); MsgFoundCurvature 0;
         MsgAm2dNoUV; MsgFoundUV 0;
         MsgTotalUnique 2; MsgAm3Stub; MsgAm3Selected 2 ]) /\
  (forall (Vector : Type) (angle : Vector -> Vector -> Outcome Q)
          (m : BMesh Vector) (settings : Settings),
     uv_active m = None ->
     fst (am2d_uv_island_boundary_analysis (Some m)) = [] /\
     (edges m <> [] ->
      snd (am2d_uv_island_boundary_analysis (Some m)) = [MsgAm2dNoUV]) /\
     fst (auto_detect_and_mark_edges angle (Some m) (Some settings))
       = fst (auto_detect_and_mark_edges angle (Some m)
                (Some (without_uv settings))) /\
     (forall angle_sharps existing_data_map,
        tables_ok m = true ->
        am2a_dihedral_angle_analysis angle (Some m)
          (auto_sharp_primary_angle settings) = Returned angle_sharps ->
        am2b_existing_blender_data_scan (Some m)
          (auto_sharp_use_existing_sharps settings)
          (auto_sharp_use_existing_creases settings)
          (auto_sharp_min_crease_value settings)
          (auto_sharp_use_existing_seams settings)
          (auto_sharp_use_bevel_weights settings)
          (auto_sharp_min_bevel_weight settings) = Returned existing_data_map ->
        exists final_edges_to_mark,
          fst (auto_detect_and_mark_edges angle (Some m) (Some settings))
            = Returned final_edges_to_mark /\
          forall e, In e final_edges_to_mark <->
                    In e angle_sharps \/
                    exists t, In e (entry_of existing_data_map t)) /\
     (fst (auto_detect_and_mark_edges angle (Some m) (Some settings)) = Raised <->
      tables_ok m = true /\
      (am2a_dihedral_angle_analysis angle (Some m)
         (auto_sharp_primary_angle settings) = Raised \/
       am2b_existing_blender_data_scan (Some m)
         (auto_sharp_use_existing_sharps settings)
         (auto_sharp_use_existing_creases settings)
         (auto_sharp_min_crease_value settings)
         (auto_sharp_use_existing_seams settings)
         (auto_sharp_use_bevel_weights settings)
         (auto_sharp_min_bevel_weight settings) = Raised))).
Proof.
  split; [reflexivity|]. split; [reflexivity|].
  split; [vm_compute; reflexivity|]. split; [vm_compute; reflexivity|].
  intros Vector angle m s Huv.
  split; [apply am2d_emits_nothing|]. split; [|split; [|split]].
  - intro Hne. unfold am2d_uv_island_boundary_analysis.
    destruct (edges m); [congruence|]. now rewrite Huv.
  - rewrite !auto_detect_fst, collect_without_uv. reflexivity.
  - intros A B Hok HA HB.
    destruct (pass_selects Vector angle m s A B Hok HA HB)
      as (final & Hf & _ & Hin).
    exists final. auto.
  - apply pass_Raised.
Qed.

(** C7 (the code departs from the claim). The metric the pass records is
    not source-specific: an ANGLE_SHARP candidate carries the angle
    threshold of the settings, which is strictly smaller than the dihedral
    angle of the edge it is recorded for, and the candidates recorded from
    the authored-data scan, BLENDER_CREASE and BLENDER_BEVEL among them,
    carry the default 1.0 whatever the edge.  On the two-edge strip, whose
    edges are bent by 1 radian, the recorded metric is the threshold 1/2. *)
Theorem candidate_metric_is_threshold_or_default :
  (exists edge face1 face2,
     nth_error (edges two_edge_strip) 0 = Some edge /\
     link_faces edge = [face1; face2] /\
     heading_angle (normal face1) (normal face2) = Returned 1%Q) /\
  fst (collect_candidates heading_angle (Some two_edge_strip) seams_only_settings)
    = Returned two_edge_strip_sources /\
  auto_sharp_primary_angle seams_only_settings = 1 # 2 /\
  (forall (Vector : Type) (angle : Vector -> Vector -> Outcome Q)
          (m : BMesh Vector) (settings : Settings)
          (all_detected_candidates_map : CandidateMap) (e : nat) (q : Q),
     fst (collect_candidates angle (Some m) settings)
       = Returned all_detected_candidates_map ->
     (In (TYPE_ANGLE_SHARP, q) (candidates_of all_detected_candidates_map e) ->
      q = auto_sharp_primary_angle settings /\
      exists edge face1 face2 a,
        nth_error (edges m) e = Some edge /\
        link_faces edge = [face1; face2] /\
        angle (normal face1) (normal face2) = Returned a /\
        (q < a)%Q) /\
     (In (TYPE_BLENDER_CREASE, q) (candidates_of all_detected_candidates_map e) ->
      q = 1%Q) /\
     (In (TYPE_BLENDER_BEVEL, q) (candidates_of all_detected_candidates_map e) ->
      q = 1%Q)) /\
  (forall (existing_data_map : list (string * edge_set))
          (all_detected_candidates_map : CandidateMap) (out : list Message)
          (e : nat) (d : Detection),
     In d (candidates_of
             (fst (add_existing_data existing_data_map
                     (all_detected_candidates_map, out))) e) ->
     In d (candidates_of all_detected_candidates_map e) \/
     (snd d = 1%Q /\ exists es, In (fst d, es) existing_data_map /\ In e es)).
Proof.
  split.
  { exists (bent_edge (0, 1)), (mkFace (Some 0%Q)), (mkFace (Some 1%Q)).
    repeat split. }
  split; [vm_compute; reflexivity|]. split; [reflexivity|]. split.
  - intros Vector angle m s cm e q Hcm.
    rewrite collect_candidates_aggregate in Hcm.
    unfold outcome_map in Hcm. apply and_then_Returned in Hcm.
    destruct Hcm as (bs & Hb & Hcm). injection Hcm as <-.
    split; [|split]; intro Hin; apply aggregate_candidates in Hin;
      destruct Hin as (es & Hin & He).
    + pose proof (detector_batches_Returned _ _ _ _ _ Hb) as (A & B & HA & HB & Hbs).
      assert (HesA : es = A /\ q = auto_sharp_primary_angle s).
      { rewrite Hbs in Hin. rewrite !in_app_iff in Hin.
        destruct Hin as [[H | []] | [H | [H | H]]].
        - injection H as <- <-. auto.
        - apply in_map_iff in H. destruct H as ([t es'] & Heq & Hin').
          cbn [fst snd] in Heq. injection Heq as -> -> <-.
          apply (in_map fst) in Hin'.
          rewrite (am2b_keys _ _ _ _ _ _ _ _ _ HB) in Hin'. cbn in Hin'.
          repeat (destruct Hin' as [Hin' | Hin']; [discriminate Hin'|]).
          destruct Hin'.
        - destruct (auto_sharp_use_curvature s); [|destruct H].
          destruct H as [H | []]. discriminate H.
        - destruct (auto_sharp_preserve_uv_boundaries s); [|destruct H].
          destruct H as [H | []]. discriminate H. }
      destruct HesA as [-> ->]. split; [reflexivity|].
      apply (am2a_Returned _ _ _ _ _ HA) in He.
      destruct He as (edge & Hn & f1 & f2 & a & Hl & Ha & Hlt).
      exists edge, f1, f2, a. auto.
    + apply (detector_batches_In _ _ _ _ _ _ _ Hb) in Hin.
      repeat (destruct Hin as [Hin | Hin]; [try discriminate Hin; congruence|]).
      discriminate Hin.
    + apply (detector_batches_In _ _ _ _ _ _ _ Hb) in Hin.
      repeat (destruct Hin as [Hin | Hin]; [try discriminate Hin; congruence|]).
      discriminate Hin.
  - intros B cm out e d Hin.
    rewrite existing_fold_fst in Hin.
    destruct (aggregate_spec (map (fun kv => (snd kv, (fst kv, 1%Q))) B) cm)
      as (Hspec & _).
    apply Hspec in Hin. destruct Hin as [Hin | (es & Hb & He)]; [now left|].
    right. apply in_map_iff in Hb. destruct Hb as ([t es'] & Heq & Hin').
    cbn [fst snd] in Heq. injection Heq as -> <-. cbn [fst snd].
    split; [reflexivity|]. exists es. auto.
Qed.

(** C9 (the code departs from the claim). The UV-boundary detector is a
    placeholder that never emits an edge: on a mesh with a UV layer whose
    edge 0 is a boundary edge (one incident face) it returns the empty set,
    and the pass, run to its end, records no candidate for the edge and
    selects nothing, where the claim has every boundary edge emitted as a
    UV_SEAM_BOUNDARY candidate. *)
Theorem uv_detector_misses_boundary_edge :
  uv_active uv_boundary_mesh = Some 0 /\
  option_map (fun x => List.length (link_faces x))
             (nth_error (edges uv_boundary_mesh) 0) = Some 1 /\
  am2d_uv_island_boundary_analysis (Some uv_boundary_mesh) = ([], [MsgAm2dStub]) /\
  auto_sharp_preserve_uv_boundaries seams_only_settings = true /\
  fst (collect_candidates heading_angle (Some uv_boundary_mesh)
         seams_only_settings) = Returned [] /\
  fst (auto_detect_and_mark_edges heading_angle (Some uv_boundary_mesh)
         (Some seams_only_settings)) = Returned [] /\
  (forall (Vector : Type) (bm : option (BMesh Vector)),
     fst (am2d_uv_island_boundary_analysis bm) = []).
Proof.
  split; [reflexivity|]. split; [reflexivity|]. split; [reflexivity|].
  split; [reflexivity|].
  split; [vm_compute; reflexivity|]. split; [vm_compute; reflexivity|].
  intros. apply am2d_emits_nothing.
Qed.

(** ** Unrecognised detection types in AM3 and in the pass *)

(** C6. A candidate of a type outside [PRIORITY_ORDER] is reported by a
    warning, and its edge is still resolved, to one of its candidates; the
    candidate has the lowest priority: whenever the edge has a candidate of
    a recognised type, the resolved tag is of a recognised type, with the
    least index.  Nothing fails: the [ValueError] of the index lookup is
    caught, and AM3 returns its set and its log.  The edge is in the
    selected set exactly when its resolved tag is of a recognised type, so
    an edge left out has been reported; and in the pass every candidate has
    a recognised type, so every edge with a candidate is in the set a
    returning pass returns. *)
Theorem unknown_type_resolved_with_warning :
  forall (Vector : Type) (m : BMesh Vector)
         (all_candidate_sources : CandidateMap) (min_feature_length : Z)
         (e : nat) (detections : list Detection) (t : string) (q : Q),
    NoDup (map fst all_candidate_sources) ->
    dict_get Nat.eqb all_candidate_sources e = Some detections ->
    In (t, q) detections ->
    list_index t PRIORITY_ORDER = None ->
    In (MsgWarnUnknownType t)
       (snd (am3_filter_refine_prioritize (Some m) all_candidate_sources
               min_feature_length)) /\
    (exists w,
       dict_get Nat.eqb (fst (priority_resolution all_candidate_sources)) e
         = Some w /\
       In w detections /\
       (forall d k, In d detections -> prio d = Some k ->
                    exists k', prio w = Some k' /\ k' <= k) /\
       (In e (fst (am3_filter_refine_prioritize (Some m) all_candidate_sources
                     min_feature_length)) <->
        prio w <> None)) /\
    (forall (angle : Vector -> Vector -> Outcome Q) (settings : Settings)
            (all_detected_candidates_map : CandidateMap)
            (final_edges_to_mark : edge_set),
       tables_ok m = true ->
       fst (collect_candidates angle (Some m) settings)
         = Returned all_detected_candidates_map ->
       fst (auto_detect_and_mark_edges angle (Some m) (Some settings))
         = Returned final_edges_to_mark ->
       (forall e' d, In d (candidates_of all_detected_candidates_map e') ->
                     prio d <> None) /\
       (forall e', dict_get Nat.eqb all_detected_candidates_map e' <> None ->
                   In e' final_edges_to_mark)).
Proof.
  intros Vector m src mfl e ds t q Hnd Hget Hin Hnone.
  destruct (unknown_type_warned_and_outranked src e ds t q Hnd Hget Hin Hnone)
    as (Hwarn & w & Hw & _).
  split; [|split].
  - unfold am3_filter_refine_prioritize.
    destruct src as [|item src]; [discriminate Hget|].
    destruct (priority_resolution (item :: src)) as [resolved out].
    destruct (select_edges resolved) as [final geo]. cbn [snd] in *.
    apply in_or_app. now left.
  - exists w. split; [exact Hw|].
    rewrite (resolved_tag_lookup src e Hnd), Hget in Hw.
    split; [now apply winner_In|]. split.
    + intros d k Hd Hk. exact (winner_lowest ds w d k Hw Hd Hk).
    + rewrite am3_In, (resolved_tag_lookup src e Hnd), Hget, Hw. split.
      * intros (w' & Heq & Hsel). injection Heq as <-.
        now apply selectable_iff_known.
      * intro Hp. exists w. split; [reflexivity|].
        now apply selectable_iff_known.
  - intros angle s cm final Hok Hcm Hrun.
    pose proof Hcm as Hcm'.
    rewrite collect_candidates_aggregate in Hcm'.
    unfold outcome_map in Hcm'. apply and_then_Returned in Hcm'.
    destruct Hcm' as (bs & Hb & Hagg). injection Hagg as <-.
    assert (Hknown : forall e' d, In d (candidates_of (aggregate bs []) e') ->
                                  prio d <> None).
    { intros e' d Hd. apply aggregate_candidates in Hd.
      destruct Hd as (es & Hbin & _).
      exact (detector_batches_known _ _ _ _ _ _ _ Hb Hbin). }
    split; [exact Hknown|].
    intros e' He'.
    rewrite auto_detect_fst, Hok, Hcm in Hrun.
    cbn [outcome_map and_then] in Hrun.
    apply Returned_inj in Hrun. subst final.
    apply am3_In. rewrite aggregate_resolved.
    destruct (candidates_of (aggregate bs []) e') as [|d0 ds0] eqn:Hc.
    + exfalso. unfold candidates_of in Hc.
      destruct (dict_get Nat.eqb (aggregate bs []) e') as [l|] eqn:Hg;
        [|congruence].
      subst l. exact (aggregate_no_empty bs e' Hg).
    + destruct (winner_nonempty (d0 :: ds0)) as (w' & Hw'); [discriminate|].
      exists w'. split; [exact Hw'|]. apply selectable_iff_known.
      apply (Hknown e'). rewrite Hc. now apply winner_In.
Qed.

Lemma unknown_type_resolved_with_warning_witness :
  NoDup (map fst mixed_type_sources) /\
  dict_get Nat.eqb mixed_type_sources 0
    = Some [ (TYPE_NONE, 1%Q); (TYPE_ANGLE_SHARP, 1 # 2) ] /\
  In (TYPE_NONE, 1%Q) [ (TYPE_NONE, 1%Q); (TYPE_ANGLE_SHARP, 1 # 2) ] /\
  list_index TYPE_NONE PRIORITY_ORDER = None /\
  am3_filter_refine_prioritize (Some two_edge_strip) mixed_type_sources 3%Z
    = ([0], [ MsgWarnUnknownType TYPE_NONE; MsgAm3Stub ]) /\
  In (MsgWarnUnknownType TYPE_NONE)
     (snd (am3_filter_refine_prioritize (Some two_edge_strip) mixed_type_sources
             3%Z)) /\
  (exists w,
     dict_get Nat.eqb (fst (priority_resolution mixed_type_sources)) 0 = Some w /\
     In w [ (TYPE_NONE, 1%Q); (TYPE_ANGLE_SHARP, 1 # 2) ] /\
     (forall d k,
        In d [ (TYPE_NONE, 1%Q); (TYPE_ANGLE_SHARP, 1 # 2) ] -> prio d = Some k ->
        exists k', prio w = Some k' /\ k' <= k) /\
     (In 0 (fst (am3_filter_refine_prioritize (Some two_edge_strip)
                   mixed_type_sources 3%Z)) <->
      prio w <> None)) /\
  (forall (angle : option Q -> option Q -> Outcome Q) (settings : Settings)
          (all_detected_candidates_map : CandidateMap)
          (final_edges_to_mark : edge_set),
     tables_ok two_edge_strip = true ->
     fst (collect_candidates angle (Some two_edge_strip) settings)
       = Returned all_detected_candidates_map ->
     fst (auto_detect_and_mark_edges angle (Some two_edge_strip) (Some settings))
       = Returned final_edges_to_mark ->
     (forall e' d, In d (candidates_of all_detected_candidates_map e') ->
                   prio d <> None) /\
     (forall e', dict_get Nat.eqb all_detected_candidates_map e' <> None ->
                 In e' final_edges_to_mark)).
Proof.
  assert (H1 : NoDup (map fst mixed_type_sources))
    by (repeat constructor; cbn; intuition discriminate).
  assert (H3 : In (TYPE_NONE, 1%Q) [ (TYPE_NONE, 1%Q); (TYPE_ANGLE_SHARP, 1 # 2) ])
    by (now left).
  split; [exact H1|]. split; [reflexivity|]. split; [exact H3|].
  split; [reflexivity|]. split; [reflexivity|].
  apply (unknown_type_resolved_with_warning (option Q) two_edge_strip
           mixed_type_sources 3%Z 0
           [ (TYPE_NONE, 1%Q); (TYPE_ANGLE_SHARP, 1 # 2) ] TYPE_NONE 1%Q
           H1 eq_refl H3 eq_refl).
Defined.

(** An edge whose only candidate is of an unrecognised type: it is resolved
    to that candidate and reported, and it is not selected. *)
Example unknown_only_edge_reported_not_selected :
  priority_resolution unknown_type_sources
    = ([ (0, (TYPE_NONE, 1%Q)) ], [ MsgWarnUnknownType TYPE_NONE ]) /\
  am3_filter_refine_prioritize (Some two_edge_strip) unknown_type_sources 3%Z
    = ([], [ MsgWarnUnknownType TYPE_NONE; MsgAm3Stub ]).
Proof. split; reflexivity. Qed.

(** * Further properties of the code *)

(** ** AM2b: the authored-data scan, as a whole *)

Section AuthoredScan.
Variable Vector : Type.

(** X1. The authored-data scan raises exactly on a mesh with an edge at
    which it reads an attribute that a BMEdge does not have: any edge when
    the creases or the bevel weights are scanned, a smooth edge when the
    sharps are.  When it returns, its result has the four keys
    BLENDER_SHARP, BLENDER_CREASE, BLENDER_SEAM and BLENDER_BEVEL in this
    order, each bound to a duplicate-free set; the crease and bevel sets are
    empty; for a mesh, an edge is in the sharp set exactly when the sharps
    are scanned and the edge is not smooth, and in the seam set exactly when
    the seams are scanned and the edge is a seam; without a mesh all four
    sets are empty. *)
Theorem authored_scan_sets :
  forall (bm : option (BMesh Vector))
         (use_sharps use_creases : bool) (min_crease_val : Q)
         (use_seams use_bevels : bool) (min_bevel_val : Q),
    (am2b_existing_blender_data_scan bm use_sharps use_creases min_crease_val
       use_seams use_bevels min_bevel_val = Raised <->
     exists m x, bm = Some m /\ In x (edges m) /\
       ((use_sharps = true /\ smooth x = true) \/
        use_creases = true \/ use_bevels = true)) /\
    (forall candidates_by_type,
       am2b_existing_blender_data_scan bm use_sharps use_creases min_crease_val
         use_seams use_bevels min_bevel_val = Returned candidates_by_type ->
       map fst candidates_by_type
         = [ TYPE_BLENDER_SHARP; TYPE_BLENDER_CREASE; TYPE_BLENDER_SEAM;
             TYPE_BLENDER_BEVEL ] /\
       (forall t, NoDup (entry_of candidates_by_type t)) /\
       entry_of candidates_by_type TYPE_BLENDER_CREASE = [] /\
       entry_of candidates_by_type TYPE_BLENDER_BEVEL = [] /\
       (bm = None -> forall t, entry_of candidates_by_type t = []) /\
       (forall m, bm = Some m ->
        forall i,
          (In i (entry_of candidates_by_type TYPE_BLENDER_SHARP) <->
           exists x, nth_error (edges m) i = Some x /\ use_sharps = true /\
                     smooth x = false) /\
          (In i (entry_of candidates_by_type TYPE_BLENDER_SEAM) <->
           exists x, nth_error (edges m) i = Some x /\ use_seams = true /\
                     seam x = true))).
Proof.
  intros bm a b c d e f. split.
  - destruct bm as [m|].
    + rewrite am2b_Raised. unfold reads_missing_attribute. split.
      * intros (x & Hin & Hr). exists m, x. split; [reflexivity|].
        split; [exact Hin|].
        apply orb_true_iff in Hr. destruct Hr as [Hr | Hr]; [|now right; right].
        apply orb_true_iff in Hr. destruct Hr as [Hr | Hr]; [|now right; left].
        apply andb_true_iff in Hr. now left.
      * intros (m' & x & Heq & Hin & Hr). injection Heq as <-.
        exists x. split; [exact Hin|].
        destruct Hr as [[-> ->] | [-> | ->]]; cbn;
          rewrite ?orb_true_r; reflexivity.
    + split; [discriminate | intros (m & x & Heq & _); discriminate].
  - intros cbt Hrun.
    split; [exact (am2b_keys _ _ _ _ _ _ _ _ _ Hrun)|].
    split; [intro t; exact (am2b_entry_NoDup _ _ _ _ _ _ _ _ _ t Hrun)|].
    assert (Hnone : forall t,
               In t [TYPE_BLENDER_SHARP; TYPE_BLENDER_CREASE; TYPE_BLENDER_SEAM;
                     TYPE_BLENDER_BEVEL] ->
               (forall x : BMEdge Vector, am2b_test a d t x = false) ->
               entry_of cbt t = []).
    { intros t Ht Hfalse. destruct bm as [m|].
      - destruct (entry_of cbt t) as [|i l] eqn:E; [reflexivity|].
        assert (Hi : In i (entry_of cbt t)) by (rewrite E; now left).
        apply (am2b_entry_In _ m _ _ _ _ _ _ _ t i Hrun Ht) in Hi.
        destruct Hi as (x & _ & Hx). rewrite Hfalse in Hx. discriminate.
      - cbn in Hrun. injection Hrun as <-. cbn in Ht.
        destruct Ht as [<- | [<- | [<- | [<- | []]]]]; reflexivity. }
    split; [apply Hnone; [cbn; tauto | reflexivity]|].
    split; [apply Hnone; [cbn; tauto | reflexivity]|].
    split.
    + intros -> t. cbn in Hrun. injection Hrun as <-. unfold entry_of. cbn.
      repeat match goal with
             | |- context [if ?c then _ else _] => destruct c
             end; reflexivity.
    + intros m -> i. split.
      * rewrite (am2b_entry_In _ m _ _ _ _ _ _ _ TYPE_BLENDER_SHARP i Hrun)
          by (cbn; tauto).
        cbn. unfold sharp_test. split; intros (x & Hn & H); exists x;
          (split; [exact Hn|]).
        -- apply andb_true_iff in H. destruct H as [-> H].
           now apply negb_true_iff in H.
        -- destruct H as [-> ->]. reflexivity.
      * rewrite (am2b_entry_In _ m _ _ _ _ _ _ _ TYPE_BLENDER_SEAM i Hrun)
          by (cbn; tauto).
        cbn. unfold seam_test. split; intros (x & Hn & H); exists x;
          (split; [exact Hn|]).
        -- now apply andb_true_iff in H.
        -- destruct H as [-> ->]. reflexivity.
Qed.
End AuthoredScan.

(** The scan of the junction star with only the seams scanned, and with the
    defaults, under which it raises at the first edge. *)
Example junction_star_scan :
  am2b_existing_blender_data_scan (Some junction_star) false false (1 # 10)
    true false (1 # 10)
    = Returned [ (TYPE_BLENDER_SHARP, []); (TYPE_BLENDER_CREASE, []);
                 (TYPE_BLENDER_SEAM, [1; 2; 3]); (TYPE_BLENDER_BEVEL, []) ] /\
  am2b_existing_blender_data_scan (Some junction_star) true true (1 # 10)
    true false (1 # 10) = Raised.
Proof. split; reflexivity. Qed.

(** ** Priority resolution: ties and warnings *)

(** From any starting state: either the state is kept and no candidate of
    the list beats the starting index, or the winner is the first candidate
    of the list whose index is the least one. *)
Lemma resolve_fold_first (l : list Detection) : forall w b out,
  (fst (fst (fold_left resolve_step l (w, b, out))) = w /\
   snd (fst (fold_left resolve_step l (w, b, out))) = b /\
   forall d k, In d l -> prio d = Some k -> py_lt (Fin k) b = false) \/
  (exists l1 l2 n,
     l = l1 ++ fst (fst (fold_left resolve_step l (w, b, out))) :: l2 /\
     prio (fst (fst (fold_left resolve_step l (w, b, out)))) = Some n /\
     snd (fst (fold_left resolve_step l (w, b, out))) = Fin n /\
     py_lt (Fin n) b = true /\
     forall d k, In d l1 -> prio d = Some k -> n < k).
Proof.
  induction l as [|[t q] l IH]; intros w b out; cbn [fold_left].
  - left. cbn. repeat split. intros d k [].
  - destruct (list_index t PRIORITY_ORDER) as [k|] eqn:Hk.
    + rewrite (resolve_step_known _ _ _ _ _ _ Hk).
      destruct (py_lt (Fin k) b) eqn:Hlt; cbv iota.
      * right.
        destruct (IH (t, q) (Fin k) out)
          as [(Hw & Hb & Hall) | (l1 & l2 & n & Hl & Hp & Hb & Hn & Hall)].
        -- exists [], l, k. rewrite Hw, Hb. cbn [app]. unfold prio. cbn [fst].
           repeat split; auto. intros d k0 [].
        -- exists ((t, q) :: l1), l2, n. cbn [app]. rewrite <- Hl.
           repeat split; auto.
           ++ cbn in Hn. apply Nat.ltb_lt in Hn.
              destruct b as [x|]; cbn in *; [|reflexivity].
              apply Nat.ltb_lt in Hlt. apply Nat.ltb_lt. lia.
           ++ intros d k0 [Hd | Hd] Hpd; [|eauto].
              subst d. unfold prio in Hpd. cbn [fst] in Hpd.
              rewrite Hk in Hpd. injection Hpd as <-.
              cbn in Hn. now apply Nat.ltb_lt in Hn.
      * destruct (IH w b out)
          as [(Hw & Hb & Hall) | (l1 & l2 & n & Hl & Hp & Hb & Hn & Hall)].
        -- left. repeat split; auto.
           intros d k0 [Hd | Hd] Hpd; [|eauto].
           subst d. unfold prio in Hpd. cbn [fst] in Hpd.
           rewrite Hk in Hpd. injection Hpd as <-. exact Hlt.
        -- right. exists ((t, q) :: l1), l2, n. cbn [app]. rewrite <- Hl.
           repeat split; auto.
           intros d k0 [Hd | Hd] Hpd; [|eauto].
           subst d. unfold prio in Hpd. cbn [fst] in Hpd.
           rewrite Hk in Hpd. injection Hpd as <-.
           destruct b as [x|]; cbn in Hlt, Hn; [|discriminate].
           apply Nat.ltb_ge in Hlt. apply Nat.ltb_lt in Hn. lia.
    + rewrite (resolve_step_unknown _ _ _ _ _ Hk).
      destruct (IH w b (out ++ [MsgWarnUnknownType t]))
        as [(Hw & Hb & Hall) | (l1 & l2 & n & Hl & Hp & Hb & Hn & Hall)].
      * left. repeat split; auto.
        intros d k0 [Hd | Hd] Hpd; [|eauto].
        subst d. unfold prio in Hpd. cbn [fst] in Hpd. congruence.
      * right. exists ((t, q) :: l1), l2, n. cbn [app]. rewrite <- Hl.
        repeat split; auto.
        intros d k0 [Hd | Hd] Hpd; [|eauto].
        subst d. unfold prio in Hpd. cbn [fst] in Hpd. congruence.
Qed.

(** X2. The resolved tag of an edge is the first candidate of its list
    with the least priority index: when some candidate has a recognised
    type, the resolved tag has a recognised type, every earlier candidate
    has a strictly larger index or an unrecognised type, and no later one
    has a smaller index; when no candidate has a recognised type, the
    resolved tag is the first candidate of the list. *)
Theorem resolved_tag_is_first_of_best :
  forall (first : Detection) (rest : list Detection),
    exists w,
      winner (first :: rest) = Some w /\
      ((forall d, In d (first :: rest) -> prio d = None) -> w = first) /\
      ((exists d, In d (first :: rest) /\ prio d <> None) ->
       exists n l1 l2,
         prio w = Some n /\
         first :: rest = l1 ++ w :: l2 /\
         (forall d k, In d l1 -> prio d = Some k -> n < k) /\
         (forall d k, In d l2 -> prio d = Some k -> n <= k)).
Proof.
  intros d0 ds. rewrite winner_cons. eexists. split; [reflexivity|].
  destruct (resolve_fold_first (d0 :: ds) d0 Inf [])
    as [(Hw & Hb & Hall) | (l1 & l2 & n & Hl & Hp & Hb & Hn & Hall)].
  - split; [intros _; exact Hw|].
    intros (d & Hd & Hk). destruct (prio d) as [k|] eqn:Hpd; [|congruence].
    specialize (Hall d k Hd Hpd). discriminate Hall.
  - pose proof (winner_cons d0 ds) as Hwin.
    set (W := fst (fst (fold_left resolve_step (d0 :: ds) (d0, Inf, [])))) in *.
    assert (HinW : In W (d0 :: ds)).
    { rewrite Hl. apply in_or_app. right. now left. }
    split.
    + intro Hnone. rewrite (Hnone W HinW) in Hp. discriminate.
    + intros _. exists n, l1, l2. split; [exact Hp|].
      split; [exact Hl|]. split; [exact Hall|].
      intros d k Hd Hk.
      assert (Hind : In d (d0 :: ds)).
      { rewrite Hl. apply in_or_app. right. now right. }
      destruct (winner_lowest (d0 :: ds) W d k Hwin Hind Hk) as (m & Hm & Hle).
      rewrite Hp in Hm. injection Hm as <-. exact Hle.
Qed.

(** A candidate of an unrecognised type listed first does not win against a
    later candidate of a recognised type; of two candidates with the same
    index the earlier one wins. *)
Example first_of_best_runs :
  winner [ (TYPE_NONE, 1%Q); (TYPE_ANGLE_SHARP, 1 # 2) ]
    = Some (TYPE_ANGLE_SHARP, 1 # 2) /\
  winner [ (TYPE_ANGLE_SHARP, 1 # 2); (TYPE_BLENDER_SEAM, 1%Q);
           (TYPE_BLENDER_SEAM, 2%Q) ]
    = Some (TYPE_BLENDER_SEAM, 1%Q).
Proof. split; reflexivity. Qed.

Lemma resolve_fold_out (l : list Detection) : forall w b out,
  snd (fold_left resolve_step l (w, b, out)) =
  out ++ map MsgWarnUnknownType (unknown_types l).
Proof.
  unfold unknown_types.
  induction l as [|[t q] l IH]; intros w b out; cbn [fold_left].
  - cbn. now rewrite app_nil_r.
  - destruct (list_index t PRIORITY_ORDER) as [k|] eqn:Hk.
    + rewrite (resolve_step_known _ _ _ _ _ _ Hk).
      assert (Hp : prio (t, q) = Some k) by exact Hk.
      cbn [filter]. rewrite Hp.
      destruct (py_lt (Fin k) b); apply IH.
    + rewrite (resolve_step_unknown _ _ _ _ _ Hk), IH.
      assert (Hp : prio (t, q) = None) by exact Hk.
      cbn [filter]. rewrite Hp. cbn [map fst].
      now rewrite <- app_assoc.
Qed.

Lemma fold_resolve_edge_out (src : CandidateMap) : forall acc out,
  snd (fold_left resolve_edge src (acc, out)) =
  out ++ map MsgWarnUnknownType
             (flat_map (fun item => unknown_types (snd item)) src).
Proof.
  induction src as [|[e ds] src IH]; intros acc out; cbn [fold_left flat_map snd].
  - now rewrite app_nil_r.
  - destruct ds as [|d ds].
    + cbn [resolve_edge]. rewrite IH. reflexivity.
    + rewrite resolve_edge_cons, IH, resolve_fold_out, map_app. cbn [app].
      now rewrite <- app_assoc.
Qed.

(** X3. Priority resolution writes exactly one warning per candidate of an
    unrecognised type, in the order in which the edges and their candidates
    are traversed, and nothing else; in particular it is silent when every
    candidate type is in [PRIORITY_ORDER]. *)
Theorem resolution_warns_once_per_unknown_candidate :
  forall (all_candidate_sources : CandidateMap),
    snd (priority_resolution all_candidate_sources) =
    map MsgWarnUnknownType
        (flat_map (fun item => unknown_types (snd item)) all_candidate_sources) /\
    ((forall e ds d, In (e, ds) all_candidate_sources -> In d ds ->
                     list_index (fst d) PRIORITY_ORDER <> None) ->
     snd (priority_resolution all_candidate_sources) = []).
Proof.
  intro src. unfold priority_resolution. rewrite fold_resolve_edge_out.
  split; [reflexivity|]. intro Hknown. cbn [app].
  replace (flat_map (fun item => unknown_types (snd item)) src) with (@nil string);
    [reflexivity|].
  symmetry. induction src as [|[e ds] src IH]; [reflexivity|].
  cbn [flat_map snd].
  rewrite IH by (intros e' ds' d Hin; apply (Hknown e' ds' d); now right).
  rewrite app_nil_r. unfold unknown_types.
  assert (Hds : forall d, In d ds -> prio d <> None).
  { intros d Hd. exact (Hknown e ds d (or_introl eq_refl) Hd). }
  clear -Hds. induction ds as [|d ds IHd]; [reflexivity|].
  cbn [filter]. destruct (prio d) eqn:Hp.
  - apply IHd. intros d' Hd'. apply Hds. now right.
  - exfalso. apply (Hds d); [now left | exact Hp].
Qed.

(** ** AM3 as a whole *)

Section Am3Whole.
Variable Vector : Type.

(** X4. AM3 selects an edge exactly when at least one of its candidates has
    a type of [PRIORITY_ORDER]; the selected set has no duplicates and holds
    only keys of the candidate map; without a mesh, or with an empty
    candidate map, the result is empty and nothing is written. *)
Theorem am3_selects_edges_with_recognised_candidate :
  forall (bm : option (BMesh Vector)) (all_candidate_sources : CandidateMap)
         (min_feature_length : Z),
    NoDup (map fst all_candidate_sources) ->
    NoDup (fst (am3_filter_refine_prioritize bm all_candidate_sources
                  min_feature_length)) /\
    (forall e,
       In e (fst (am3_filter_refine_prioritize bm all_candidate_sources
                    min_feature_length)) <->
       bm <> None /\
       exists ds d, dict_get Nat.eqb all_candidate_sources e = Some ds /\
                    In d ds /\ list_index (fst d) PRIORITY_ORDER <> None) /\
    (bm = None \/ all_candidate_sources = [] ->
     am3_filter_refine_prioritize bm all_candidate_sources min_feature_length
       = ([], [])).
Proof.
  intros bm src mfl Hnd. split; [|split].
  - destruct bm as [m|]; [|constructor].
    rewrite am3_fst. apply select_fold_NoDup. constructor.
  - intro e. destruct bm as [m|].
    + rewrite am3_In, (resolved_tag_lookup src e Hnd). split.
      * intros (w & Hw & Hsel). split; [discriminate|].
        destruct (dict_get Nat.eqb src e) as [ds|]; [|discriminate].
        exists ds, w. split; [reflexivity|]. split; [now apply winner_In|].
        now apply selectable_iff_known.
      * intros (_ & ds & d & Hget & Hd & Hk). rewrite Hget.
        destruct (winner_nonempty ds) as (w & Hw); [intros ->; destruct Hd|].
        exists w. split; [exact Hw|]. apply selectable_iff_known.
        destruct (list_index (fst d) PRIORITY_ORDER) as [k|] eqn:Hp; [|congruence].
        exact (winner_known_prio _ _ _ _ Hw Hd Hp).
    + cbn. split; [intros [] | intros [H _]; congruence].
  - intros [-> | ->]; [reflexivity|]. now destruct bm.
Qed.
End Am3Whole.

Lemma am3_selects_edges_with_recognised_candidate_witness :
  NoDup (map fst junction_star_sources) /\
  NoDup (fst (am3_filter_refine_prioritize (Some junction_star)
                junction_star_sources 5%Z)) /\
  (forall e,
     In e (fst (am3_filter_refine_prioritize (Some junction_star)
                  junction_star_sources 5%Z)) <->
     Some junction_star <> None /\
     exists ds d, dict_get Nat.eqb junction_star_sources e = Some ds /\
                  In d ds /\ list_index (fst d) PRIORITY_ORDER <> None) /\
  (Some junction_star = None \/ junction_star_sources = [] ->
   am3_filter_refine_prioritize (Some junction_star) junction_star_sources 5%Z
     = ([], [])).
Proof.
  split; [repeat constructor; cbn; intuition discriminate|].
  apply (am3_selects_edges_with_recognised_candidate (option Q)
           (Some junction_star)
           junction_star_sources 5%Z).
  repeat constructor; cbn; intuition discriminate.
Defined.

(** ** The pass as a whole *)

Section WholePass.
Variable Vector : Type.
Variable angle : Vector -> Vector -> Outcome Q.

(** X5. With a mesh and settings, the pass raises exactly when the
    preparation step succeeds and the mesh has an edge between two faces
    whose normals have no angle, or an edge at which the authored-data scan
    reads an attribute that a BMEdge does not have (a smooth edge when the
    sharps are scanned, any edge when the creases or the bevel weights
    are).  When it returns, it returns exactly the edges of the mesh that
    have two faces at more than the angle threshold, or are not smooth
    while the sharps are scanned, or are seams while the seams are scanned,
    provided the preparation step succeeded; the set has no duplicates.
    When the preparation fails, or when the mesh or the settings are
    missing, the pass returns the empty set. *)
Theorem pass_returns_exactly_flagged_edges :
  forall (m : BMesh Vector) (settings : Settings),
    (fst (auto_detect_and_mark_edges angle (Some m) (Some settings)) = Raised <->
     tables_ok m = true /\
     exists x, In x (edges m) /\
       ((exists face1 face2,
           link_faces x = [face1; face2] /\
           angle (normal face1) (normal face2) = Raised) \/
        (auto_sharp_use_existing_sharps settings = true /\ smooth x = true) \/
        auto_sharp_use_existing_creases settings = true \/
        auto_sharp_use_bevel_weights settings = true)) /\
    (forall final_edges_to_mark,
       fst (auto_detect_and_mark_edges angle (Some m) (Some settings))
         = Returned final_edges_to_mark ->
       NoDup final_edges_to_mark /\
       forall e,
         In e final_edges_to_mark <->
         tables_ok m = true /\
         exists x, nth_error (edges m) e = Some x /\
           ((exists face1 face2 a,
               link_faces x = [face1; face2] /\
               angle (normal face1) (normal face2) = Returned a /\
               (auto_sharp_primary_angle settings < a)%Q) \/
            (auto_sharp_use_existing_sharps settings = true /\
             smooth x = false) \/
            (auto_sharp_use_existing_seams settings = true /\
             seam x = true))) /\
    (tables_ok m = false ->
     auto_detect_and_mark_edges angle (Some m) (Some settings)
       = (Returned [], [MsgStart; MsgAm1Error; MsgAm1Failed])) /\
    (forall bm s, bm = None \/ s = None ->
       auto_detect_and_mark_edges angle bm s = (Returned [], [])).
Proof.
  intros m s. split; [|split; [|split]].
  - rewrite pass_Raised, am2a_Raised, am2b_Raised.
    unfold degenerate_dihedral, reads_missing_attribute. split.
    + intros (Hok & [(x & Hin & Hd) | (x & Hin & Hr)]);
        (split; [exact Hok|]); exists x; (split; [exact Hin|]).
      * now left.
      * right. apply orb_true_iff in Hr. destruct Hr as [Hr | Hr];
          [|now right; right].
        apply orb_true_iff in Hr. destruct Hr as [Hr | Hr]; [|now right; left].
        apply andb_true_iff in Hr. now left.
    + intros (Hok & x & Hin & [Hd | Hr]); (split; [exact Hok|]).
      * left. exists x. auto.
      * right. exists x. split; [exact Hin|].
        destruct Hr as [[-> ->] | [-> | ->]]; cbn;
          rewrite ?orb_true_r; reflexivity.
  - intros final Hrun.
    destruct (pass_In Vector angle m s final Hrun) as (Hnd & Hin).
    split; [exact Hnd|]. intro e. rewrite Hin.
    unfold flagged, sharp_dihedral, sharp_test, seam_test.
    split; intros (Hok & x & Hn & H); (split; [exact Hok|]); exists x;
      (split; [exact Hn|]).
    + destruct H as [H | [H | H]]; [now left | right; left | right; right].
      * apply andb_true_iff in H. destruct H as [H1 H2].
        split; [exact H1 | now apply negb_true_iff in H2].
      * now apply andb_true_iff in H.
    + destruct H as [H | [[H1 H2] | [H1 H2]]];
        [now left | right; left | right; right].
      * now rewrite H1, H2.
      * now rewrite H1, H2.
  - intro Hf. unfold auto_detect_and_mark_edges, am1_prepare_bmesh_data.
    rewrite Hf. reflexivity.
  - intros bm s' [-> | ->]; [reflexivity | now destruct bm].
Qed.

(** X6. How the pass ends, and the edge set it returns, does not depend on
    the curvature options, on the UV-boundary option or on the minimum
    feature length: two settings that agree on the angle threshold and on
    the authored-data options give the same result. *)
Theorem pass_ignores_curvature_uv_and_length_options :
  forall (m : BMesh Vector) (s s' : Settings),
    same_emitting_options s s' ->
    fst (auto_detect_and_mark_edges angle (Some m) (Some s)) =
    fst (auto_detect_and_mark_edges angle (Some m) (Some s')).
Proof.
  intros m s s' (H1 & H2 & H3 & H4 & H5 & H6 & H7).
  rewrite !auto_detect_fst. destruct (tables_ok m); [|reflexivity].
  rewrite !collect_emitting, H1, H2, H3, H4, H5, H6, H7.
  destruct (am2a_dihedral_angle_analysis angle (Some m) _) as [A|];
    cbn [and_then outcome_map]; [|reflexivity].
  destruct (am2b_existing_blender_data_scan (Some m) _ _ _ _ _ _) as [B|];
    cbn [and_then]; [|reflexivity].
  unfold outcome_map. cbn [and_then]. now rewrite !am3_fst.
Qed.
End WholePass.

(** The pass on the junction star, where it returns, and on the mesh with a
    face without area, where the dihedral-angle detector raises before
    anything is written but the first line. *)
Example whole_pass_runs :
  fst (auto_detect_and_mark_edges heading_angle (Some junction_star)
         (Some seams_only_settings)) = Returned [0; 1; 2; 3] /\
  fst (auto_detect_and_mark_edges heading_angle (Some junction_star)
         (Some default_settings)) = Raised /\
  auto_detect_and_mark_edges heading_angle (Some degenerate_face_mesh)
    (Some seams_only_settings) = (Raised, [MsgStart]).
Proof. repeat split; vm_compute; reflexivity. Qed.

(** ** The remeshing placeholder *)

Lemma dict_set_fresh {V : Type} (d : list (nat * V)) k v :
  dict_get Nat.eqb d k = None -> dict_set Nat.eqb d k v = d ++ [(k, v)].
Proof.
  induction d as [|[k' v'] d IH]; cbn; [reflexivity|].
  destruct (k =? k'); [discriminate|]. intro H. now rewrite IH.
Qed.

Section RemeshFacts.
Variable Coord : Type.

Lemma renum_wf_bound (d : list (nat * nat)) (vs : list Coord) c k j :
  renum_wf (d, vs, c) -> dict_get Nat.eqb d k = Some j -> j < c.
Proof.
  intros (_ & Hsnd & _) Hget. apply (dict_get_In _ nat_eqb_eq) in Hget.
  apply (in_map snd) in Hget. rewrite Hsnd in Hget. cbn in Hget.
  apply in_seq in Hget. lia.
Qed.

Lemma renum_wf_injective (d : list (nat * nat)) (vs : list Coord) c k k' j :
  renum_wf (d, vs, c) ->
  dict_get Nat.eqb d k = Some j -> dict_get Nat.eqb d k' = Some j -> k = k'.
Proof.
  intros (_ & Hsnd & _) H1 H2.
  apply (dict_get_In _ nat_eqb_eq) in H1, H2.
  assert (Hnd : NoDup (map snd d)) by (rewrite Hsnd; apply seq_NoDup).
  clear Hsnd. induction d as [|[a b] d IH]; [destruct H1|].
  cbn in Hnd. inversion Hnd as [|? ? Hni Hnd']; subst.
  destruct H1 as [H1 | H1], H2 as [H2 | H2].
  - congruence.
  - injection H1 as -> ->. exfalso. apply Hni.
    change j with (snd (k', j)). now apply in_map.
  - injection H2 as -> ->. exfalso. apply Hni.
    change j with (snd (k, j)). now apply in_map.
  - auto.
Qed.

(** One vertex. *)
Lemma visit_vert_spec (seen : list (BMVert Coord)) d vs c fi v :
  renum_inv seen (d, vs, c) ->
  exists d' vs' c' j,
    visit_vert (d, vs, c, fi) v = (d', vs', c', fi ++ [j]) /\
    renum_inv (seen ++ [v]) (d', vs', c') /\
    dict_get Nat.eqb d' (v_index v) = Some j /\
    (forall k i, dict_get Nat.eqb d k = Some i -> dict_get Nat.eqb d' k = Some i).
Proof.
  intros (Hwf & Hkeys & Hco). cbn [fst snd] in Hkeys, Hco.
  unfold visit_vert.
  destruct (dict_get Nat.eqb d (v_index v)) as [j|] eqn:Hget.
  - rewrite Hget. exists d, vs, c, j. split; [reflexivity|].
    split; [|split; [exact Hget | auto]].
    split; [exact Hwf|]. cbn [fst snd]. split.
    + intro k. rewrite Hkeys. split.
      * intros (v' & Hin & Hk). exists v'. split; [|exact Hk].
        apply in_or_app. now left.
      * intros (v' & Hin & Hk). apply in_app_or in Hin.
        destruct Hin as [Hin | [<- | []]]; [eauto|].
        apply Hkeys. rewrite <- Hk, Hget. discriminate.
    + intros k i Hk. destruct (Hco k i Hk) as (v' & Hin & Hv & Hn).
      exists v'. split; [apply in_or_app; now left | auto].
  - rewrite (dict_get_set_same _ nat_eqb_eq).
    exists (dict_set Nat.eqb d (v_index v) c), (vs ++ [co v]), (S c), c.
    split; [reflexivity|].
    destruct Hwf as (Hc & Hsnd & Hnd).
    assert (Hmono : forall k i, dict_get Nat.eqb d k = Some i ->
                    dict_get Nat.eqb (dict_set Nat.eqb d (v_index v) c) k = Some i).
    { intros k i Hk. rewrite (dict_get_set_other _ nat_eqb_eq); [exact Hk|].
      intros ->. congruence. }
    split; [|split; [apply (dict_get_set_same _ nat_eqb_eq) | exact Hmono]].
    split; [|cbn [fst snd]; split].
    + split; [|split].
      * rewrite length_app. cbn. lia.
      * rewrite (dict_set_fresh _ _ _ Hget), map_app, Hsnd, seq_S. reflexivity.
      * now apply (dict_set_NoDup _ nat_eqb_eq).
    + intro k. destruct (Nat.eq_dec k (v_index v)) as [-> | Hne].
      * rewrite (dict_get_set_same _ nat_eqb_eq). split; [|discriminate].
        intros _. exists v. split; [apply in_or_app; right; now left | reflexivity].
      * rewrite (dict_get_set_other _ nat_eqb_eq) by exact Hne.
        rewrite Hkeys. split.
        -- intros (v' & Hin & Hk). exists v'. split; [|exact Hk].
           apply in_or_app. now left.
        -- intros (v' & Hin & Hk). apply in_app_or in Hin.
           destruct Hin as [Hin | [<- | []]]; [eauto | congruence].
    + intros k i Hk. destruct (Nat.eq_dec k (v_index v)) as [-> | Hne].
      * rewrite (dict_get_set_same _ nat_eqb_eq) in Hk. injection Hk as <-.
        exists v. split; [apply in_or_app; right; now left|].
        split; [reflexivity|]. rewrite Hc.
        rewrite nth_error_app2, Nat.sub_diag by lia. reflexivity.
      * rewrite (dict_get_set_other _ nat_eqb_eq) in Hk by exact Hne.
        destruct (Hco k i Hk) as (v' & Hin & Hv & Hn).
        exists v'. split; [apply in_or_app; now left|]. split; [exact Hv|].
        rewrite nth_error_app1; [exact Hn|].
        apply nth_error_Some. congruence.
Qed.

(** The vertices of one face. *)
Lemma visit_verts_spec (face : list (BMVert Coord)) :
  forall (seen : list (BMVert Coord)) d vs c fi,
    renum_inv seen (d, vs, c) ->
    exists d' vs' c' js,
      fold_left visit_vert face (d, vs, c, fi) = (d', vs', c', fi ++ js) /\
      renum_inv (seen ++ face) (d', vs', c') /\
      Forall2 (fun v j => dict_get Nat.eqb d' (v_index v) = Some j) face js /\
      (forall k i, dict_get Nat.eqb d k = Some i -> dict_get Nat.eqb d' k = Some i).
Proof.
  induction face as [|v face IH]; intros seen d vs c fi Hinv; cbn [fold_left].
  - exists d, vs, c, []. rewrite !app_nil_r. repeat split; auto; apply Hinv.
  - destruct (visit_vert_spec seen d vs c fi v Hinv)
      as (d1 & vs1 & c1 & j & Hstep & Hinv1 & Hj & Hmono1).
    rewrite Hstep.
    destruct (IH (seen ++ [v]) d1 vs1 c1 (fi ++ [j]) Hinv1)
      as (d' & vs' & c' & js & Hfold & Hinv' & Hall & Hmono').
    rewrite <- app_assoc in Hinv'. cbn [app] in Hinv'.
    exists d', vs', c', (j :: js). rewrite Hfold, <- !app_assoc. cbn [app].
    split; [reflexivity|]. split; [exact Hinv'|]. split; [|auto].
    constructor; [apply Hmono'; exact Hj | exact Hall].
Qed.

(** The faces, over any list of positions and faces. *)
Lemma visit_faces_spec (factor : nat) (items : list (nat * list (BMVert Coord))) :
  forall (seen : list (BMVert Coord)) d vs c nf,
    renum_inv seen (d, vs, c) ->
    exists d' vs' c' fs,
      fold_left (visit_face factor) items (d, vs, c, nf) = (d', vs', c', nf ++ fs) /\
      renum_inv
        (seen ++ List.concat (map snd (filter (fun item => fst item mod factor =? 0) items)))
        (d', vs', c') /\
      Forall2 (Forall2 (fun v j => dict_get Nat.eqb d' (v_index v) = Some j))
              (map snd (filter (fun item => fst item mod factor =? 0) items)) fs /\
      (forall k i, dict_get Nat.eqb d k = Some i -> dict_get Nat.eqb d' k = Some i).
Proof.
  induction items as [|[i face] items IH]; intros seen d vs c nf Hinv;
    cbn [fold_left filter fst].
  - exists d, vs, c, []. cbn. rewrite !app_nil_r. repeat split; auto; apply Hinv.
  - unfold visit_face at 2. destruct (i mod factor =? 0) eqn:Hi.
    + destruct (visit_verts_spec face seen d vs c [] Hinv)
        as (d1 & vs1 & c1 & js & Hface & Hinv1 & Hall1 & Hmono1).
      rewrite Hface. cbn [app].
      destruct (IH (seen ++ face) d1 vs1 c1 (nf ++ [js]) Hinv1)
        as (d' & vs' & c' & fs & Hfold & Hinv' & Hall & Hmono').
      exists d', vs', c', (js :: fs). rewrite Hfold, <- !app_assoc.
      cbn [app map snd List.concat]. rewrite app_assoc.
      split; [reflexivity|]. split; [exact Hinv'|]. split; [|auto].
      constructor; [|exact Hall].
      eapply Forall2_impl; [|exact Hall1]. intros v j Hv. now apply Hmono'.
    + apply IH. exact Hinv.
Qed.

(** The whole decimation. *)
Lemma decimate_spec (factor : nat) (faces : list (list (BMVert Coord))) :
  exists d vs c fs,
    decimate factor faces = (d, vs, c, fs) /\
    renum_inv (List.concat (kept_faces factor faces)) (d, vs, c) /\
    Forall2 (Forall2 (fun v j => dict_get Nat.eqb d (v_index v) = Some j))
            (kept_faces factor faces) fs.
Proof.
  assert (Hinv0 : renum_inv (@nil (BMVert Coord)) ([], [], 0)).
  { split; [repeat split; constructor|]. cbn. split.
    - intro k. split; [congruence | intros (v & [] & _)].
    - intros k j H. discriminate. }
  destruct (visit_faces_spec factor (enumerate faces) [] [] [] 0 [] Hinv0)
    as (d & vs & c & fs & Hfold & Hinv & Hall & _).
  exists d, vs, c, fs. unfold decimate, kept_faces. cbn [app] in *. auto.
Qed.
End RemeshFacts.

Lemma Forall2_In_r {A B : Type} (R : A -> B -> Prop) l l' y :
  Forall2 R l l' -> In y l' -> exists x, In x l /\ R x y.
Proof.
  induction 1 as [|a b l l' Hab HF IH]; intros Hin; [destruct Hin|].
  destruct Hin as [<- | Hin].
  - exists a. split; [now left | exact Hab].
  - destruct (IH Hin) as (x & Hx & HR). exists x. split; [now right | exact HR].
Qed.

Lemma Forall2_impl_In {A B : Type} (R R' : A -> B -> Prop) l l' :
  (forall x y, In x l -> R x y -> R' x y) -> Forall2 R l l' -> Forall2 R' l l'.
Proof.
  intros Himp HF. induction HF as [|a b l l' Hab HF IH]; constructor.
  - apply Himp; [now left | exact Hab].
  - apply IH. intros x y Hx. apply Himp. now right.
Qed.

Lemma map_snd_combine_seq {A : Type} (l : list A) : forall start,
  map snd (combine (seq start (List.length l)) l) = l.
Proof.
  induction l as [|x l IH]; intro start; [reflexivity|].
  cbn. now rewrite IH.
Qed.

Lemma filter_first_combine_seq {A : Type} (l : list A) : forall start,
  map snd (filter (fun item => fst item =? 0)
                  (combine (seq start (List.length l)) l)) =
  if start =? 0 then firstn 1 l else [].
Proof.
  induction l as [|x l IH]; intro start.
  - cbn. now destruct (start =? 0).
  - cbn [List.length seq combine filter fst]. destruct start as [|s].
    + cbn. now rewrite (IH 1).
    + cbn. apply (IH (S (S s))).
Qed.

Section RemeshTheorems.
Variable Coord : Type.
Variable scaled_count : nat -> Q -> Z.

Lemma kept_faces_incl factor (faces : list (list (BMVert Coord))) face :
  In face (kept_faces factor faces) -> In face faces.
Proof.
  unfold kept_faces. intro H. apply in_map_iff in H.
  destruct H as ([i f] & <- & Hin). apply filter_In in Hin.
  destruct Hin as [Hin _]. apply In_enumerate in Hin.
  eapply nth_error_In. exact Hin.
Qed.

Lemma kept_faces_all (faces : list (list (BMVert Coord))) :
  kept_faces 1 faces = faces.
Proof.
  unfold kept_faces, enumerate.
  rewrite (filter_ext _ (fun _ => true)).
  - rewrite filter_true. apply map_snd_combine_seq.
  - intros [i f]. cbn [fst]. now rewrite Nat.mod_1_r.
Qed.

Lemma kept_faces_first (faces : list (list (BMVert Coord))) :
  kept_faces (List.length faces + 1) faces = firstn 1 faces.
Proof.
  unfold kept_faces, enumerate.
  rewrite (filter_ext_in _ (fun item => fst item =? 0)).
  - apply (filter_first_combine_seq faces 0).
  - intros [i f] Hin. cbn [fst]. apply In_combine_seq in Hin.
    destruct Hin as [_ Hn]. rewrite Nat.sub_0_r in Hn.
    assert (i < List.length faces) by (apply nth_error_Some; congruence).
    rewrite Nat.mod_small by lia. reflexivity.
Qed.

Lemma kept_faces_head factor (face0 : list (BMVert Coord)) rest :
  exists tl, kept_faces factor (face0 :: rest) = face0 :: tl.
Proof.
  unfold kept_faces, enumerate. cbn [List.length seq combine filter fst].
  rewrite Nat.Div0.mod_0_l. cbn [Nat.eqb]. cbn [map snd]. eexists. reflexivity.
Qed.

Lemma perform_remeshing_fst (faces : list (list (BMVert Coord)))
  (s : RemesherSettings) :
  fst (perform_remeshing scaled_count (IsBMesh faces) s) =
  match snd (fst (fst (decimate (decimation_factor scaled_count s
                                   (List.length faces)) faces))),
        snd (decimate (decimation_factor scaled_count s (List.length faces)) faces)
  with
  | [], _ => None
  | _ :: _, [] => None
  | v :: vs, f :: fs => Some (v :: vs, f :: fs)
  end.
Proof.
  unfold perform_remeshing.
  destruct (decimate _ faces) as [[[d vs] c] fs]. cbn [fst snd].
  destruct vs, fs; reflexivity.
Qed.

(** What a successful run returns, in terms of the decimation state. *)
Lemma perform_remeshing_Some (faces : list (list (BMVert Coord)))
  (s : RemesherSettings) verts nf :
  fst (perform_remeshing scaled_count (IsBMesh faces) s) = Some (verts, nf) ->
  exists d c,
    decimate (decimation_factor scaled_count s (List.length faces)) faces
      = (d, verts, c, nf) /\
    verts <> [] /\ nf <> [] /\
    renum_inv (List.concat (kept_faces (decimation_factor scaled_count s
                                          (List.length faces)) faces))
              (d, verts, c) /\
    Forall2 (Forall2 (fun v j => dict_get Nat.eqb d (v_index v) = Some j))
            (kept_faces (decimation_factor scaled_count s (List.length faces)) faces)
            nf.
Proof.
  rewrite perform_remeshing_fst.
  destruct (decimate_spec Coord (decimation_factor scaled_count s (List.length faces))
              faces) as (d & vs & c & fs & Hdec & Hinv & Hall).
  rewrite Hdec. cbn [fst snd].
  destruct vs as [|v vs]; [discriminate|]. destruct fs as [|f fs]; [discriminate|].
  intros [= <- <-]. exists d, c. repeat split; auto; try discriminate; apply Hinv.
Qed.

(** X9. When the placeholder returns a mesh, the mesh is well formed: there
    is one output face per kept input face (the faces at positions 0,
    factor, 2*factor, ...), in the same order and with the same number of
    corners, every corner is a position of the returned vertex list, and
    neither list is empty. *)
Theorem remesh_output_is_well_formed :
  forall (faces : list (list (BMVert Coord))) (settings : RemesherSettings)
         (new_verts_list : list Coord) (new_faces_list : list (list nat)),
    fst (perform_remeshing scaled_count (IsBMesh faces) settings)
      = Some (new_verts_list, new_faces_list) ->
    new_verts_list <> [] /\ new_faces_list <> [] /\
    Forall2 (fun face face_vert_indices =>
               List.length face_vert_indices = List.length face /\
               forall j, In j face_vert_indices -> j < List.length new_verts_list)
            (kept_faces (decimation_factor scaled_count settings (List.length faces))
                        faces)
            new_faces_list.
Proof.
  intros faces s verts nf Hres.
  destruct (perform_remeshing_Some faces s verts nf Hres)
    as (d & c & _ & Hv & Hf & (Hwf & _) & Hall).
  split; [exact Hv|]. split; [exact Hf|].
  eapply Forall2_impl; [|exact Hall]. intros face fi HF. split.
  - symmetry. eapply Forall2_length. exact HF.
  - intros j Hj. destruct (Forall2_In_r _ _ _ _ HF Hj) as (v & _ & Hget).
    pose proof (renum_wf_bound Coord d verts c _ _ Hwf Hget) as Hlt.
    destruct Hwf as (Hc & _). lia.
Qed.

(** X10. The vertex renumbering of a successful run is a bijection between
    the original indices of the vertices of the kept faces and the
    positions of the returned vertex list: every corner of an output face
    is the new number of the corresponding input vertex, two corners get the
    same number exactly when their vertices have the same original index,
    every position of the vertex list is the number of some original index,
    and only indices of vertices of kept faces are numbered. *)
Theorem remesh_renumbering_is_a_bijection :
  forall (faces : list (list (BMVert Coord))) (settings : RemesherSettings)
         (new_verts_list : list Coord) (new_faces_list : list (list nat)),
    fst (perform_remeshing scaled_count (IsBMesh faces) settings)
      = Some (new_verts_list, new_faces_list) ->
    Forall2 (Forall2 (fun v j =>
               renumbering (decimation_factor scaled_count settings
                              (List.length faces)) faces (v_index v) = Some j))
            (kept_faces (decimation_factor scaled_count settings (List.length faces))
                        faces)
            new_faces_list /\
    (forall k k' j,
       renumbering (decimation_factor scaled_count settings (List.length faces))
                   faces k = Some j ->
       renumbering (decimation_factor scaled_count settings (List.length faces))
                   faces k' = Some j ->
       k = k') /\
    (forall j,
       j < List.length new_verts_list <->
       exists k,
         renumbering (decimation_factor scaled_count settings (List.length faces))
                     faces k = Some j) /\
    (forall k,
       renumbering (decimation_factor scaled_count settings (List.length faces))
                   faces k <> None <->
       exists face v,
         In face (kept_faces (decimation_factor scaled_count settings
                                (List.length faces)) faces) /\
         In v face /\ v_index v = k).
Proof.
  intros faces s verts nf Hres.
  destruct (perform_remeshing_Some faces s verts nf Hres)
    as (d & c & Hdec & _ & _ & (Hwf & Hkeys & _) & Hall).
  unfold renumbering. rewrite Hdec. cbn [fst snd] in *.
  split; [exact Hall|]. split; [|split].
  - intros k k' j. apply (renum_wf_injective Coord d verts c). exact Hwf.
  - intro j. split.
    + intro Hlt. destruct Hwf as (Hc & Hsnd & Hnd).
      assert (Hin : In j (map snd d)) by (rewrite Hsnd; apply in_seq; lia).
      apply in_map_iff in Hin. destruct Hin as ([k j'] & Hj & Hin).
      cbn in Hj. subst j'. exists k. now apply (In_dict_get _ nat_eqb_eq).
    + intros (k & Hget).
      pose proof (renum_wf_bound Coord d verts c _ _ Hwf Hget).
      destruct Hwf as (Hc & _). lia.
  - intro k. rewrite Hkeys. split.
    + intros (v & Hin & Hk). apply in_concat in Hin.
      destruct Hin as (face & Hface & Hv). exists face, v. auto.
    + intros (face & v & Hface & Hv & Hk). exists v. split; [|exact Hk].
      apply in_concat. exists face. auto.
Qed.

(** X11. Coordinates survive the renumbering: when vertices with the same
    original index carry the same coordinates, every corner of every output
    face refers, in the returned vertex list, to the coordinates of the
    corresponding vertex of the input face. *)
Theorem remesh_preserves_vertex_coordinates :
  forall (faces : list (list (BMVert Coord))) (settings : RemesherSettings)
         (new_verts_list : list Coord) (new_faces_list : list (list nat)),
    (forall v v', In v (List.concat faces) -> In v' (List.concat faces) ->
                  v_index v = v_index v' -> co v = co v') ->
    fst (perform_remeshing scaled_count (IsBMesh faces) settings)
      = Some (new_verts_list, new_faces_list) ->
    Forall2 (Forall2 (fun v j => nth_error new_verts_list j = Some (co v)))
            (kept_faces (decimation_factor scaled_count settings (List.length faces))
                        faces)
            new_faces_list.
Proof.
  intros faces s verts nf Hcons Hres.
  destruct (perform_remeshing_Some faces s verts nf Hres)
    as (d & c & _ & _ & _ & (_ & _ & Hco) & Hall).
  cbn [fst snd] in Hco.
  assert (Hco' : forall k j, dict_get Nat.eqb d k = Some j ->
                 exists v0, In v0 (List.concat faces) /\ v_index v0 = k /\
                            nth_error verts j = Some (co v0)).
  { intros k j Hget. destruct (Hco k j Hget) as (v0 & Hin0 & Hidx & Hnth).
    exists v0. split; [|auto]. apply in_concat in Hin0.
    destruct Hin0 as (f0 & Hf0 & Hv0). apply in_concat. exists f0.
    split; [now apply kept_faces_incl in Hf0 | exact Hv0]. }
  eapply Forall2_impl_In; [|exact Hall].
  intros face fi Hface HF. cbv beta in HF.
  eapply Forall2_impl_In; [|exact HF].
  intros v j Hv Hget. cbv beta in Hget.
  destruct (Hco' _ _ Hget) as (v0 & Hin0 & Hidx & Hnth).
  rewrite Hnth. f_equal. apply Hcons; auto.
  apply in_concat. exists face. split; [now apply kept_faces_incl in Hface | exact Hv].
Qed.

Lemma decimation_factor_positive (s : RemesherSettings) n :
  1 <= decimation_factor scaled_count s n.
Proof.
  unfold decimation_factor.
  destruct (String.eqb (target_mode s) "POLYCOUNT" && polycount_is_percentage s);
    [|lia].
  destruct ((0 <? scaled_count n (polycount_percentage s))%Z && (0 <? n)); lia.
Qed.

(** X12. The decimation factor is at least 1, so the first face is always
    kept; the placeholder returns nothing exactly when the kept faces have
    no vertex at all (in particular for a mesh without faces), and for an
    input that is not a BMesh. *)
Theorem remesh_returns_nothing_iff_no_kept_vertex :
  forall (settings : RemesherSettings),
    (forall n, 1 <= decimation_factor scaled_count settings n) /\
    (forall (face0 : list (BMVert Coord)) rest,
       exists tl,
         kept_faces (decimation_factor scaled_count settings
                       (List.length (face0 :: rest))) (face0 :: rest)
         = face0 :: tl) /\
    (forall faces : list (list (BMVert Coord)),
       fst (perform_remeshing scaled_count (IsBMesh faces) settings) = None <->
       List.concat (kept_faces (decimation_factor scaled_count settings
                                  (List.length faces)) faces) = []) /\
    fst (perform_remeshing scaled_count (@NotBMesh Coord) settings) = None.
Proof.
  intro s. split; [apply decimation_factor_positive|].
  split; [intros; apply kept_faces_head|]. split; [|reflexivity].
  intro faces. rewrite perform_remeshing_fst.
  destruct (decimate_spec Coord (decimation_factor scaled_count s (List.length faces))
              faces) as (d & vs & c & fs & Hdec & ((Hc & Hsnd & _) & Hkeys & _) & Hall).
  rewrite Hdec. cbn [fst snd] in *.
  set (kept := kept_faces (decimation_factor scaled_count s (List.length faces)) faces)
    in *.
  assert (Hvs : vs = [] <-> List.concat kept = []).
  { split.
    - intros ->. cbn in Hc. subst c. cbn in Hsnd.
      destruct d as [|[k j] d]; [|discriminate].
      destruct (List.concat kept) as [|v l] eqn:E; [reflexivity|].
      exfalso. apply (proj2 (Hkeys (v_index v))); [|reflexivity].
      exists v. split; [now left | reflexivity].
    - intro Hnil. rewrite Hnil in Hkeys.
      destruct d as [|[k j] d].
      + cbn in Hsnd. destruct c; [|discriminate]. now destruct vs.
      + exfalso. destruct (proj1 (Hkeys k)) as (v & [] & _).
        cbn. rewrite Nat.eqb_refl. discriminate. }
  destruct vs as [|v vs].
  - split; [intros _; now apply Hvs | reflexivity].
  - destruct fs as [|f fs].
    + split; [|reflexivity]. intros _. inversion Hall as [Hk|]. reflexivity.
    + split; [discriminate|]. intro Hnil. apply Hvs in Hnil. discriminate.
Qed.

(** X13. In relative polycount mode the placeholder keeps every face when
    the target count is at least the number of faces, and keeps only the
    first face when the target count is zero or negative. In every other
    mode the factor is 5. *)
Theorem remesh_percentage_mode_extremes :
  forall (faces : list (list (BMVert Coord))) (settings : RemesherSettings),
    (target_mode settings = "POLYCOUNT"%string ->
     polycount_is_percentage settings = true ->
     (faces <> [] ->
      (Z.of_nat (List.length faces)
       <= scaled_count (List.length faces) (polycount_percentage settings))%Z ->
      kept_faces (decimation_factor scaled_count settings (List.length faces)) faces
        = faces) /\
     ((scaled_count (List.length faces) (polycount_percentage settings) <= 0)%Z ->
      kept_faces (decimation_factor scaled_count settings (List.length faces)) faces
        = firstn 1 faces)) /\
    (target_mode settings <> "POLYCOUNT"%string \/
     polycount_is_percentage settings = false ->
     decimation_factor scaled_count settings (List.length faces) = 5).
Proof.
  intros faces s. split.
  - intros Hmode Hpct. unfold decimation_factor. rewrite Hmode, Hpct.
    rewrite String.eqb_refl. cbn [andb]. split.
    + intros Hne Hle.
      assert (Hlen : 0 < List.length faces) by (destruct faces; [congruence | cbn; lia]).
      assert (Hpos : (0 < scaled_count (List.length faces) (polycount_percentage s))%Z)
        by lia.
      apply Z.ltb_lt in Hpos. rewrite Hpos. apply Nat.ltb_lt in Hlen. rewrite Hlen.
      cbn [andb]. apply Z.ltb_lt in Hpos.
      assert (Hdiv : (Z.of_nat (List.length faces)
                      / scaled_count (List.length faces) (polycount_percentage s)
                      <= 1)%Z).
      { destruct (Z.eq_dec (Z.of_nat (List.length faces))
                    (scaled_count (List.length faces) (polycount_percentage s)))
          as [E | E].
        - rewrite <- E. rewrite Z.div_same by lia. lia.
        - rewrite Z.div_small by lia. lia. }
      replace (Z.to_nat (Z.max 1 _)) with 1 by lia.
      apply kept_faces_all.
    + intro Hle.
      assert (Hnp : (0 <? scaled_count (List.length faces) (polycount_percentage s))%Z
                    = false) by (apply Z.ltb_ge; exact Hle).
      rewrite Hnp. cbn [andb]. apply kept_faces_first.
  - intros [Hmode | Hpct]; unfold decimation_factor.
    + apply String.eqb_neq in Hmode. now rewrite Hmode.
    + rewrite Hpct. now rewrite andb_false_r.
Qed.
End RemeshTheorems.

(** ** Selected mesh objects *)

Lemma list_mem_In x l : list_mem x l = true <-> In x l.
Proof.
  unfold list_mem. rewrite existsb_exists. split.
  - intros (y & Hy & E). apply Nat.eqb_eq in E. now subst.
  - intro H. exists x. split; [exact H | apply Nat.eqb_refl].
Qed.

Lemma list_remove_perm x l : In x l -> Permutation (x :: list_remove x l) l.
Proof.
  induction l as [|y l IH]; [intros []|]. cbn [list_remove].
  destruct (x =? y) eqn:E.
  - apply Nat.eqb_eq in E. subst. reflexivity.
  - intros [-> | Hin]; [rewrite Nat.eqb_refl in E; discriminate|].
    rewrite perm_swap. constructor. now apply IH.
Qed.

Section SelectedObjects.
Variable obj_type : nat -> string.

(** X14. [get_selected_mesh_objects] returns the selected objects of type
    MESH, each as often as it is selected and none else: the result is a
    rearrangement of the selection filtered by type. When the active object
    is a selected mesh it comes first and the others keep their order;
    otherwise the filtered selection is returned as it is, and an active
    object that is not selected is never added. *)
Theorem selected_mesh_objects_active_first :
  forall (context : Context),
    Permutation (get_selected_mesh_objects obj_type context)
                (filter (is_mesh obj_type) (selected_objects context)) /\
    (forall obj, In obj (get_selected_mesh_objects obj_type context) ->
                 In obj (selected_objects context) /\
                 obj_type obj = "MESH"%string) /\
    (forall active,
       active_object context = Some active ->
       obj_type active = "MESH"%string ->
       In active (selected_objects context) ->
       get_selected_mesh_objects obj_type context =
       active :: list_remove active
                   (filter (is_mesh obj_type) (selected_objects context))) /\
    ((forall active, active_object context = Some active ->
                     obj_type active <> "MESH"%string \/
                     ~ In active (selected_objects context)) ->
     get_selected_mesh_objects obj_type context =
     filter (is_mesh obj_type) (selected_objects context)).
Proof.
  intro context.
  assert (Hperm : Permutation (get_selected_mesh_objects obj_type context)
                    (filter (is_mesh obj_type) (selected_objects context))).
  { unfold get_selected_mesh_objects.
    destruct (active_object context) as [a|]; [|reflexivity].
    destruct (is_mesh obj_type a && list_mem a _) eqn:E; [|reflexivity].
    apply andb_true_iff in E. destruct E as [_ E]. apply list_mem_In in E.
    cbn [app]. now apply list_remove_perm. }
  split; [exact Hperm|]. split; [|split].
  - intros obj Hin. apply (Permutation_in _ Hperm) in Hin.
    apply filter_In in Hin. destruct Hin as [Hin Hm]. split; [exact Hin|].
    unfold is_mesh in Hm. now apply String.eqb_eq in Hm.
  - intros a Ha Hty Hin. unfold get_selected_mesh_objects. rewrite Ha.
    assert (Hm : is_mesh obj_type a = true)
      by (unfold is_mesh; now apply String.eqb_eq).
    assert (Hmem : list_mem a (filter (is_mesh obj_type) (selected_objects context))
                   = true)
      by (apply list_mem_In, filter_In; auto).
    rewrite Hm, Hmem. reflexivity.
  - intro Hno. unfold get_selected_mesh_objects.
    destruct (active_object context) as [a|]; [|reflexivity].
    destruct (is_mesh obj_type a && list_mem a _) eqn:E; [|reflexivity].
    apply andb_true_iff in E. destruct E as [Hm E]. apply list_mem_In in E.
    apply filter_In in E. destruct E as [Hin _].
    unfold is_mesh in Hm. apply String.eqb_eq in Hm.
    destruct (Hno a eq_refl) as [H | H]; contradiction.
Qed.
End SelectedObjects.

(** ** Preview draw handlers *)

Lemma dict_pop_get {V : Type} (d : list (Z * V)) key k :
  dict_get Z.eqb (snd (dict_pop d key)) k =
  if Z.eqb k key then None else dict_get Z.eqb d k.
Proof.
  unfold dict_pop. cbn [snd].
  induction d as [|[k' v] d IH]; cbn [filter fst dict_get].
  - now destruct (Z.eqb k key).
  - destruct (Z.eqb key k') eqn:E; cbn [negb].
    + apply Z.eqb_eq in E. subst k'. rewrite IH.
      now destruct (Z.eqb k key).
    + cbn [dict_get]. rewrite IH.
      destruct (Z.eqb k k') eqn:E'; [|reflexivity].
      apply Z.eqb_eq in E'. subst k'. rewrite Z.eqb_sym, E. reflexivity.
Qed.

Lemma z_eqb_eq : forall a b, Z.eqb a b = true <-> a = b.
Proof. exact Z.eqb_eq. Qed.

Section DrawHandlerFacts.
Variable Handler : Type.
Variable Coord : Type.
Variable hash : option nat -> Z.
Variable remove_raises : Handler -> bool.

Lemma remove_preview_handler_parts (area : option nat)
  (handlers : list (Z * Handler)) :
  snd (fst (remove_preview_handler (Coord := Coord) hash remove_raises area handlers))
    = snd (dict_pop handlers (hash area)) /\
  fst (fst (remove_preview_handler (Coord := Coord) hash remove_raises area handlers))
    = match dict_get Z.eqb handlers (hash area) with
      | Some h => if remove_raises h then Raised else Returned true
      | None => Returned false
      end.
Proof.
  unfold remove_preview_handler, dict_pop.
  destruct (dict_get Z.eqb handlers (hash area)) as [h|]; [|split; reflexivity].
  destruct (remove_raises h); split; reflexivity.
Qed.

Lemma remove_preview_handler_pops_area (area : option nat)
  (handlers : list (Z * Handler)) :
  dict_get Z.eqb
    (snd (fst (remove_preview_handler (Coord := Coord) hash remove_raises area handlers)))
    (hash area) = None /\
  (forall k, k <> hash area ->
     dict_get Z.eqb
       (snd (fst (remove_preview_handler (Coord := Coord) hash remove_raises area
                    handlers))) k
     = dict_get Z.eqb handlers k) /\
  (fst (fst (remove_preview_handler (Coord := Coord) hash remove_raises area handlers))
     = Returned true <->
   exists h, dict_get Z.eqb handlers (hash area) = Some h /\
             remove_raises h = false) /\
  (fst (fst (remove_preview_handler (Coord := Coord) hash remove_raises area handlers))
     = Returned false <->
   dict_get Z.eqb handlers (hash area) = None).
Proof.
  destruct (remove_preview_handler_parts area handlers) as (Hsnd & Hfst).
  rewrite Hfst, Hsnd.
  split; [rewrite dict_pop_get; now rewrite Z.eqb_refl|]. split; [|split].
  - intros k Hk. rewrite dict_pop_get.
    apply Z.eqb_neq in Hk. now rewrite Hk.
  - destruct (dict_get Z.eqb handlers (hash area)) as [h|].
    + destruct (remove_raises h) eqn:E.
      * split; [discriminate | intros (h' & [= <-] & H); congruence].
      * split; [eauto | reflexivity].
    + split; [discriminate | intros (h & H & _); discriminate].
  - destruct (dict_get Z.eqb handlers (hash area)) as [h|].
    + destruct (remove_raises h); split; discriminate.
    + tauto.
Qed.

(** X15. [remove_preview_handler] always takes the entry of the area out of
    the dictionary, also when the host call raises, and leaves the other
    entries alone; it returns True exactly when there was an entry whose
    removal from the host went through, False exactly when there was none;
    called again on the result it returns False and does nothing. *)
Theorem remove_preview_handler_pops_the_area_entry :
  forall (area : option nat) (handlers : list (Z * Handler)),
    dict_get Z.eqb
      (snd (fst (remove_preview_handler (Coord := Coord) hash remove_raises area handlers)))
      (hash area) = None /\
    (forall k, k <> hash area ->
       dict_get Z.eqb
         (snd (fst (remove_preview_handler (Coord := Coord) hash remove_raises area
                      handlers))) k
       = dict_get Z.eqb handlers k) /\
    (fst (fst (remove_preview_handler (Coord := Coord) hash remove_raises area handlers))
       = Returned true <->
     exists h, dict_get Z.eqb handlers (hash area) = Some h /\
               remove_raises h = false) /\
    (fst (fst (remove_preview_handler (Coord := Coord) hash remove_raises area handlers))
       = Returned false <->
     dict_get Z.eqb handlers (hash area) = None) /\
    remove_preview_handler (Coord := Coord) hash remove_raises area
      (snd (fst (remove_preview_handler (Coord := Coord) hash remove_raises area
                   handlers)))
    = (Returned false,
       snd (fst (remove_preview_handler (Coord := Coord) hash remove_raises area
                   handlers)),
       []).
Proof.
  intros area handlers.
  destruct (remove_preview_handler_pops_area area handlers)
    as (Hnone & Hother & Htrue & Hfalse).
  split; [exact Hnone|]. split; [exact Hother|]. split; [exact Htrue|].
  split; [exact Hfalse|].
  destruct (remove_preview_handler_parts area handlers) as (Hsnd & _).
  rewrite Hsnd in *.
  unfold remove_preview_handler at 1.
  unfold dict_pop at 1. rewrite Hnone.
  f_equal. f_equal. unfold dict_pop. cbn [snd]. clear.
  induction handlers as [|[k v] d IH]; [reflexivity|].
  cbn [filter fst]. destruct (Z.eqb (hash area) k) eqn:E; cbn [negb]; [exact IH|].
  cbn [filter fst]. rewrite E. cbn [negb]. now rewrite IH.
Qed.

Lemma edge_coordinates_nonempty {Vector : Type} (bm : BMesh Vector)
  (vert_co : nat -> Coord) (edges_bm : list nat) :
  edge_coordinates bm vert_co edges_bm <> [] <->
  exists e, In e edges_bm /\ valid_ref bm e = true.
Proof.
  unfold edge_coordinates, valid_ref.
  induction edges_bm as [|e es IH]; cbn [flat_map].
  - split; [congruence | intros (e & [] & _)].
  - destruct (nth_error (edges bm) e) as [x|] eqn:Hx.
    + destruct (is_valid x) eqn:Hv.
      * split; [|discriminate]. intros _. exists e. split; [now left|].
        now rewrite Hx.
      * cbn [app]. rewrite IH. split.
        -- intros (e' & Hin & H). exists e'. split; [now right | exact H].
        -- intros (e' & [<- | Hin] & H); [rewrite Hx in H; congruence | eauto].
    + cbn [app]. rewrite IH. split.
      * intros (e' & Hin & H). exists e'. split; [now right | exact H].
      * intros (e' & [<- | Hin] & H); [rewrite Hx in H; discriminate | eauto].
Qed.

(** X16. After [add_preview_handler] the area has at most one handler, and
    it is the new one: the entry of the area is the new handle exactly when
    removing the previous handler did not raise, the object and its data are
    there, and some edge of the set is a valid edge of the mesh; in every
    other case the area has no entry left. Entries of other areas are not
    touched. *)
Theorem add_preview_handler_replaces_the_area_entry :
  forall (Vector : Type) (area : option nat) (obj_with_data : bool)
         (bm : BMesh Vector) (vert_co : nat -> Coord) (edges_bm : list nat)
         (new_handler : Handler) (handlers : list (Z * Handler)),
    (forall k, k <> hash area ->
       dict_get Z.eqb
         (snd (fst (add_preview_handler hash remove_raises area obj_with_data bm
                      vert_co edges_bm new_handler handlers))) k
       = dict_get Z.eqb handlers k) /\
    (((forall h, dict_get Z.eqb handlers (hash area) = Some h ->
                 remove_raises h = false) /\
      obj_with_data = true /\
      exists e, In e edges_bm /\ valid_ref bm e = true) ->
     dict_get Z.eqb
       (snd (fst (add_preview_handler hash remove_raises area obj_with_data bm
                    vert_co edges_bm new_handler handlers))) (hash area)
     = Some new_handler) /\
    (~ ((forall h, dict_get Z.eqb handlers (hash area) = Some h ->
                   remove_raises h = false) /\
        obj_with_data = true /\
        exists e, In e edges_bm /\ valid_ref bm e = true) ->
     dict_get Z.eqb
       (snd (fst (add_preview_handler hash remove_raises area obj_with_data bm
                    vert_co edges_bm new_handler handlers))) (hash area)
     = None).
Proof.
  intros Vector area owd bm vert_co edges_bm nh handlers.
  destruct (remove_preview_handler_pops_area area handlers)
    as (Hnone & Hother & Htrue & Hfalse).
  unfold add_preview_handler.
  destruct (remove_preview_handler (Coord := Coord) hash remove_raises area handlers)
    as [[res handlers'] out] eqn:Hrem.
  cbn [fst snd] in *.
  pose proof (edge_coordinates_nonempty bm vert_co edges_bm) as Hcoords.
  destruct res as [b|].
  - assert (Hok : forall h, dict_get Z.eqb handlers (hash area) = Some h ->
                            remove_raises h = false).
    { intros h Hh. destruct b.
      - destruct (proj1 Htrue eq_refl) as (h' & Hh' & Hr). congruence.
      - rewrite (proj1 Hfalse eq_refl) in Hh. discriminate. }
    destruct owd; cbn [negb].
    + destruct edges_bm as [|e0 es].
      * cbn [fst snd]. split; [exact Hother|]. split.
        -- intros (_ & _ & e & [] & _).
        -- intros _. exact Hnone.
      * destruct (edge_coordinates bm vert_co (e0 :: es)) as [|c cs] eqn:Hc;
          cbn [fst snd].
        -- split; [exact Hother|]. split.
           ++ intros (_ & _ & Hex). apply Hcoords in Hex. congruence.
           ++ intros _. exact Hnone.
        -- split; [|split].
           ++ intros k Hk. rewrite (dict_get_set_other _ z_eqb_eq) by exact Hk.
              now apply Hother.
           ++ intros _. apply (dict_get_set_same _ z_eqb_eq).
           ++ intro Hn. exfalso. apply Hn. split; [exact Hok|].
              split; [reflexivity|]. apply Hcoords. discriminate.
    + cbn [fst snd]. split; [exact Hother|]. split.
      * intros (_ & Hf & _). discriminate.
      * intros _. exact Hnone.
  - cbn [fst snd]. split; [exact Hother|]. split.
    + intros (Hok & _). exfalso.
      destruct (dict_get Z.eqb handlers (hash area)) as [h|] eqn:Hh.
      * specialize (Hok h eq_refl).
        assert (Raised = Returned true) by (apply Htrue; eauto). discriminate.
      * assert (@Raised bool = Returned false) by now apply Hfalse. discriminate.
    + intros _. exact Hnone.
Qed.
End DrawHandlerFacts.

Section ClearAll.
Variable Handler : Type.
Variable Coord : Type.
Variable remove_raises : Handler -> bool.

Lemma filter_other_keys (d : list (Z * Handler)) (k : Z) :
  ~ In k (map fst d) ->
  filter (fun kv => negb (Z.eqb k (fst kv))) d = d.
Proof.
  induction d as [|[k' v] d IH]; [reflexivity|]. cbn [map fst filter In].
  intro Hni. destruct (Z.eqb k k') eqn:E.
  - apply Z.eqb_eq in E. subst. exfalso. apply Hni. now left.
  - cbn [negb]. rewrite IH; [reflexivity|]. intro H. apply Hni. now right.
Qed.

Lemma clear_fold (d : list (Z * Handler)) : forall count out,
  NoDup (map fst d) ->
  fold_left (clear_step (Coord := Coord) remove_raises) (map fst d) (d, count, out) =
  ([],
   count + List.length (filter (fun kv => negb (remove_raises (snd kv))) d),
   out ++ flat_map (fun kv =>
                      if remove_raises (snd kv)
                      then [EvDrawHandlerRemove (snd kv); EvPrintRemoveError (snd kv)]
                      else [EvDrawHandlerRemove (snd kv)]) d).
Proof.
  induction d as [|[k h] d IH]; intros count out Hnd.
  - cbn. now rewrite Nat.add_0_r, app_nil_r.
  - inversion Hnd as [|? ? Hni Hnd']; subst.
    cbn [map fst fold_left]. unfold clear_step at 2, dict_pop.
    cbn [dict_get filter fst snd]. rewrite Z.eqb_refl. cbn [negb].
    rewrite (filter_other_keys d k Hni).
    destruct (remove_raises h) eqn:E; rewrite IH by exact Hnd';
      cbn [filter flat_map snd negb]; rewrite E; cbn [negb List.length].
    + rewrite <- app_assoc. reflexivity.
    + rewrite <- app_assoc. f_equal. f_equal. lia.
Qed.

(** X17. [clear_all_preview_handlers] leaves the dictionary empty whatever
    the host does. It asks the host to remove every stored handle, in the
    order of the dictionary, reports each refusal, counts the removals that
    went through, and announces the count and redraws the views only when
    the count is not zero. *)
Theorem clear_all_preview_handlers_empties_the_dictionary :
  forall (handlers : list (Z * Handler)),
    NoDup (map fst handlers) ->
    clear_all_preview_handlers (Coord := Coord) remove_raises handlers =
    ([],
     flat_map (fun kv =>
                 if remove_raises (snd kv)
                 then [EvDrawHandlerRemove (snd kv); EvPrintRemoveError (snd kv)]
                 else [EvDrawHandlerRemove (snd kv)]) handlers
     ++ (if 0 <? List.length (filter (fun kv => negb (remove_raises (snd kv)))
                                     handlers)
         then [EvPrintCleared
                 (List.length (filter (fun kv => negb (remove_raises (snd kv)))
                                      handlers));
               EvRedrawAllViews]
         else [])).
Proof.
  intros handlers Hnd. unfold clear_all_preview_handlers.
  rewrite (clear_fold handlers 0 [] Hnd). cbn [Nat.add app].
  destruct (0 <? _); [reflexivity | now rewrite app_nil_r].
Qed.
End ClearAll.

Lemma clear_all_preview_handlers_empties_the_dictionary_witness :
  NoDup (map fst two_previews) /\
  clear_all_preview_handlers (Coord := Z) refuses_200 two_previews =
  ([],
   [ EvDrawHandlerRemove 100; EvDrawHandlerRemove 200; EvPrintRemoveError 200;
     EvPrintCleared 1; EvRedrawAllViews ]).
Proof.
  split; [repeat constructor; cbn; intuition discriminate|].
  apply (clear_all_preview_handlers_empties_the_dictionary nat Z refuses_200
           two_previews).
  repeat constructor; cbn; intuition discriminate.
Defined.

(** ** Worked runs of the further properties *)

Lemma pass_ignores_curvature_uv_and_length_options_witness :
  same_emitting_options seams_only_settings quiet_settings /\
  fst (auto_detect_and_mark_edges heading_angle (Some junction_star)
         (Some seams_only_settings)) =
  fst (auto_detect_and_mark_edges heading_angle (Some junction_star)
         (Some quiet_settings)).
Proof.
  split; [repeat split|].
  apply (pass_ignores_curvature_uv_and_length_options (option Q) heading_angle
           junction_star seams_only_settings quiet_settings).
  repeat split.
Defined.

Lemma quad_strip_coordinates v :
  In v (List.concat quad_strip) -> co v = Z.of_nat (v_index v).
Proof.
  intro H. cbn in H.
  repeat (destruct H as [<- | H]; [reflexivity|]). destruct H.
Qed.

Lemma remesh_output_is_well_formed_witness :
  fst (perform_remeshing count_not_computed (IsBMesh quad_strip) edge_length_settings)
    = Some ([0; 1; 3; 2; 10; 11; 13; 12]%Z, [[0; 1; 2; 3]; [4; 5; 6; 7]]) /\
  [0; 1; 3; 2; 10; 11; 13; 12]%Z <> [] /\
  [[0; 1; 2; 3]; [4; 5; 6; 7]] <> [] /\
  Forall2 (fun face face_vert_indices =>
             List.length face_vert_indices = List.length face /\
             forall j, In j face_vert_indices ->
                       j < List.length [0; 1; 3; 2; 10; 11; 13; 12]%Z)
          (kept_faces (decimation_factor count_not_computed edge_length_settings
                         (List.length quad_strip)) quad_strip)
          [[0; 1; 2; 3]; [4; 5; 6; 7]].
Proof.
  split; [vm_compute; reflexivity|].
  apply (remesh_output_is_well_formed Z count_not_computed quad_strip
           edge_length_settings).
  vm_compute. reflexivity.
Defined.

Lemma remesh_renumbering_is_a_bijection_witness :
  fst (perform_remeshing count_not_computed (IsBMesh quad_strip) edge_length_settings)
    = Some ([0; 1; 3; 2; 10; 11; 13; 12]%Z, [[0; 1; 2; 3]; [4; 5; 6; 7]]) /\
  renumbering (decimation_factor count_not_computed edge_length_settings
                 (List.length quad_strip)) quad_strip 13 = Some 6 /\
  forall k k' j,
    renumbering (decimation_factor count_not_computed edge_length_settings
                   (List.length quad_strip)) quad_strip k = Some j ->
    renumbering (decimation_factor count_not_computed edge_length_settings
                   (List.length quad_strip)) quad_strip k' = Some j ->
    k = k'.
Proof.
  split; [vm_compute; reflexivity|]. split; [vm_compute; reflexivity|].
  apply (remesh_renumbering_is_a_bijection Z count_not_computed quad_strip
           edge_length_settings [0; 1; 3; 2; 10; 11; 13; 12]%Z
           [[0; 1; 2; 3]; [4; 5; 6; 7]]).
  vm_compute. reflexivity.
Defined.

Lemma remesh_preserves_vertex_coordinates_witness :
  (forall v v', In v (List.concat quad_strip) -> In v' (List.concat quad_strip) ->
                v_index v = v_index v' -> co v = co v') /\
  fst (perform_remeshing count_not_computed (IsBMesh quad_strip) edge_length_settings)
    = Some ([0; 1; 3; 2; 10; 11; 13; 12]%Z, [[0; 1; 2; 3]; [4; 5; 6; 7]]) /\
  Forall2 (Forall2 (fun v j =>
             nth_error [0; 1; 3; 2; 10; 11; 13; 12]%Z j = Some (co v)))
          (kept_faces (decimation_factor count_not_computed edge_length_settings
                         (List.length quad_strip)) quad_strip)
          [[0; 1; 2; 3]; [4; 5; 6; 7]].
Proof.
  assert (Hcons : forall v v', In v (List.concat quad_strip) ->
                    In v' (List.concat quad_strip) ->
                    v_index v = v_index v' -> co v = co v').
  { intros v v' Hv Hv' Hidx.
    rewrite (quad_strip_coordinates v Hv), (quad_strip_coordinates v' Hv').
    now rewrite Hidx. }
  split; [exact Hcons|]. split; [vm_compute; reflexivity|].
  apply (remesh_preserves_vertex_coordinates Z count_not_computed quad_strip
           edge_length_settings _ _ Hcons).
  vm_compute. reflexivity.
Defined.

(** ** The aggregator, exactly *)

Lemma dict_append_candidates_of m e x e' :
  candidates_of (dict_append m e x) e' =
  if e' =? e then candidates_of m e ++ [x] else candidates_of m e'.
Proof.
  unfold candidates_of at 1. rewrite dict_append_get.
  destruct (e' =? e); reflexivity.
Qed.

Lemma edge_mem_In e s : edge_mem e s = true <-> In e s.
Proof.
  unfold edge_mem. split.
  - apply set_mem_correct1.
  - apply set_mem_correct2.
Qed.

Lemma add_candidates_exact (es : list nat) t q : forall m e,
  NoDup es ->
  candidates_of (add_candidates m es t q) e =
  candidates_of m e ++ (if edge_mem e es then [(t, q)] else []).
Proof.
  unfold add_candidates.
  induction es as [|e0 es IH]; intros m e Hnd; cbn [fold_left].
  - cbn. now rewrite app_nil_r.
  - inversion Hnd as [|? ? Hni Hnd']; subst.
    rewrite (IH _ e Hnd'), dict_append_candidates_of.
    unfold edge_mem at 2. cbn [set_mem].
    destruct (Nat.eq_dec e e0) as [-> | Hne].
    + rewrite Nat.eqb_refl.
      destruct (edge_mem e0 es) eqn:E;
        [apply edge_mem_In in E; contradiction | now rewrite app_nil_r].
    + apply Nat.eqb_neq in Hne. rewrite Hne. reflexivity.
Qed.

(** X18. [add_candidates] appends the detection once to the candidate list
    of every edge of the set, creating the list for an edge that had none,
    and changes the list of no other edge; the keys of the map stay
    distinct and no key is bound to an empty list. *)
Theorem add_candidates_appends_one_detection_per_edge :
  forall (all_detected_candidates_map : CandidateMap) (edges : list nat)
         (det_type : string) (metric : Q),
    NoDup edges ->
    NoDup (map fst all_detected_candidates_map) ->
    no_empty_entry all_detected_candidates_map ->
    (forall e,
       In e edges ->
       dict_get Nat.eqb
         (add_candidates all_detected_candidates_map edges det_type metric) e
       = Some (candidates_of all_detected_candidates_map e ++ [(det_type, metric)])) /\
    (forall e,
       ~ In e edges ->
       dict_get Nat.eqb
         (add_candidates all_detected_candidates_map edges det_type metric) e
       = dict_get Nat.eqb all_detected_candidates_map e) /\
    NoDup (map fst (add_candidates all_detected_candidates_map edges det_type metric)) /\
    no_empty_entry (add_candidates all_detected_candidates_map edges det_type metric).
Proof.
  intros m es t q Hes Hnd Hne.
  destruct (add_candidates_spec es t q m) as (_ & Hne' & Hnd').
  specialize (Hne' Hne). specialize (Hnd' Hnd).
  split; [|split; [|split]]; auto.
  - intros e He. pose proof (add_candidates_exact es t q m e Hes) as Hex.
    apply edge_mem_In in He. rewrite He in Hex.
    unfold candidates_of at 1 in Hex.
    destruct (dict_get Nat.eqb (add_candidates m es t q) e) as [l|] eqn:Hget;
      [now rewrite Hex|].
    exfalso. destruct (candidates_of m e); discriminate.
  - intros e He. pose proof (add_candidates_exact es t q m e Hes) as Hex.
    destruct (edge_mem e es) eqn:E; [apply edge_mem_In in E; contradiction|].
    rewrite app_nil_r in Hex. unfold candidates_of in Hex.
    destruct (dict_get Nat.eqb (add_candidates m es t q) e) as [l|] eqn:Hget,
             (dict_get Nat.eqb m e) as [l'|] eqn:Hget'.
    + now subst.
    + subst l. exfalso. apply (Hne' e). exact Hget.
    + subst l'. exfalso. apply (Hne e). exact Hget'.
    + reflexivity.
Qed.

Lemma add_candidates_appends_one_detection_per_edge_witness :
  NoDup [0; 4] /\
  NoDup (map fst junction_star_sources) /\
  no_empty_entry junction_star_sources /\
  (forall e,
     In e [0; 4] ->
     dict_get Nat.eqb
       (add_candidates junction_star_sources [0; 4] TYPE_BLENDER_CREASE 1%Q) e
     = Some (candidates_of junction_star_sources e ++ [(TYPE_BLENDER_CREASE, 1%Q)])) /\
  (forall e,
     ~ In e [0; 4] ->
     dict_get Nat.eqb
       (add_candidates junction_star_sources [0; 4] TYPE_BLENDER_CREASE 1%Q) e
     = dict_get Nat.eqb junction_star_sources e) /\
  NoDup (map fst (add_candidates junction_star_sources [0; 4] TYPE_BLENDER_CREASE 1%Q)) /\
  no_empty_entry (add_candidates junction_star_sources [0; 4] TYPE_BLENDER_CREASE 1%Q).
Proof.
  assert (H1 : NoDup [0; 4]) by (repeat constructor; cbn; intuition discriminate).
  assert (H2 : NoDup (map fst junction_star_sources))
    by (repeat constructor; cbn; intuition discriminate).
  assert (H3 : no_empty_entry junction_star_sources).
  { intros e. cbn.
    repeat match goal with
           | |- context [if ?c then _ else _] => destruct c
           end; discriminate. }
  split; [exact H1|]. split; [exact H2|]. split; [exact H3|].
  apply (add_candidates_appends_one_detection_per_edge junction_star_sources [0; 4]
           TYPE_BLENDER_CREASE 1%Q H1 H2 H3).
Defined.

Lemma aggregate_exact (batches : list (list nat * Detection)) : forall m e,
  (forall b, In b batches -> NoDup (fst b)) ->
  candidates_of (aggregate batches m) e =
  candidates_of m e
  ++ flat_map (fun b => if edge_mem e (fst b) then [snd b] else []) batches.
Proof.
  unfold aggregate.
  induction batches as [|[es [t q]] batches IH]; intros m e Hnd;
    cbn [fold_left flat_map fst snd].
  - now rewrite app_nil_r.
  - rewrite IH by (intros b Hb; apply Hnd; now right).
    rewrite add_candidates_exact by (apply (Hnd (es, (t, q))); now left).
    now rewrite <- app_assoc.
Qed.

Lemma flat_map_types_NoDup (batches : list (list nat * Detection)) e :
  NoDup (map (fun b => fst (snd b)) batches) ->
  NoDup (map fst (flat_map (fun b => if edge_mem e (fst b) then [snd b] else [])
                           batches)).
Proof.
  induction batches as [|[es d] batches IH]; cbn [map flat_map fst snd];
    intro Hnd; [constructor|].
  inversion Hnd as [|? ? Hni Hnd']; subst.
  destruct (edge_mem e es); cbn [app map]; [|now apply IH].
  constructor; [|now apply IH].
  intro Hin. apply Hni. apply in_map_iff in Hin.
  destruct Hin as (d' & Hd' & Hin). apply in_flat_map in Hin.
  destruct Hin as ([es' d''] & Hb & Hin'). cbn [fst snd] in Hin'.
  destruct (edge_mem e es'); [|destruct Hin'].
  destruct Hin' as [<- | []]. rewrite <- Hd'.
  apply in_map_iff. exists (es', d''). auto.
Qed.

Section ExactCandidates.
Variable Vector : Type.
Variable angle : Vector -> Vector -> Outcome Q.

Lemma detector_batches_NoDup (bm : option (BMesh Vector)) (s : Settings)
  batches b :
  detector_batches angle bm s = Returned batches ->
  In b batches -> NoDup (fst b).
Proof.
  intros Hb Hin. apply detector_batches_Returned in Hb.
  destruct Hb as (A & B & HA & HB & ->). rewrite !in_app_iff in Hin.
  destruct Hin as [[<- | []] | [H | [H | H]]].
  - cbn [fst]. exact (am2a_NoDup _ _ _ _ _ HA).
  - apply in_map_iff in H. destruct H as ([t es] & <- & Hin). cbn [fst snd].
    assert (Hnd : NoDup (map fst B)).
    { rewrite (am2b_keys _ _ _ _ _ _ _ _ _ HB).
      repeat constructor; cbn; intuition discriminate. }
    pose proof (In_dict_get _ str_eqb_eq _ _ _ Hnd Hin) as Hget.
    pose proof (am2b_entry_NoDup _ _ _ _ _ _ _ _ _ t HB) as Hentry.
    unfold entry_of in Hentry. now rewrite Hget in Hentry.
  - destruct (auto_sharp_use_curvature s); [|destruct H].
    destruct H as [<- | []]. cbn [fst]. rewrite am2c_emits_nothing. constructor.
  - destruct (auto_sharp_preserve_uv_boundaries s); [|destruct H].
    destruct H as [<- | []]. cbn [fst]. rewrite am2d_emits_nothing. constructor.
Qed.

(** X19. When the detectors return, the candidate list the pass builds for
    an edge holds, in the order in which the orchestrator runs the detectors
    (dihedral angle, then authored sharp, crease, seam, bevel, then
    curvature, then UV boundary), the detection of every detector whose
    output contains the edge, once each; so an edge never has two
    candidates of the same type. *)
Theorem pass_candidates_follow_detector_order :
  forall (bm : option (BMesh Vector)) (settings : Settings)
         (batches : list (list nat * Detection)) (e : nat),
    detector_batches angle bm settings = Returned batches ->
    fst (collect_candidates angle bm settings)
      = Returned (aggregate batches []) /\
    candidates_of (aggregate batches []) e =
    flat_map (fun b => if edge_mem e (fst b) then [snd b] else []) batches /\
    map snd batches =
    [ (TYPE_ANGLE_SHARP, auto_sharp_primary_angle settings);
      (TYPE_BLENDER_SHARP, 1%Q); (TYPE_BLENDER_CREASE, 1%Q);
      (TYPE_BLENDER_SEAM, 1%Q); (TYPE_BLENDER_BEVEL, 1%Q) ]
    ++ (if auto_sharp_use_curvature settings
        then [ (TYPE_CURVATURE_SHARP, auto_sharp_curvature_sensitivity settings) ]
        else [])
    ++ (if auto_sharp_preserve_uv_boundaries settings
        then [ (TYPE_UV_SEAM_BOUNDARY, 1%Q) ] else []) /\
    NoDup (map fst (candidates_of (aggregate batches []) e)).
Proof.
  intros bm s bs e Hb.
  assert (Hex : candidates_of (aggregate bs []) e =
                flat_map (fun b => if edge_mem e (fst b) then [snd b] else []) bs).
  { rewrite aggregate_exact; [reflexivity|].
    intros b. apply (detector_batches_NoDup _ _ _ _ Hb). }
  split; [rewrite collect_candidates_aggregate, Hb; reflexivity|].
  split; [exact Hex|].
  split; [exact (detector_batches_detections _ _ _ _ _ Hb)|].
  rewrite Hex. apply flat_map_types_NoDup.
  rewrite <- (map_map snd fst), (detector_batches_detections _ _ _ _ _ Hb).
  destruct (auto_sharp_use_curvature s), (auto_sharp_preserve_uv_boundaries s);
    cbn; repeat constructor; cbn; intuition discriminate.
Qed.
End ExactCandidates.

Lemma pass_candidates_follow_detector_order_witness :
  detector_batches heading_angle (Some junction_star) seams_only_settings
    = Returned junction_star_outputs /\
  fst (collect_candidates heading_angle (Some junction_star) seams_only_settings)
    = Returned (aggregate junction_star_outputs []) /\
  candidates_of (aggregate junction_star_outputs []) 1 =
  flat_map (fun b => if edge_mem 1 (fst b) then [snd b] else [])
           junction_star_outputs /\
  map snd junction_star_outputs =
  [ (TYPE_ANGLE_SHARP, auto_sharp_primary_angle seams_only_settings);
    (TYPE_BLENDER_SHARP, 1%Q); (TYPE_BLENDER_CREASE, 1%Q);
    (TYPE_BLENDER_SEAM, 1%Q); (TYPE_BLENDER_BEVEL, 1%Q) ]
  ++ (if auto_sharp_use_curvature seams_only_settings
      then [ (TYPE_CURVATURE_SHARP,
              auto_sharp_curvature_sensitivity seams_only_settings) ]
      else [])
  ++ (if auto_sharp_preserve_uv_boundaries seams_only_settings
      then [ (TYPE_UV_SEAM_BOUNDARY, 1%Q) ] else []) /\
  NoDup (map fst (candidates_of (aggregate junction_star_outputs []) 1)).
Proof.
  assert (H : detector_batches heading_angle (Some junction_star)
                seams_only_settings = Returned junction_star_outputs)
    by (vm_compute; reflexivity).
  split; [exact H|].
  apply (pass_candidates_follow_detector_order (option Q) heading_angle
           (Some junction_star) seams_only_settings junction_star_outputs 1 H).
Defined.
